(** * avds: the AVD multi-launcher of [bin/avd-runner.js]

    A shallow embedding of the [AVDLauncher] class and of the part of the
    Node.js runtime it talks to, followed by the properties of its
    inventory parser, its two selection interfaces, its launch-mode prompt
    and its three launch schedulers.

    Conventions.
    - A JavaScript string is a [string] of bytes: the UTF-8 text that goes
      through the pipes and the terminal, a character beyond U+007F being
      the bytes of its encoding. [trim] removes every white-space
      character and line terminator of ECMAScript, the ones beyond ASCII
      included.
    - An asynchronous method is a computation in the monad [M]: it reads the
      launcher object and the pending answers of the outside world from a
      [state], appends the actions it performs to a trace of [event]s, and
      ends as a [result]: resolved, rejected, process exit, or blocked
      forever on an event that never arrives.
    - The outside world is data: the results the operating system will give
      to the successive [exec] calls, the lines, key presses and prompt
      answers of the user, and the order in which concurrent callbacks are
      delivered. Every theorem quantifies over it. *)

From stdpp Require Import base option list strings gmap pretty.
From Stdlib Require Import ZArith Ascii Lia.

Open Scope Z_scope.

(* ===================================================================== *)
(** * Part I: definitions *)
(* ===================================================================== *)

(** ** JavaScript string primitives *)

Module JsString.

Definition LF : ascii := ascii_of_nat 10.
Definition nl : string := String LF EmptyString.
Definition dq : string := String (ascii_of_nat 34) EmptyString.
Definition esc : string := String (ascii_of_nat 27) EmptyString.

(** The text made of the bytes [l]. *)
Definition bytes (l : list Z) : string :=
  foldr (fun n s => String (ascii_of_nat (Z.to_nat n)) s) EmptyString l.

(** The white space and the line terminators of ECMAScript, which are
    what [String.prototype.trim] removes, each as the bytes of its UTF-8
    encoding. *)
Definition whiteSpace : list string :=
  [bytes [9];              (* U+0009 character tabulation *)
   bytes [10];             (* U+000A line feed *)
   bytes [11];             (* U+000B line tabulation *)
   bytes [12];             (* U+000C form feed *)
   bytes [13];             (* U+000D carriage return *)
   bytes [32];             (* U+0020 space *)
   bytes [194; 160];       (* U+00A0 no-break space *)
   bytes [225; 154; 128];  (* U+1680 ogham space mark *)
   bytes [226; 128; 128];  (* U+2000 en quad *)
   bytes [226; 128; 129];  (* U+2001 em quad *)
   bytes [226; 128; 130];  (* U+2002 en space *)
   bytes [226; 128; 131];  (* U+2003 em space *)
   bytes [226; 128; 132];  (* U+2004 three-per-em space *)
   bytes [226; 128; 133];  (* U+2005 four-per-em space *)
   bytes [226; 128; 134];  (* U+2006 six-per-em space *)
   bytes [226; 128; 135];  (* U+2007 figure space *)
   bytes [226; 128; 136];  (* U+2008 punctuation space *)
   bytes [226; 128; 137];  (* U+2009 thin space *)
   bytes [226; 128; 138];  (* U+200A hair space *)
   bytes [226; 128; 168];  (* U+2028 line separator *)
   bytes [226; 128; 169];  (* U+2029 paragraph separator *)
   bytes [226; 128; 175];  (* U+202F narrow no-break space *)
   bytes [226; 129; 159];  (* U+205F medium mathematical space *)
   bytes [227; 128; 128];  (* U+3000 ideographic space *)
   bytes [239; 187; 191]]. (* U+FEFF zero width no-break space *)

(** What follows [t] at the head of [s], when [s] starts with [t]. *)
Fixpoint stripPrefix (t s : string) : option string :=
  match t with
  | EmptyString => Some s
  | String a t' =>
      match s with
      | EmptyString => None
      | String b s' => if decide (a = b) then stripPrefix t' s' else None
      end
  end.

(** What follows the white-space character at the head of [s], when
    there is one. *)
Definition whiteStart (s : string) : option string :=
  foldr (fun t found => match stripPrefix t s with Some rest => Some rest | None => found end)
    None whiteSpace.

(** [s.trimStart()]: white-space characters are removed from the head
    until none is left; [fuel] bounds their number. *)
Fixpoint trimStartFrom (fuel : nat) (s : string) : string :=
  match fuel with
  | O => s
  | S fuel' =>
      match whiteStart s with
      | Some rest => trimStartFrom fuel' rest
      | None => s
      end
  end.

Definition trimStart (s : string) : string := trimStartFrom (String.length s) s.

(** A text of white-space characters only. *)
Definition isBlank (s : string) : bool := bool_decide (trimStart s = EmptyString).

(** [s.trimEnd()]: the text up to the first position from which only
    white-space characters follow. *)
Fixpoint trimEnd (s : string) : string :=
  match s with
  | EmptyString => EmptyString
  | String c s' => if isBlank s then EmptyString else String c (trimEnd s')
  end.

(** [s.trim()] *)
Definition trim (s : string) : string := trimEnd (trimStart s).

(** [s.split(sep)] for a one-character separator: never empty, the empty
    string splits into one empty piece. *)
Fixpoint split (sep : ascii) (s : string) : list string :=
  match s with
  | EmptyString => [EmptyString]
  | String c s' =>
      if decide (c = sep) then EmptyString :: split sep s'
      else match split sep s' with
           | piece :: pieces => String c piece :: pieces
           | [] => [String c EmptyString]
           end
  end.

(** [s.includes(c)] for one character *)
Fixpoint contains (c : ascii) (s : string) : bool :=
  match s with
  | EmptyString => false
  | String c' s' => bool_decide (c' = c) || contains c s'
  end.

(** [s !== ''] *)
Definition nonEmpty (s : string) : bool := bool_decide (s ≠ EmptyString).

End JsString.

(** ** The Node.js runtime seen from the launcher *)

Module Node.
Import JsString.

(** What [child_process.exec] eventually reports for one call. Either the
    shell ran and the callback receives [error] (null when the exit code
    is zero) and the captured standard output, or the child could not be
    run at all: it emits ['error'], which [exec] forwards to the
    callback and which also reaches every ['error'] listener put on the
    child. *)
Inductive exec_result :=
| Callback (error : option string) (stdout : string)
| ChildError (message : string).

(** A key press as the readline key parser describes it. *)
Record keypress := { name : option string; ctrl : bool }.

(** What the event loop hands to the raw-keyboard menu: a ['keypress']
    event (whose [key] argument may be undefined) or the expiry of a
    timer armed with [setTimeout]. *)
Inductive stdin_event :=
| Key (key : option keypress)
| TimerFired.

Inductive launchMode := parallel | delayed | sequential.

(** Observable actions, in program order. *)
Inductive event :=
| ConsoleClear
| ConsoleLog (text : string)
| ConsoleError (text : string)
| ConsoleErrorFormat (format argument : string)
| Exec (command : string)
| Settled (avdName : string)
| Sleep (ms : Z)
| SetTimeout (ms : Z)
| RlQuestion (query : string)
| InquirerPrompt (type message : string)
| InquirerInvalid (message : string)
| LineRead (line : string)
| ChoiceRead (mode : launchMode)
| ChecksRead (checked : list bool)
| KeyRead (key : option keypress)
| SetRawMode (mode : bool)
| StdinResume
| StdinSetEncoding (encoding : string)
| StdinOn (eventName : string)
| StdinRemoveListener (eventName : string).

Inductive result (A : Type) :=
| Ok (a : A)
| Rejected (message : string)
| Exited (code : Z)
| Blocked.
Arguments Ok {A} a.
Arguments Rejected {A} message.
Arguments Exited {A} code.
Arguments Blocked {A}.

(** The launcher object ([this.avds], [this.selectedAVDs]), the
    process-wide constants ([useInquirer], [os.platform()], and whether
    standard input is a terminal) and what the outside world still has in
    store. [rawModeError] is [None] when standard input is a terminal;
    when it is not, [process.stdin] has no method [setRawMode] and calling
    it throws a [TypeError], whose message [rawModeError] holds. In
    [execs], [None] is a call whose callback never fires; a call beyond
    the end of the list never settles either. *)
Record state := {
  useInquirer : bool;
  platform : string;
  rawModeError : option string;
  avds : list string;
  selectedAVDs : list string;
  execs : list (option exec_result);
  lines : list string;
  modes : list launchMode;
  checks : list (list bool);
  keys : list stdin_event;
  picks : list nat
}.

Definition M (A : Type) : Type := state -> result A * list event * state.

Definition ret {A} (a : A) : M A := fun s => (Ok a, [], s).

Definition bind {A B} (m : M A) (f : A -> M B) : M B :=
  fun s =>
    match m s with
    | (Ok a, evs, s1) =>
        match f a s1 with (r, evs', s2) => (r, evs ++ evs', s2) end
    | (Rejected e, evs, s1) => (Rejected e, evs, s1)
    | (Exited c, evs, s1) => (Exited c, evs, s1)
    | (Blocked, evs, s1) => (Blocked, evs, s1)
    end.

(** [try { m } catch (err) { handler(err.message) }] *)
Definition catch {A} (m : M A) (handler : string -> M A) : M A :=
  fun s =>
    match m s with
    | (Rejected e, evs, s1) =>
        match handler e s1 with (r, evs', s2) => (r, evs ++ evs', s2) end
    | other => other
    end.

Definition emit (e : event) : M unit := fun s => (Ok tt, [e], s).
Definition reject {A} (message : string) : M A := fun s => (Rejected message, [], s).
Definition processExit {A} (code : Z) : M A := fun s => (Exited code, [], s).
Definition block {A} : M A := fun s => (Blocked, [], s).
Definition gets {A} (f : state -> A) : M A := fun s => (Ok (f s), [], s).

Definition consoleLog (text : string) : M unit := emit (ConsoleLog text).
Definition consoleError (text : string) : M unit := emit (ConsoleError text).

(** [console.error(format, argument)] with two strings. Node prints what
    [util.format] makes of them: when the first holds no [%], the two
    with a space between; when it does, the first is a format in the
    manner of printf whose placeholders Node fills in from the second, and
    the line is recorded as the call it comes from. *)
Definition errorEvent (format argument : string) : event :=
  if contains "%" format then ConsoleErrorFormat format argument
  else ConsoleError (format +:+ " " +:+ argument).

Definition consoleErrorWith (format argument : string) : M unit :=
  emit (errorEvent format argument).

Definition set_selectedAVDs (l : list string) (s : state) : state :=
  {| useInquirer := useInquirer s; platform := platform s;
     rawModeError := rawModeError s; avds := avds s;
     selectedAVDs := l; execs := execs s; lines := lines s;
     modes := modes s; checks := checks s; keys := keys s; picks := picks s |}.
Definition set_execs (l : list (option exec_result)) (s : state) : state :=
  {| useInquirer := useInquirer s; platform := platform s;
     rawModeError := rawModeError s; avds := avds s;
     selectedAVDs := selectedAVDs s; execs := l; lines := lines s;
     modes := modes s; checks := checks s; keys := keys s; picks := picks s |}.
Definition set_lines (l : list string) (s : state) : state :=
  {| useInquirer := useInquirer s; platform := platform s;
     rawModeError := rawModeError s; avds := avds s;
     selectedAVDs := selectedAVDs s; execs := execs s; lines := l;
     modes := modes s; checks := checks s; keys := keys s; picks := picks s |}.
Definition set_modes (l : list launchMode) (s : state) : state :=
  {| useInquirer := useInquirer s; platform := platform s;
     rawModeError := rawModeError s; avds := avds s;
     selectedAVDs := selectedAVDs s; execs := execs s; lines := lines s;
     modes := l; checks := checks s; keys := keys s; picks := picks s |}.
Definition set_checks (l : list (list bool)) (s : state) : state :=
  {| useInquirer := useInquirer s; platform := platform s;
     rawModeError := rawModeError s; avds := avds s;
     selectedAVDs := selectedAVDs s; execs := execs s; lines := lines s;
     modes := modes s; checks := l; keys := keys s; picks := picks s |}.
Definition set_keys (l : list stdin_event) (s : state) : state :=
  {| useInquirer := useInquirer s; platform := platform s;
     rawModeError := rawModeError s; avds := avds s;
     selectedAVDs := selectedAVDs s; execs := execs s; lines := lines s;
     modes := modes s; checks := checks s; keys := l; picks := picks s |}.
Definition set_picks (l : list nat) (s : state) : state :=
  {| useInquirer := useInquirer s; platform := platform s;
     rawModeError := rawModeError s; avds := avds s;
     selectedAVDs := selectedAVDs s; execs := execs s; lines := lines s;
     modes := modes s; checks := checks s; keys := keys s; picks := l |}.

(** [exec(command, callback)]: the call is issued now; what it will
    report, if anything, is the next entry of [execs]. *)
Definition exec (command : string) : M (option exec_result) :=
  fun s =>
    match execs s with
    | r :: rest => (Ok r, [Exec command], set_execs rest s)
    | [] => (Ok None, [Exec command], s)
    end.

(** Waiting for a callback: a call that never settles blocks for ever. *)
Definition await {A} (pending : option A) : M A :=
  match pending with
  | Some a => ret a
  | None => block
  end.

(** The arguments [exec] passes to its callback. *)
Definition callbackArgs (r : exec_result) : option string * string :=
  match r with
  | Callback error stdout => (error, stdout)
  | ChildError message => (Some message, EmptyString)
  end.

(** The argument of the ['error'] event of the child, when it is emitted. *)
Definition childErrorEvent (r : exec_result) : option string :=
  match r with
  | Callback _ _ => None
  | ChildError message => Some message
  end.

(** [process.stdin.setRawMode(mode)] inside a promise executor: what it
    throws rejects the promise. *)
Definition setRawMode (mode : bool) : M unit :=
  bind (gets rawModeError)
    (fun failure =>
       match failure with
       | None => emit (SetRawMode mode)
       | Some message => reject message
       end).

(** [await new Promise(resolve => setTimeout(resolve, ms))] *)
Definition sleep (ms : Z) : M unit := emit (Sleep ms).

(** The user answers a line-based question ([rl.question], or an
    [input] prompt of inquirer) with the next line, if there is one. *)
Definition readLine : M string :=
  fun s =>
    match lines s with
    | l :: rest => (Ok l, [LineRead l], set_lines rest s)
    | [] => (Blocked, [], s)
    end.

Definition question (query : string) : M string :=
  bind (emit (RlQuestion query)) (fun _ => readLine).

Definition inquirerInput (message : string) : M string :=
  bind (emit (InquirerPrompt "input" message)) (fun _ => readLine).

(** A [list] prompt of inquirer over the three launch modes. *)
Definition inquirerList (message : string) : M launchMode :=
  bind (emit (InquirerPrompt "list" message))
    (fun _ s =>
       match modes s with
       | m :: rest => (Ok m, [ChoiceRead m], set_modes rest s)
       | [] => (Blocked, [], s)
       end).

(** The next scheduling choice among [n] callbacks that are ready. *)
Definition pick (n : nat) : M nat :=
  fun s =>
    match picks s with
    | k :: rest => (Ok (k mod n)%nat, [], set_picks rest s)
    | [] => (Ok 0%nat, [], s)
    end.

End Node.

(** ** The launcher *)

Module AVDLauncher.
Import JsString Node.

Declare Scope launcher_scope.
Delimit Scope launcher_scope with launcher.
Notation "x <- m ;; k" := (bind m (fun x => k))
  (at level 100, m at next level, k at level 200, right associativity)
  : launcher_scope.
Notation "m ;; k" := (bind m (fun _ => k))
  (at level 100, k at level 200, right associativity) : launcher_scope.
Open Scope launcher_scope.

(** [arr.forEach((x, index) => body)], starting at [index]. *)
Fixpoint forEachFrom {A} (index : nat) (body : A -> nat -> M unit) (l : list A) : M unit :=
  match l with
  | [] => ret tt
  | x :: rest => body x index ;; forEachFrom (S index) body rest
  end.

Definition forEach {A} (body : A -> nat -> M unit) (l : list A) : M unit :=
  forEachFrom 0 body l.

(** *** Inventory *)

(** Line 68: [stdout.trim().split('\n').filter(avd => avd.trim() !== '')] *)
Definition parseAVDs (stdout : string) : list string :=
  filter (fun avd => nonEmpty (trim avd) = true) (split LF (trim stdout)).

Definition getAVDList : M (list string) :=
  consoleLog ("🔍 Fetching available AVDs..." +:+ nl) ;;
  pending <- exec "emulator -list-avds" ;;
  r <- await pending ;;
  match callbackArgs r with
  | (Some message, _) =>
      consoleError "❌ Error fetching AVDs. Make sure Android SDK is installed and emulator is in PATH." ;;
      consoleErrorWith "Error:" message ;;
      reject message
  | (None, stdout) =>
      let avds := parseAVDs stdout in
      if (length avds =? 0)%nat then
        consoleLog "⚠️  No AVDs found. Please create AVDs using Android Studio first." ;;
        reject "No AVDs found"
      else ret avds
  end.

Definition printAVDs : M unit :=
  catch
    (avds <- getAVDList ;;
     consoleLog ("📱 Available Android Virtual Devices:" +:+ nl) ;;
     forEach (fun avd index => consoleLog (pretty (index + 1)%nat +:+ ". " +:+ avd)) avds ;;
     consoleLog (nl +:+ "📊 Total: " +:+ pretty (length avds) +:+ " AVD(s)"))
    (fun _ => processExit 1).

(** Lines 429-431: [launcher.printAVDs().then(() => process.exit(0))] *)
Definition listingMode : M unit :=
  printAVDs ;; processExit 0.

(** *** The raw-keyboard menu *)

(** [currentIndex] and the [selected] array of [selectAVDsBuiltIn]. A
    JavaScript array is an object indexed by anything: reading a missing
    index gives [undefined], which is falsy, and writing one creates it.
    [timers] counts the redraws armed with [setTimeout] that are still to
    fire. *)
Record menu := {
  currentIndex : Z;
  selected : gmap Z bool;
  timers : nat
}.

(** [new Array(n).fill(false)] *)
Definition arrayFill (n : nat) (v : bool) : gmap Z bool :=
  list_to_map ((fun i => (Z.of_nat i, v)) <$> seq 0 n).

(** [selected[index]] used as a condition *)
Definition truthy (selected : gmap Z bool) (index : Z) : bool :=
  default false (selected !! index).

(** [selected.filter(Boolean).length]: the array indices holding [true] *)
Definition selectedCount (selected : gmap Z bool) : nat :=
  size (filter (fun kv => 0 <= kv.1 ∧ kv.2 = true) selected).

(** [this.avds.filter((_, index) => selected[index])], from [index] on *)
Fixpoint filterSelected (selected : gmap Z bool) (index : Z) (avds : list string) : list string :=
  match avds with
  | [] => []
  | avd :: rest =>
      if truthy selected index
      then avd :: filterSelected selected (index + 1) rest
      else filterSelected selected (index + 1) rest
  end.

Definition menuLine (st : menu) (avd : string) (index : nat) : string :=
  let cursor := if decide (Z.of_nat index = currentIndex st) then "→ " else "  " in
  let checkbox := if truthy (selected st) (Z.of_nat index) then "☑️ " else "☐ " in
  let highlight := if decide (Z.of_nat index = currentIndex st)
                   then esc +:+ "[36m" else esc +:+ "[0m" in
  let reset := esc +:+ "[0m" in
  cursor +:+ highlight +:+ checkbox +:+ avd +:+ reset.

Definition displayMenu (avds : list string) (st : menu) : M unit :=
  emit ConsoleClear ;;
  consoleLog "🤖 Android AVD Multi-Launcher" ;;
  consoleLog ("==============================" +:+ nl) ;;
  consoleLog ("📱 Select AVDs to launch:" +:+ nl) ;;
  consoleLog ("Use ↑↓ to navigate, Space to select/deselect, Enter to confirm" +:+ nl) ;;
  forEach (fun avd index => consoleLog (menuLine st avd index)) avds ;;
  consoleLog (nl +:+ "📊 Selected: " +:+ pretty (selectedCount (selected st)) +:+ " AVD(s)") ;;
  consoleLog (nl +:+ "💡 Controls: ↑↓ Navigate | Space Select | Enter Confirm | q Quit").

(** How one run of a listener leaves the selector. [resolve()] hands the
    chosen devices over; [process.exit] comes out as [Exited]. *)
Inductive control :=
| Continue (st : menu)
| Resolve (selectedAVDs : list string).

Definition goodbye : M control :=
  consoleLog (nl +:+ "👋 Goodbye!") ;; processExit 0.

(** Lines 110-154. The listener is put on standard input after
    [setRawMode(true)] has returned (lines 156-159), so the method is
    there when line 135 calls it. *)
Definition handleKeypress (avds : list string) (key : option keypress) (st : menu) : M control :=
  match key with
  | None => ret (Continue st)
  | Some key =>
      let n := Z.of_nat (length avds) in
      if decide (name key = Some "up") then
        let st' := {| currentIndex := if 0 <? currentIndex st then currentIndex st - 1 else n - 1;
                      selected := selected st; timers := timers st |} in
        displayMenu avds st' ;; ret (Continue st')
      else if decide (name key = Some "down") then
        let st' := {| currentIndex := if currentIndex st <? n - 1 then currentIndex st + 1 else 0;
                      selected := selected st; timers := timers st |} in
        displayMenu avds st' ;; ret (Continue st')
      else if decide (name key = Some "space") then
        let st' := {| currentIndex := currentIndex st;
                      selected := <[currentIndex st := negb (truthy (selected st) (currentIndex st))]>
                                    (selected st);
                      timers := timers st |} in
        displayMenu avds st' ;; ret (Continue st')
      else if decide (name key = Some "return") then
        let selectedAVDs := filterSelected (selected st) 0 avds in
        if (length selectedAVDs =? 0)%nat then
          consoleLog (nl +:+ "❌ Please select at least one AVD.") ;;
          emit (SetTimeout 1500) ;;
          ret (Continue {| currentIndex := currentIndex st; selected := selected st;
                           timers := S (timers st) |})
        else
          emit (SetRawMode false) ;;
          emit (StdinRemoveListener "keypress") ;;
          ret (Resolve selectedAVDs)
      else if decide (name key = Some "q") then goodbye
      else if decide (name key = Some "c") then
        if ctrl key then goodbye else ret (Continue st)
      else ret (Continue st)
  end.

(** The timer of line 133 expires: [displayMenu()] on the menu as it is
    then. An expiry with no timer armed does not happen. *)
Definition handleTimer (avds : list string) (st : menu) : M control :=
  match timers st with
  | O => ret (Continue st)
  | S k =>
      displayMenu avds st ;;
      ret (Continue {| currentIndex := currentIndex st; selected := selected st; timers := k |})
  end.

(** The listener the event loop runs for one event. *)
Definition listener (avds : list string) (ev : stdin_event) (st : menu) : M control :=
  match ev with
  | Key key => emit (KeyRead key) ;; handleKeypress avds key st
  | TimerFired => handleTimer avds st
  end.

(** The event loop while the promise of [selectAVDsBuiltIn] is pending:
    one listener run per event, until [resolve()] or [process.exit]. With
    no event left the promise stays pending for ever. *)
Fixpoint menuLoop (avds : list string) (events : list stdin_event) (st : menu) : M (list string) :=
  match events with
  | [] => block
  | ev :: rest =>
      (fun s => (Ok tt, [], set_keys rest s)) ;;
      c <- listener avds ev st ;;
      match c with
      | Continue st' => menuLoop avds rest st'
      | Resolve selectedAVDs => ret selectedAVDs
      end
  end.

(** The menu when [selectAVDsBuiltIn] starts, lines 83-84. *)
Definition initialMenu (avds : list string) : menu :=
  {| currentIndex := 0; selected := arrayFill (length avds) false; timers := 0 |}.

(** Lines 82-161. The call [setRawMode(true)] of line 156 is not guarded:
    when it throws, the promise is rejected, the menu having been printed
    once. Redraws still armed when the promise resolves fire later,
    during the prompts that follow; they only write to the console and
    are left out. *)
Definition selectAVDsBuiltIn : M unit :=
  avds <- gets avds ;;
  let st := initialMenu avds in
  displayMenu avds st ;;
  setRawMode true ;;
  emit StdinResume ;;
  emit (StdinSetEncoding "utf8") ;;
  emit (StdinOn "keypress") ;;
  events <- gets keys ;;
  selectedAVDs <- menuLoop avds events st ;;
  fun s => (Ok tt, [], set_selectedAVDs selectedAVDs s).

(** *** The inquirer menu *)

(** A choice of a [checkbox] prompt. *)
Record choice := { label : string; value : string; checked : bool }.

(** The values of the choices ticked in one submission, in the order of
    the choices. *)
Fixpoint tickedValues (choices : list choice) (ticks : list bool) : list string :=
  match choices, ticks with
  | c :: choices', t :: ticks' =>
      if t then value c :: tickedValues choices' ticks'
      else tickedValues choices' ticks'
  | _, _ => []
  end.

(** The [checkbox] prompt of inquirer, as its documentation has it: each
    submission goes through [validate]; when that returns a message the
    message is shown and the prompt stays open, when it returns [true]
    the prompt resolves with the submitted values. *)
Fixpoint checkboxLoop (choices : list choice) (validate : list string -> option string)
    (submissions : list (list bool)) : M (list string) :=
  match submissions with
  | [] => block
  | ticks :: rest =>
      (fun s => (Ok tt, [ChecksRead ticks], set_checks rest s)) ;;
      let input := tickedValues choices ticks in
      match validate input with
      | Some message => emit (InquirerInvalid message) ;; checkboxLoop choices validate rest
      | None => ret input
      end
  end.

Definition inquirerCheckbox (message : string) (choices : list choice)
    (validate : list string -> option string) : M (list string) :=
  emit (InquirerPrompt "checkbox" message) ;;
  submissions <- gets checks ;;
  checkboxLoop choices validate submissions.

(** Lines 177-182; [None] stands for [true]. *)
Definition validate (input : list string) : option string :=
  if (length input =? 0)%nat then Some "Please select at least one AVD." else None.

(** Lines 164-192 *)
Definition selectAVDsInquirer : M unit :=
  avds <- gets avds ;;
  let choices := (fun avd => {| label := "📱 " +:+ avd; value := avd; checked := false |}) <$> avds in
  answers <- inquirerCheckbox "Select AVDs to launch:" choices validate ;;
  (fun s => (Ok tt, [], set_selectedAVDs answers s)) ;;
  selectedAVDs <- gets selectedAVDs ;;
  consoleLog (nl +:+ "✅ Selected " +:+ pretty (length selectedAVDs) +:+ " AVD(s):") ;;
  forEach (fun avd _ => consoleLog ("   ✓ " +:+ avd)) selectedAVDs ;;
  consoleLog EmptyString.

(** Lines 351-355 *)
Definition selectAVDs : M unit :=
  ui <- gets useInquirer ;;
  if ui then selectAVDsInquirer else selectAVDsBuiltIn.

(** *** Launch mode *)

(** Lines 194-235 *)
Definition selectLaunchOptions : M launchMode :=
  selectedAVDs <- gets selectedAVDs ;;
  if (length selectedAVDs =? 1)%nat then ret parallel
  else
    ui <- gets useInquirer ;;
    if ui then inquirerList "How would you like to launch the AVDs?"
    else
      consoleLog "How would you like to launch the AVDs?" ;;
      consoleLog "1. 🚀 Launch all at once (faster)" ;;
      consoleLog "2. ⏱️  Launch with delay (more stable)" ;;
      consoleLog "3. 👆 Launch one by one (manual control)" ;;
      answer <- question "Enter your choice (1-3): " ;;
      let choice := trim answer in
      if decide (choice = "1") then ret parallel
      else if decide (choice = "2") then ret delayed
      else if decide (choice = "3") then ret sequential
      else consoleLog "Invalid choice. Using parallel launch." ;; ret parallel.

(** *** Spawning *)

(** Lines 237-252 *)
Definition getEmulatorCommand (platform avdName : string) : string :=
  let baseCommand := "emulator -avd " +:+ dq +:+ avdName +:+ dq in
  if decide (platform = "win32") then
    "powershell -Command " +:+ dq +:+ "Start-Process cmd -ArgumentList '/c','" +:+ baseCommand
      +:+ "' -WindowStyle Minimized -PassThru | Out-Null" +:+ dq
  else if decide (platform = "darwin") then
    "osascript -e 'tell app " +:+ dq +:+ "Terminal" +:+ dq +:+ " to do script " +:+ dq
      +:+ baseCommand +:+ dq +:+ "'"
  else if decide (platform = "linux") then
    "gnome-terminal --title=" +:+ dq +:+ "AVD: " +:+ avdName +:+ dq +:+ " -- bash -c " +:+ dq
      +:+ baseCommand +:+ "; exec bash" +:+ dq
      +:+ " || xterm -title " +:+ dq +:+ "AVD: " +:+ avdName +:+ dq +:+ " -e " +:+ dq
      +:+ baseCommand +:+ dq
      +:+ " || konsole --title " +:+ dq +:+ "AVD: " +:+ avdName +:+ dq +:+ " -e " +:+ dq
      +:+ baseCommand +:+ dq
  else baseCommand.

(** The first argument of the [console.error] calls of [launchAVD]. *)
Definition failureFormat (avdName : string) : string :=
  "❌ Failed to launch " +:+ avdName +:+ ":".

Definition successLine (avdName : string) : string :=
  "✅ Successfully launched " +:+ avdName.

(** The promise executor of [launchAVD], lines 256-260: it runs at once
    and issues the [exec] call. *)
Definition launchAVDStart (avdName : string) : M (option exec_result) :=
  consoleLog ("📱 Launching AVD: " +:+ avdName) ;;
  platform <- gets platform ;;
  let command := getEmulatorCommand platform avdName in
  exec command.

(** [resolve()]: the first call settles the promise, later ones do
    nothing. [settled] says whether the promise is settled already. *)
Definition resolve (avdName : string) (settled : bool) : M bool :=
  if settled then ret true else emit (Settled avdName) ;; ret true.

(** The callback given to [exec], lines 260-267 *)
Definition execCallback (avdName : string) (error : option string) (settled : bool) : M bool :=
  match error with
  | Some message => consoleErrorWith (failureFormat avdName) message
  | None => consoleLog (successLine avdName)
  end ;;
  resolve avdName settled.

(** The ['error'] listener of the child, lines 269-272 *)
Definition childErrorListener (avdName message : string) (settled : bool) : M bool :=
  consoleErrorWith (failureFormat avdName) message ;;
  resolve avdName settled.

(** What runs when the [exec] call reports: its callback and, when the
    child emitted ['error'], the listener after it (listeners run in the
    order they were added, and [exec] adds its own first). *)
Definition launchAVDSettle (avdName : string) (r : exec_result) : M unit :=
  settled <- execCallback avdName (callbackArgs r).1 false ;;
  match childErrorEvent r with
  | Some message => childErrorListener avdName message settled ;; ret tt
  | None => ret tt
  end.

(** [await this.launchAVD(avdName)], lines 254-274 *)
Definition launchAVD (avdName : string) : M unit :=
  pending <- launchAVDStart avdName ;;
  r <- await pending ;;
  launchAVDSettle avdName r.

(** *** The three schedulers *)

Fixpoint mapM {A B} (f : A -> M B) (l : list A) : M (list B) :=
  match l with
  | [] => ret []
  | x :: rest => y <- f x ;; ys <- mapM f rest ;; ret (y :: ys)
  end.

(** The calls among [promises] that will report. *)
Definition willSettle (promises : list (string * option exec_result)) : list (string * exec_result) :=
  omap (fun p => match p.2 with Some r => Some (p.1, r) | None => None end) promises.

(** The callbacks of the calls in flight run one at a time, in an order
    the program does not control: the next one is [pick]ed among those
    still outstanding. *)
Fixpoint settleAll (fuel : nat) (outstanding : list (string * exec_result)) : M unit :=
  match fuel with
  | O => ret tt
  | S fuel' =>
      match outstanding with
      | [] => ret tt
      | _ =>
          k <- pick (length outstanding) ;;
          match outstanding !! k with
          | Some (avdName, r) =>
              launchAVDSettle avdName r ;; settleAll fuel' (delete k outstanding)
          | None => ret tt
          end
      end
  end.

(** [await Promise.all(promises)]: resolves when every promise has; a
    promise that never settles keeps it pending. *)
Definition promiseAll (promises : list (string * option exec_result)) : M unit :=
  let outstanding := willSettle promises in
  settleAll (length outstanding) outstanding ;;
  if (length outstanding =? length promises)%nat then ret tt else block.

(** Lines 276-281 *)
Definition launchAVDsParallel : M unit :=
  consoleLog ("🚀 Starting all selected AVDs simultaneously..." +:+ nl) ;;
  selectedAVDs <- gets selectedAVDs ;;
  promises <- mapM (fun avd => pending <- launchAVDStart avd ;; ret (avd, pending)) selectedAVDs ;;
  promiseAll promises.

(** The [for] loop of lines 286-293 from index [i] on; [fuel] bounds the
    number of times the loop condition is evaluated. *)
Fixpoint delayedLoop (fuel : nat) (i : nat) : M unit :=
  match fuel with
  | O => ret tt
  | S fuel' =>
      selectedAVDs <- gets selectedAVDs ;;
      match selectedAVDs !! i with
      | None => ret tt
      | Some avd =>
          launchAVD avd ;;
          (if Z.of_nat i <? Z.of_nat (length selectedAVDs) - 1 then
             consoleLog ("⏳ Waiting 3 seconds before next launch..." +:+ nl) ;;
             sleep 3000
           else ret tt) ;;
          delayedLoop fuel' (S i)
      end
  end.

(** Lines 283-294 *)
Definition launchAVDsDelayed : M unit :=
  consoleLog ("⏱️  Starting AVDs with 3-second delays..." +:+ nl) ;;
  selectedAVDs <- gets selectedAVDs ;;
  delayedLoop (S (length selectedAVDs)) 0.

(** The [for ... of] loop of lines 299-316 *)
Fixpoint sequentialLoop (l : list string) : M unit :=
  match l with
  | [] => ret tt
  | avd :: rest =>
      ui <- gets useInquirer ;;
      (if ui then inquirerInput ("Press Enter to launch: " +:+ avd)
       else question ("Press Enter to launch: " +:+ avd +:+ " ")) ;;
      launchAVD avd ;;
      consoleLog EmptyString ;;
      sequentialLoop rest
  end.

(** Lines 296-317 *)
Definition launchAVDsSequential : M unit :=
  consoleLog ("👆 Launching AVDs one by one (press Enter to launch each)..." +:+ nl) ;;
  selectedAVDs <- gets selectedAVDs ;;
  sequentialLoop selectedAVDs.

(** The [switch (launchMode)] of lines 366-376 *)
Definition launchAVDs (mode : launchMode) : M unit :=
  match mode with
  | parallel => launchAVDsParallel
  | delayed => launchAVDsDelayed
  | sequential => launchAVDsSequential
  end.

End AVDLauncher.

(** ** Vocabulary of the properties *)

Module Observations.
Import JsString Node AVDLauncher.



(** A byte that continues a character of several bytes in UTF-8. *)
Definition isContinuation (c : ascii) : bool :=
  let n := nat_of_ascii c in (128 <=? n)%nat && (n <=? 191)%nat.

Fixpoint allContinuation (s : string) : bool :=
  match s with
  | EmptyString => true
  | String c s' => isContinuation c && allContinuation s'
  end.

(** A text that does not start in the middle of a character. *)
Definition startsClean (s : string) : Prop :=
  match s with
  | EmptyString => True
  | String c _ => isContinuation c = false
  end.

(** The commands handed to [exec], in the order of the calls. *)
Definition spawned (evs : list event) : list string :=
  omap (fun e => match e with Exec command => Some command | _ => None end) evs.

(** The devices whose launch promise settled, in the order they did. *)
Definition settled (evs : list event) : list string :=
  omap (fun e => match e with Settled avdName => Some avdName | _ => None end) evs.

(** The waits, in order. *)
Definition sleeps (evs : list event) : list Z :=
  omap (fun e => match e with Sleep ms => Some ms | _ => None end) evs.

(** The events that make the schedule of a launch: prompts and their
    answers, spawns, settles and waits. Console output is left out. *)
Definition scheduling (e : event) : bool :=
  match e with
  | Exec _ | Settled _ | Sleep _ | RlQuestion _ | InquirerPrompt _ _ | LineRead _ => true
  | _ => false
  end.

Definition schedule (evs : list event) : list event :=
  filter (fun e => scheduling e = true) evs.

(** The first [n] calls of [exec] to come all report. *)
Fixpoint allSettle (n : nat) (pending : list (option exec_result)) : bool :=
  match n with
  | O => true
  | S n' =>
      match pending with
      | Some _ :: rest => allSettle n' rest
      | _ => false
      end
  end.

(** The schedule of a delayed launch: one spawn at a time, a wait of
    3000 ms between two devices and none after the last. *)
Fixpoint delayedSchedule (platform : string) (devices : list string) : list event :=
  match devices with
  | [] => []
  | avd :: rest =>
      Exec (getEmulatorCommand platform avd) :: Settled avd ::
        match rest with
        | [] => []
        | _ => Sleep 3000 :: delayedSchedule platform rest
        end
  end.

(** The prompt of the sequential launch for one device. *)
Definition launchPrompt (ui : bool) (avd : string) : event :=
  if ui then InquirerPrompt "input" ("Press Enter to launch: " +:+ avd)
  else RlQuestion ("Press Enter to launch: " +:+ avd +:+ " ").

(** The schedule of a sequential launch over the acknowledgements
    [acks]: prompt, acknowledgement, spawn, settle, for each device in
    turn; when the acknowledgements run out the next prompt stays
    unanswered. *)
Fixpoint sequentialSchedule (ui : bool) (platform : string) (devices acks : list string) : list event :=
  match devices with
  | [] => []
  | avd :: rest =>
      launchPrompt ui avd ::
        match acks with
        | [] => []
        | ack :: acks' =>
            LineRead ack :: Exec (getEmulatorCommand platform avd) :: Settled avd ::
              sequentialSchedule ui platform rest acks'
        end
  end.

(** The mode of the terminal after the [setRawMode] calls of a trace. *)
Definition rawModeAfter (evs : list event) (before : bool) : bool :=
  foldl (fun mode e => match e with SetRawMode m => m | _ => mode end) before evs.

(** One listener run that leaves the promise pending takes the menu
    from [st] to [st'], whatever the rest of the state. *)
Definition menuStep (avds : list string) (ev : stdin_event) (st st' : menu) : Prop :=
  forall s, (listener avds ev st s).1.1 = Ok (Continue st').

Inductive menuRun (avds : list string) : menu -> list stdin_event -> menu -> Prop :=
| menuRun_nil st : menuRun avds st [] st
| menuRun_cons st ev st' events st'' :
    menuStep avds ev st st' -> menuRun avds st' events st'' ->
    menuRun avds st (ev :: events) st''.

(** The console lines of [getAVDList] and [printAVDs]. *)
Definition fetchLine : event := ConsoleLog ("🔍 Fetching available AVDs..." +:+ nl).
Definition noAVDsLine : event :=
  ConsoleLog "⚠️  No AVDs found. Please create AVDs using Android Studio first.".
Definition numberedLine (index : nat) (avd : string) : event :=
  ConsoleLog (pretty (index + 1)%nat +:+ ". " +:+ avd).
Definition totalLine (avds : list string) : event :=
  ConsoleLog (nl +:+ "📊 Total: " +:+ pretty (length avds) +:+ " AVD(s)").

(** The outcome of a computation run after the events [evs]. *)
Definition prepend {A} (evs : list event) (x : result A * list event * state) :
    result A * list event * state :=
  (x.1.1, evs ++ x.1.2, x.2).

(** A computation that neither throws nor ends the process: it resolves
    or stays pending. *)
Definition noThrow {A} (m : M A) : Prop :=
  forall s, match (m s).1.1 with
            | Ok _ | Blocked => True
            | Rejected _ | Exited _ => False
            end.

(** The trace of the callbacks of one launch. *)
Definition settleEvents (avd : string) (r : exec_result) : list event :=
  match r with
  | Callback None _ => [ConsoleLog (successLine avd); Settled avd]
  | Callback (Some message) _ => [errorEvent (failureFormat avd) message; Settled avd]
  | ChildError message =>
      [errorEvent (failureFormat avd) message; Settled avd;
       errorEvent (failureFormat avd) message]
  end.

(** The trace of the promise executor of one launch. *)
Definition startEvents (platform avd : string) : list event :=
  [ConsoleLog ("📱 Launching AVD: " +:+ avd); Exec (getEmulatorCommand platform avd)].

Definition launchEvents (platform : string) (job : string * exec_result) : list event :=
  startEvents platform job.1 ++ settleEvents job.1 job.2.

Definition waitEvents : list event :=
  [ConsoleLog ("⏳ Waiting 3 seconds before next launch..." +:+ nl); Sleep 3000].

(** The trace of the delayed loop over devices paired with what their
    spawns report. *)
Fixpoint delayedEvents (platform : string) (jobs : list (string * exec_result)) : list event :=
  match jobs with
  | [] => []
  | job :: rest =>
      launchEvents platform job
        ++ match rest with [] => [] | _ => waitEvents end
        ++ delayedEvents platform rest
  end.

(** The trace of the sequential loop; it stops at the prompt that finds
    no acknowledgement. *)
Fixpoint sequentialEvents (ui : bool) (platform : string)
    (jobs : list (string * exec_result)) (acks : list string) : list event :=
  match jobs with
  | [] => []
  | job :: rest =>
      launchPrompt ui job.1 ::
        match acks with
        | [] => []
        | ack :: acks' =>
            LineRead ack :: launchEvents platform job
              ++ ConsoleLog EmptyString :: sequentialEvents ui platform rest acks'
        end
  end.

(** The console output of [displayMenu]. *)
Definition menuEvents (avds : list string) (st : menu) : list event :=
  [ConsoleClear;
   ConsoleLog "🤖 Android AVD Multi-Launcher";
   ConsoleLog ("==============================" +:+ nl);
   ConsoleLog ("📱 Select AVDs to launch:" +:+ nl);
   ConsoleLog ("Use ↑↓ to navigate, Space to select/deselect, Enter to confirm" +:+ nl)]
  ++ imap (fun index avd => ConsoleLog (menuLine st avd index)) avds
  ++ [ConsoleLog (nl +:+ "📊 Selected: " +:+ pretty (selectedCount (selected st)) +:+ " AVD(s)");
      ConsoleLog (nl +:+ "💡 Controls: ↑↓ Navigate | Space Select | Enter Confirm | q Quit")].

Definition goodbyeLine : event := ConsoleLog (nl +:+ "👋 Goodbye!").
Definition pleaseSelectLine : event := ConsoleLog (nl +:+ "❌ Please select at least one AVD.").

(** Events that are not calls of [setRawMode]. *)
Definition keepsMode (e : event) : bool :=
  match e with
  | SetRawMode _ => false
  | _ => true
  end.

(** The menu with one more redraw armed, and with one redraw less. *)
Definition armTimer (st : menu) : menu :=
  {| currentIndex := currentIndex st; selected := selected st; timers := S (timers st) |}.

End Observations.

(** ** Sample runs *)

Module Samples.
Import JsString Node AVDLauncher Observations.

Definition key (keyName : string) : stdin_event :=
  Key (Some {| name := Some keyName; ctrl := false |}).

(** Two devices selected on Linux with the built-in interface; the first
    spawn succeeds, the second cannot be run; two acknowledgements are
    ready. *)
Definition launching : state :=
  {| useInquirer := false; platform := "linux"; rawModeError := None;
     avds := ["Pixel_5"; "Pixel_7"; "Nexus_6"];
     selectedAVDs := ["Pixel_5"; "Nexus_6"];
     execs := [Some (Callback None EmptyString); Some (ChildError "spawn /bin/sh ENOENT")];
     lines := [EmptyString; EmptyString];
     modes := []; checks := []; keys := []; picks := [1%nat] |}.

(** Three devices selected on Linux; the spawn of the second fails, the
    spawns of the other two succeed; three acknowledgements are ready. *)
Definition breaking : state :=
  {| useInquirer := false; platform := "linux"; rawModeError := None;
     avds := ["Pixel_5"; "Pixel_7"; "Nexus_6"];
     selectedAVDs := ["Pixel_5"; "Pixel_7"; "Nexus_6"];
     execs := [Some (Callback None EmptyString);
               Some (Callback (Some "Command failed") EmptyString);
               Some (Callback None EmptyString)];
     lines := [EmptyString; EmptyString; EmptyString];
     modes := []; checks := []; keys := []; picks := [] |}.

(** The discovery command answers with two names and a blank line. *)
Definition listing : state :=
  {| useInquirer := false; platform := "linux"; rawModeError := None;
     avds := []; selectedAVDs := [];
     execs := [Some (Callback None ("Pixel_5" +:+ nl +:+ nl +:+ "Pixel_7" +:+ nl))];
     lines := []; modes := []; checks := []; keys := []; picks := [] |}.

(** The user types 7 at the launch-mode question. *)
Definition choosing : state :=
  {| useInquirer := false; platform := "linux"; rawModeError := None;
     avds := ["Pixel_5"; "Pixel_7"; "Nexus_6"];
     selectedAVDs := ["Pixel_5"; "Nexus_6"];
     execs := []; lines := [" 7 "];
     modes := []; checks := []; keys := []; picks := [] |}.

(** In the menu: Enter with nothing checked, the redraw, then the second
    device is checked, then the first, the third is checked and unchecked,
    Enter. *)
Definition selecting : state :=
  {| useInquirer := false; platform := "linux"; rawModeError := None;
     avds := ["Pixel_5"; "Pixel_7"; "Nexus_6"];
     selectedAVDs := [];
     execs := [Some (Callback None EmptyString); Some (Callback None EmptyString)];
     lines := [EmptyString; EmptyString];
     modes := []; checks := [];
     keys := [key "return"; TimerFired; key "down"; key "space"; key "up"; key "space";
              key "down"; key "down"; key "space"; key "space"; key "return"];
     picks := [] |}.

Definition selected : result unit * list event * state :=
  Eval vm_compute in selectAVDsBuiltIn selecting.

(** In the menu: q. *)
Definition quitting : state :=
  {| useInquirer := false; platform := "linux"; rawModeError := None;
     avds := ["Pixel_5"; "Pixel_7"; "Nexus_6"];
     selectedAVDs := [];
     execs := []; lines := []; modes := []; checks := [];
     keys := [key "down"; key "q"]; picks := [] |}.

(** Whether a trace holds a call [setRawMode(mode)]. *)
Definition callsSetRawMode (mode : bool) (evs : list event) : bool :=
  existsb (fun e => match e with SetRawMode m => Bool.eqb m mode | _ => false end) evs.

End Samples.

(** ** The whole run *)

Module Pipeline.
Import JsString Node AVDLauncher Observations.

(** [c.toLowerCase()] on the letters A-Z; the letters beyond U+007F take
    several bytes and are left as they are. *)
Definition lowerChar (c : ascii) : ascii :=
  let n := nat_of_ascii c in
  if (65 <=? n)%nat && (n <=? 90)%nat then ascii_of_nat (n + 32) else c.

Fixpoint toLowerCase (s : string) : string :=
  match s with
  | EmptyString => EmptyString
  | String c s' => String (lowerChar c) (toLowerCase s')
  end.

(** [s.startsWith(prefix)] *)
Fixpoint startsWith (s prefix : string) : bool :=
  match prefix with
  | EmptyString => true
  | String p prefix' =>
      match s with
      | EmptyString => false
      | String c s' => if decide (c = p) then startsWith s' prefix' else false
      end
  end.

(** [s.repeat(n)] *)
Fixpoint repeatString (s : string) (n : nat) : string :=
  match n with
  | O => EmptyString
  | S n' => s +:+ repeatString s n'
  end.

(** The actions of [run] beside those of the methods it calls: the answer
    to a [confirm] prompt of inquirer, and [this.rl.close()]. *)
Inductive runEvent :=
| Core (e : event)
| ConfirmRead (answer : bool)
| RlClose.

(** The state of a run: the launcher with its environment, and the
    answers the user will give to the [confirm] prompts of inquirer. *)
Record session := { launcher : state; confirms : list bool }.

Definition R (A : Type) : Type := session -> result A * list runEvent * session.

Definition retR {A} (a : A) : R A := fun ss => (Ok a, [], ss).

Definition bindR {A B} (m : R A) (f : A -> R B) : R B :=
  fun ss =>
    match m ss with
    | (Ok a, evs, ss1) =>
        match f a ss1 with (r, evs', ss2) => (r, evs ++ evs', ss2) end
    | (Rejected e, evs, ss1) => (Rejected e, evs, ss1)
    | (Exited c, evs, ss1) => (Exited c, evs, ss1)
    | (Blocked, evs, ss1) => (Blocked, evs, ss1)
    end.

Declare Scope run_scope.
Delimit Scope run_scope with run.
Notation "x <- m ;; k" := (bindR m (fun x => k))
  (at level 100, m at next level, k at level 200, right associativity)
  : run_scope.
Notation "m ;; k" := (bindR m (fun _ => k))
  (at level 100, k at level 200, right associativity) : run_scope.
Open Scope run_scope.

(** A method of the launcher called from [run]. *)
Definition liftR {A} (m : M A) : R A :=
  fun ss =>
    match m (launcher ss) with
    | (r, evs, s') => (r, Core <$> evs, {| launcher := s'; confirms := confirms ss |})
    end.

Definition emitR (e : runEvent) : R unit := fun ss => (Ok tt, [e], ss).
Definition getsR {A} (f : state -> A) : R A := fun ss => (Ok (f (launcher ss)), [], ss).
Definition blockR {A} : R A := fun ss => (Blocked, [], ss).
Definition processExitR {A} (code : Z) : R A := fun ss => (Exited code, [], ss).
Definition logR (text : string) : R unit := emitR (Core (ConsoleLog text)).
Definition errorWithR (format argument : string) : R unit :=
  emitR (Core (errorEvent format argument)).

(** [promise.catch(handler)] *)
Definition catchR {A} (m : R A) (handler : string -> R A) : R A :=
  fun ss =>
    match m ss with
    | (Rejected e, evs, ss1) =>
        match handler e ss1 with (r, evs', ss2) => (r, evs ++ evs', ss2) end
    | other => other
    end.

(** What [finalizer] makes of the outcome [r] of the protected part: it
    runs when that part has resolved or thrown, and its own failure
    replaces the outcome. *)
Definition finally {A} (r : result A) (evs : list runEvent) (ss : session)
    (finalizer : R unit) : result A * list runEvent * session :=
  match r with
  | Ok _ | Rejected _ =>
      match finalizer ss with
      | (Ok _, evs', ss') => (r, evs ++ evs', ss')
      | (Rejected e, evs', ss') => (Rejected e, evs ++ evs', ss')
      | (Exited c, evs', ss') => (Exited c, evs ++ evs', ss')
      | (Blocked, evs', ss') => (Blocked, evs ++ evs', ss')
      end
  | Exited _ | Blocked => (r, evs, ss)
  end.

(** [try { body } catch (error) { handler(error.message) } finally
    { finalizer }]. A process exit, or a wait that never ends, leaves the
    rest unrun. *)
Definition tryCatchFinally {A} (body : R A) (handler : string -> R A) (finalizer : R unit) : R A :=
  fun ss =>
    match body ss with
    | (Rejected e, evs, ss1) =>
        match handler e ss1 with
        | (r, evs', ss2) => finally r (evs ++ evs') ss2 finalizer
        end
    | (r, evs, ss1) => finally r evs ss1 finalizer
    end.

(** A [confirm] prompt of inquirer; the user answers yes or no (the
    default of the prompt is what the bare Enter key answers). *)
Definition inquirerConfirm (message : string) : R bool :=
  emitR (Core (InquirerPrompt "confirm" message)) ;;
  fun ss =>
    match confirms ss with
    | answer :: rest =>
        (Ok answer, [ConfirmRead answer], {| launcher := launcher ss; confirms := rest |})
    | [] => (Blocked, [], ss)
    end.

(** Lines 319-337 *)
Definition confirmLaunch : R bool :=
  ui <- getsR useInquirer ;;
  if ui then inquirerConfirm "🚀 Proceed with launching the selected AVDs?"
  else
    answer <- liftR (question "🚀 Proceed with launching the selected AVDs? (y/n): ") ;;
    retR (startsWith (toLowerCase answer) "y").

Definition set_avds (l : list string) (s : state) : state :=
  {| useInquirer := useInquirer s; platform := platform s;
     rawModeError := rawModeError s; avds := l;
     selectedAVDs := selectedAVDs s; execs := execs s; lines := lines s;
     modes := modes s; checks := checks s; keys := keys s; picks := picks s |}.

(** The [try] block of [run], lines 341-401; [again] is [this.run()]. *)
Definition runBody (again : R unit) : R unit :=
  ui <- getsR useInquirer ;;
  (if negb ui then emitR (Core ConsoleClear) else retR tt) ;;
  logR "🤖 Android AVD Multi-Launcher" ;;
  logR ("==============================" +:+ nl) ;;
  avds <- liftR getAVDList ;;
  liftR (fun s => (Ok tt, [], set_avds avds s)) ;;
  liftR selectAVDs ;;
  launchMode <- liftR selectLaunchOptions ;;
  confirmed <- confirmLaunch ;;
  if confirmed then
    logR EmptyString ;;
    liftR (launchAVDs launchMode) ;;
    logR (nl +:+ "🎉 All selected AVDs have been launched!") ;;
    logR "💡 Each AVD is running in a separate terminal window." ;;
    logR "📝 Note: It may take a few moments for the emulators to fully boot up." ;;
    ui <- getsR useInquirer ;;
    if ui then
      more <- inquirerConfirm "Would you like to launch more AVDs?" ;;
      if more then
        logR (nl +:+ repeatString "=" 50 +:+ nl) ;;
        again
      else retR tt
    else retR tt
  else logR "❌ Launch cancelled by user.".

(** Lines 339-411 with [this.run()] left open. *)
Definition runOnce (again : R unit) : R unit :=
  tryCatchFinally
    (runBody again)
    (fun message => errorWithR "❌ An error occurred:" message ;; processExitR 1)
    (ui <- getsR useInquirer ;; if negb ui then emitR RlClose else retR tt).

(** [run()], nested at most [depth] times. Every nesting has read two
    answers to [confirm] prompts, so a depth beyond the number of answers
    in store is never reached (lemma [run_depth]). *)
Fixpoint run (depth : nat) : R unit :=
  match depth with
  | O => blockR
  | S depth' => runOnce (run depth')
  end.

(** [new AVDLauncher()], lines 33-40 *)
Definition construct : R unit :=
  liftR (fun s => (Ok tt, [], set_selectedAVDs [] (set_avds [] s))).

(** Lines 426-438; [list] is [argv.list]. *)
Definition main (list : bool) : R unit :=
  construct ;;
  if list then liftR listingMode
  else
    catchR
      (fun ss => run (S (length (confirms ss))) ss)
      (fun message => errorWithR "💥 Fatal error:" message ;; processExitR 1).

(** The events of the launcher's methods in a trace of [run]. *)
Definition coreEvents (evs : list runEvent) : list event :=
  omap (fun e => match e with Core e' => Some e' | _ => None end) evs.

(** The inventory that a discovery reads from the reports still to come:
    the parsed output of the first of them when it is a success, nothing
    when it is a failure or never comes. *)
Definition reported (pending : list (option exec_result)) : list string :=
  match pending with
  | Some r :: _ =>
      match callbackArgs r with
      | (None, stdout) => parseAVDs stdout
      | (Some _, _) => []
      end
  | _ => []
  end.

End Pipeline.

(** ** Vocabulary of the further properties *)

Module Derived.
Import JsString Node AVDLauncher Observations Pipeline.

(** The outcome of a run after the events [evs]. *)
Definition prependR {A} (evs : list runEvent) (x : result A * list runEvent * session) :
    result A * list runEvent * session :=
  (x.1.1, evs ++ x.1.2, x.2).

(** An outcome that is not a process exit, or is one with status 0 or 1. *)
Definition exitsWith01 {A} (r : result A) : Prop :=
  match r with
  | Exited code => code = 0 \/ code = 1
  | _ => True
  end.

(** An outcome that is not a process exit, or is one with status 0. *)
Definition exitsWith0 {A} (r : result A) : Prop :=
  match r with
  | Exited code => code = 0
  | _ => True
  end.

(** An outcome that is not a rejection. *)
Definition notRejected {A} (r : result A) : Prop :=
  match r with
  | Rejected _ => False
  | _ => True
  end.

(** An outcome that is a result or a wait without end: nothing is thrown
    and the process is not ended. *)
Definition calm {A} (r : result A) : Prop :=
  match r with
  | Ok _ | Blocked => True
  | _ => False
  end.

(** A method that neither throws nor ends the process. *)
Definition gentle {A} (m : M A) : Prop := forall s, calm (m s).1.1.

(** What the discovery command prints for an inventory: one name per
    line, each followed by a line feed. *)
Definition unlines (names : list string) : string :=
  foldr (fun name rest => name +:+ nl +:+ rest) EmptyString names.

(** A text in which no white-space character starts. *)
Fixpoint noWhite (s : string) : bool :=
  match s with
  | EmptyString => true
  | String c s' =>
      match whiteStart s with
      | Some _ => false
      | None => noWhite s'
      end
  end.

(** The menus the key listener moves to, lines 114-127. *)
Definition moveUp (avds : list string) (st : menu) : menu :=
  {| currentIndex := if 0 <? currentIndex st then currentIndex st - 1
                     else Z.of_nat (length avds) - 1;
     selected := selected st; timers := timers st |}.

Definition moveDown (avds : list string) (st : menu) : menu :=
  {| currentIndex := if currentIndex st <? Z.of_nat (length avds) - 1
                     then currentIndex st + 1 else 0;
     selected := selected st; timers := timers st |}.

Definition toggle (st : menu) : menu :=
  {| currentIndex := currentIndex st;
     selected := <[currentIndex st := negb (truthy (selected st) (currentIndex st))]> (selected st);
     timers := timers st |}.

Definition disarmTimer (st : menu) : menu :=
  {| currentIndex := currentIndex st; selected := selected st; timers := pred (timers st) |}.

(** The cursor points at a device of the inventory. *)
Definition cursorInRange (avds : list string) (st : menu) : Prop :=
  0 <= currentIndex st < Z.of_nat (length avds).

(** The [selected] array has no entry outside the indices of the
    inventory. *)
Definition boxesInRange (avds : list string) (st : menu) : Prop :=
  forall i b, selected st !! i = Some b -> 0 <= i < Z.of_nat (length avds).

(** The spawn number [k] (from 0) is the first that never reports. *)
Definition hangsAt (k : nat) (pending : list (option exec_result)) : Prop :=
  allSettle k pending = true /\ default None (pending !! k) = None.

(** The discovery command. *)
Definition listCommand : string := "emulator -list-avds".

(** The commands handed to [exec] in a trace of [run]. *)
Definition spawnedR (evs : list runEvent) : list string := spawned (coreEvents evs).

(** What every method leaves of the process it runs in: the interface
    in use, the platform, and whether standard input is a terminal. *)
Definition sameHost (s s' : state) : Prop :=
  useInquirer s' = useInquirer s /\ platform s' = platform s
  /\ rawModeError s' = rawModeError s.

(** As [sameHost], with the selection kept. *)
Definition sameJob (s s' : state) : Prop :=
  sameHost s s' /\ selectedAVDs s' = selectedAVDs s.

(** A relation between the state before and after a method that holds
    across reading input of any kind and across the reports of [exec]. *)
Class Frame (rel : state -> state -> Prop) : Prop := {
  frame_refl s : rel s s;
  frame_trans s1 s2 s3 : rel s1 s2 -> rel s2 s3 -> rel s1 s3;
  frame_lines l s : rel s (set_lines l s);
  frame_modes l s : rel s (set_modes l s);
  frame_checks l s : rel s (set_checks l s);
  frame_keys l s : rel s (set_keys l s);
  frame_picks l s : rel s (set_picks l s);
  frame_execs l s : rel s (set_execs l s)
}.

(** A method that keeps [rel], takes from [execs] one report for each
    command it spawns and no other, ends the process with status 0 if at
    all and, when [quiet], spawns nothing. *)
Definition acts (rel : state -> state -> Prop) (quiet : bool) {A} (m : M A) : Prop :=
  forall s,
    rel s (m s).2
    /\ execs (m s).2 = drop (length (spawned (m s).1.2)) (execs s)
    /\ (quiet = true -> spawned (m s).1.2 = [])
    /\ exitsWith0 (m s).1.1.

(** The commands of one round of [run] on the platform [platform] with
    the reports [pending] to come: the discovery, then the launches of
    devices picked from what it reports, in the order of the report, up
    to some point. *)
Definition round (platform : string) (pending : list (option exec_result))
    (launched : list string) : Prop :=
  exists sel,
    sel `sublist_of` reported pending
    /\ launched `prefix_of` (getEmulatorCommand platform <$> sel).

(** The commands of a run, round after round: each round reads its
    inventory from the report that is first when it starts, and takes one
    report for the discovery and one for each launch. *)
Inductive rounds (platform : string) : list (option exec_result) -> list string -> Prop :=
| rounds_none pending : rounds platform pending []
| rounds_more pending launched later :
    round platform pending launched ->
    rounds platform (drop (S (length launched)) pending) later ->
    rounds platform pending (listCommand :: launched ++ later).

(** The commands of the first round of the session [ss]; with inquirer
    nothing is launched unless the first answer to a [confirm] prompt is
    yes. *)
Definition firstRound (ss : session) (commands : list string) : Prop :=
  exists launched,
    commands = listCommand :: launched
    /\ round (platform (launcher ss)) (execs (launcher ss)) launched
    /\ (useInquirer (launcher ss) = true -> head (confirms ss) <> Some true -> launched = []).

(** How the [try] block of [run] ends, from a point where the reports
    [pending] are to come: by itself, having spawned what [expected]
    admits and without closing readline; or, when [nested] holds, in the
    nested [run()], started in [ss'] after the events [pre]. *)
Definition roundShape (again : R unit) (s0 : state) (pending : list (option exec_result))
    (expected : list string -> Prop) (nested : Prop)
    (out : result unit * list runEvent * session) : Prop :=
  (expected (spawnedR out.1.2)
   /\ (RlClose ∉ out.1.2)
   /\ exitsWith0 out.1.1
   /\ sameHost s0 (launcher out.2))
  \/ (nested
      /\ exists pre ss',
           out = prependR pre (again ss')
           /\ expected (spawnedR pre)
           /\ (RlClose ∉ pre)
           /\ sameHost s0 (launcher ss')
           /\ execs (launcher ss') = drop (length (spawnedR pre)) pending).

(** Why the discovery fails on the report [r], if it does: the error of
    the command, or an inventory without a device. *)
Definition discoveryFailure (r : exec_result) : option string :=
  match callbackArgs r with
  | (Some message, _) => Some message
  | (None, stdout) =>
      if (length (parseAVDs stdout) =? 0)%nat then Some "No AVDs found" else None
  end.

(** The line the [catch] block of [run] prints. *)
Definition errorLine (message : string) : runEvent :=
  Core (ConsoleError ("❌ An error occurred: " +:+ message)).

End Derived.

(** ** Sample sessions *)

Module Sessions.
Import JsString Node AVDLauncher Observations Pipeline.

(** The built-in interface on Linux. The discovery reports two devices
    with a blank line between them; the user checks both, asks for the
    delayed launch and confirms; the first spawn succeeds and the second
    cannot be run. *)
Definition builtIn : session :=
  {| launcher :=
       {| useInquirer := false; platform := "linux"; rawModeError := None;
          avds := []; selectedAVDs := [];
          execs := [Some (Callback None ("Pixel_5" +:+ nl +:+ nl +:+ "Pixel_7" +:+ nl));
                    Some (Callback None EmptyString);
                    Some (ChildError "spawn /bin/sh ENOENT")];
          lines := ["2"; "yes"]; modes := []; checks := [];
          keys := [Samples.key "space"; Samples.key "down"; Samples.key "space";
                   Samples.key "return"];
          picks := [] |};
     confirms := [] |}.

(** Inquirer on macOS, two rounds. In the first the user ticks the second
    of two devices, confirms, and asks for more; in the second the
    discovery command fails. *)
Definition twoRounds : session :=
  {| launcher :=
       {| useInquirer := true; platform := "darwin"; rawModeError := None;
          avds := []; selectedAVDs := [];
          execs := [Some (Callback None ("Pixel_5" +:+ nl +:+ "Pixel_7" +:+ nl));
                    Some (Callback None EmptyString);
                    Some (Callback (Some "Command failed: emulator -list-avds") EmptyString)];
          lines := []; modes := []; checks := [[false; true]]; keys := []; picks := [] |};
     confirms := [true; true] |}.

(** As [twoRounds], but the user answers no to the confirmation. *)
Definition declining : session :=
  {| launcher := launcher twoRounds; confirms := [false] |}.

(** The discovery command cannot be run. *)
Definition failing : session :=
  {| launcher :=
       {| useInquirer := false; platform := "linux"; rawModeError := None;
          avds := []; selectedAVDs := [];
          execs := [Some (Callback (Some "Command failed: emulator -list-avds") EmptyString)];
          lines := []; modes := []; checks := []; keys := []; picks := [] |};
     confirms := [] |}.

(** The built-in interface with standard input from a pipe: there is no
    [setRawMode] to call. The discovery reports one device. *)
Definition piped : session :=
  {| launcher :=
       {| useInquirer := false; platform := "linux";
          rawModeError := Some "process.stdin.setRawMode is not a function";
          avds := []; selectedAVDs := [];
          execs := [Some (Callback None ("Pixel_5" +:+ nl))];
          lines := ["y"]; modes := []; checks := []; keys := []; picks := [] |};
     confirms := [] |}.

End Sessions.

Import JsString Node AVDLauncher Observations.

(* ===================================================================== *)
(** * Part II: properties *)
(* ===================================================================== *)

(** ** The inventory parser *)

Section Trimming.

Lemma string_app_assoc s1 s2 s3 : (s1 +:+ s2) +:+ s3 = s1 +:+ (s2 +:+ s3).
Proof.
  induction s1 as [|c s1 IH]; [done|].
  change ((String c s1 +:+ s2) +:+ s3) with (String c ((s1 +:+ s2) +:+ s3)).
  by rewrite IH.
Qed.

Lemma string_app_nil_r s : s +:+ EmptyString = s.
Proof.
  induction s as [|c s IH]; [done|].
  change (String c s +:+ EmptyString) with (String c (s +:+ EmptyString)). by rewrite IH.
Qed.

Lemma string_length_app s1 s2 :
  String.length (s1 +:+ s2) = (String.length s1 + String.length s2)%nat.
Proof.
  induction s1 as [|c s1 IH]; [done|].
  change (String c s1 +:+ s2) with (String c (s1 +:+ s2)). simpl. by rewrite IH.
Qed.

Lemma stripPrefix_Some t : forall s rest, stripPrefix t s = Some rest <-> s = t +:+ rest.
Proof.
  induction t as [|a t IH]; intros s rest; simpl.
  - change (EmptyString +:+ rest) with rest. split; [by intros [= ->]|by intros ->].
  - change (String a t +:+ rest) with (String a (t +:+ rest)).
    destruct s as [|b s]; [done|]. case_decide as Hab.
    + subst b. rewrite IH. split; [by intros ->|by intros [= ->]].
    + split; [done|]. intros [= -> _]. done.
Qed.

Lemma whiteStart_Some s rest :
  whiteStart s = Some rest -> exists t, t ∈ whiteSpace /\ s = t +:+ rest.
Proof.
  unfold whiteStart. generalize whiteSpace. intros tokens.
  induction tokens as [|t tokens IH]; simpl; [done|].
  destruct (stripPrefix t s) as [r|] eqn:Ht.
  - intros [= ->]. exists t. split; [by left|]. by apply stripPrefix_Some.
  - intros (t' & Hin & ->)%IH. exists t'. split; [by right|done].
Qed.

(** The white-space characters are read without ambiguity: none starts
    another, each starts with a byte that starts a character, and goes on
    with bytes that do not. *)
Lemma whiteSpace_code :
  Forall (fun t => (forall s, whiteStart (t +:+ s) = Some s)
                   /\ (exists a t', t = String a t' /\ isContinuation a = false
                                    /\ allContinuation t' = true)
                   /\ (t = nl \/ contains LF t = false))
    whiteSpace.
Proof.
  unfold whiteSpace.
  repeat (constructor; [split_and!; [intros s; reflexivity|by eexists _, _|
                                      first [by left|by right]]|]).
  constructor.
Qed.

Lemma whiteStart_token t s : t ∈ whiteSpace -> whiteStart (t +:+ s) = Some s.
Proof.
  intros Hin. pose proof whiteSpace_code as Hcode. rewrite Forall_forall in Hcode.
  by destruct (Hcode t Hin) as [? _].
Qed.


Lemma whiteSpace_starts t :
  t ∈ whiteSpace ->
  exists a t', t = String a t' /\ isContinuation a = false /\ allContinuation t' = true.
Proof.
  intros Hin. pose proof whiteSpace_code as Hcode. rewrite Forall_forall in Hcode.
  by destruct (Hcode t Hin) as (_ & ? & _).
Qed.


Lemma whiteStart_app s rest y : whiteStart s = Some rest -> whiteStart (s +:+ y) = Some (rest +:+ y).
Proof.
  intros (t & Hin & ->)%whiteStart_Some. rewrite string_app_assoc. by apply whiteStart_token.
Qed.

Lemma whiteStart_shorter s rest :
  whiteStart s = Some rest -> (String.length rest < String.length s)%nat.
Proof.
  intros (t & Hin & ->)%whiteStart_Some.
  destruct (whiteSpace_starts t Hin) as (a & t' & -> & _).
  rewrite string_length_app. simpl. lia.
Qed.

Lemma trimStartFrom_enough fuel : forall fuel' s,
  (String.length s <= fuel)%nat -> (String.length s <= fuel')%nat ->
  trimStartFrom fuel s = trimStartFrom fuel' s.
Proof.
  induction fuel as [|fuel IH]; intros fuel' s Hlen Hlen'.
  - destruct s; [|simpl in Hlen; lia]. by destruct fuel'.
  - destruct fuel' as [|fuel'].
    + destruct s; [reflexivity|simpl in Hlen'; lia].
    + cbn [trimStartFrom]. destruct (whiteStart s) as [rest|] eqn:Hwhite; [|done].
      apply whiteStart_shorter in Hwhite. apply IH; lia.
Qed.

(** [trimStart] removes one white-space character after the other. *)
Lemma trimStart_unfold s :
  trimStart s = match whiteStart s with Some rest => trimStart rest | None => s end.
Proof.
  destruct s as [|c s]; [reflexivity|].
  unfold trimStart at 1. cbn [String.length trimStartFrom].
  destruct (whiteStart (String c s)) as [rest|] eqn:Hwhite; [|done].
  apply whiteStart_shorter in Hwhite. simpl in Hwhite. apply trimStartFrom_enough; lia.
Qed.

Lemma trimStart_token t s : t ∈ whiteSpace -> trimStart (t +:+ s) = trimStart s.
Proof. intros Hin. by rewrite trimStart_unfold, whiteStart_token. Qed.

(** Induction on a text along the white-space characters at its head. *)
Lemma trimStart_ind (P : string -> Prop) :
  (forall s, whiteStart s = None -> P s) ->
  (forall t s, t ∈ whiteSpace -> P s -> P (t +:+ s)) ->
  forall s, P s.
Proof.
  intros Hstop Hstep s.
  remember (String.length s) as n eqn:Hn. revert s Hn.
  induction (lt_wf n) as [n _ IH]. intros s ->.
  destruct (whiteStart s) as [rest|] eqn:Hwhite; [|by apply Hstop].
  pose proof (whiteStart_shorter _ _ Hwhite) as Hlen.
  apply whiteStart_Some in Hwhite as (t & Hin & ->).
  apply Hstep; [done|]. by apply (IH _ Hlen).
Qed.

(** Two texts that start the same way: one starts the other, or they
    part inside both. *)
Lemma string_app_eq_cases z : forall y t r,
  z +:+ y = t +:+ r ->
  (exists z', z = t +:+ z') \/ (exists u, u <> EmptyString /\ t = z +:+ u /\ y = u +:+ r).
Proof.
  induction z as [|c z IH]; intros y t r.
  - change (EmptyString +:+ y) with y. intros ->. destruct t as [|a t].
    + left. by exists EmptyString.
    + right. by exists (String a t).
  - change (String c z +:+ y) with (String c (z +:+ y)). destruct t as [|a t].
    + intros _. left. by exists (String c z).
    + change (String a t +:+ r) with (String a (t +:+ r)). intros [= -> Heq].
      destruct (IH _ _ _ Heq) as [[z' ->]|(u & Hu & -> & ->)].
      * left. by exists z'.
      * right. by exists u.
Qed.

Lemma allContinuation_app s : forall u,
  allContinuation (s +:+ u) = true -> u <> EmptyString -> ~ startsClean u.
Proof.
  induction s as [|c s IH]; intros u.
  - change (EmptyString +:+ u) with u. destruct u as [|b u]; [done|]. simpl.
    intros [Hb _]%andb_true_iff _ Hclean. congruence.
  - change (String c s +:+ u) with (String c (s +:+ u)). simpl.
    intros [_ Hs]%andb_true_iff. by apply IH.
Qed.

(** A white-space character cannot start in one text and end in the
    next, when the next does not start in the middle of a character. *)
Lemma whiteStart_None_app z y :
  whiteStart z = None -> z <> EmptyString -> startsClean y -> whiteStart (z +:+ y) = None.
Proof.
  intros Hz Hne Hy. destruct (whiteStart (z +:+ y)) as [r|] eqn:Hzy; [|done]. exfalso.
  apply whiteStart_Some in Hzy as (t & Hin & Heq).
  destruct (string_app_eq_cases _ _ _ _ Heq) as [[z' ->]|(u & Hu & -> & ->)].
  - by rewrite whiteStart_token in Hz.
  - destruct (whiteSpace_starts _ Hin) as (a & t' & Ht & _ & Hcont).
    destruct z as [|c z]; [done|].
    change (String c z +:+ u) with (String c (z +:+ u)) in Ht. injection Ht as -> <-.
    apply (allContinuation_app _ _ Hcont Hu).
    destruct u as [|b u]; [done|]. exact Hy.
Qed.

Lemma isBlank_true s : isBlank s = true <-> trimStart s = EmptyString.
Proof. unfold isBlank. apply bool_decide_eq_true. Qed.

Lemma isBlank_clean w : isBlank w = true -> startsClean w.
Proof.
  rewrite isBlank_true, trimStart_unfold.
  destruct (whiteStart w) as [rest|] eqn:Hwhite; [|by intros ->].
  intros _. apply whiteStart_Some in Hwhite as (t & Hin & ->).
  destruct (whiteSpace_starts _ Hin) as (a & t' & -> & Ha & _). exact Ha.
Qed.

Lemma trimStart_blank_app p : forall w,
  trimStart p = EmptyString -> trimStart (p +:+ w) = trimStart w.
Proof.
  induction p as [p Hp|t p Hin IH] using trimStart_ind; intros w.
  - rewrite trimStart_unfold, Hp. by intros ->.
  - rewrite trimStart_token, string_app_assoc, trimStart_token by done. apply IH.
Qed.

Lemma trimStart_app p : forall w,
  trimStart p <> EmptyString -> startsClean w -> trimStart (p +:+ w) = trimStart p +:+ w.
Proof.
  induction p as [p Hp|t p Hin IH] using trimStart_ind; intros w Hne Hw.
  - assert (trimStart p = p) as Hstop by (by rewrite trimStart_unfold, Hp).
    rewrite Hstop in Hne |- *. by rewrite trimStart_unfold, whiteStart_None_app.
  - rewrite trimStart_token in Hne by done.
    rewrite (trimStart_token t p), string_app_assoc, trimStart_token by done. by apply IH.
Qed.

Lemma isBlank_app y w :
  y <> EmptyString -> isBlank w = true -> isBlank (y +:+ w) = isBlank y.
Proof.
  intros Hy Hw. destruct (isBlank y) eqn:Hblank.
  - apply isBlank_true. apply isBlank_true in Hblank, Hw.
    by rewrite trimStart_blank_app.
  - apply bool_decide_eq_false. apply bool_decide_eq_false in Hblank.
    rewrite trimStart_app by (done || by apply isBlank_clean).
    by destruct (trimStart y).
Qed.

Lemma trimEnd_blank w : isBlank w = true -> trimEnd w = EmptyString.
Proof. destruct w as [|c w]; [done|]. simpl. by intros ->. Qed.

Lemma trimEnd_app_blank y w : isBlank w = true -> trimEnd (y +:+ w) = trimEnd y.
Proof.
  intros Hw. induction y as [|c y IH].
  - change (EmptyString +:+ w) with w. by apply trimEnd_blank.
  - change (String c y +:+ w) with (String c (y +:+ w)). cbn [trimEnd].
    change (String c (y +:+ w)) with (String c y +:+ w).
    rewrite isBlank_app, IH by done. done.
Qed.




Lemma split_nonempty sep s : exists piece pieces, split sep s = piece :: pieces.
Proof.
  induction s as [|c s (p & ps & IH)]; simpl; [by eauto|].
  case_decide; [by eauto|]. rewrite IH. by eauto.
Qed.

Lemma split_app_clean t s :
  contains LF t = false ->
  split LF (t +:+ s)
  = match split LF s with
    | piece :: pieces => (t +:+ piece) :: pieces
    | [] => []
    end.
Proof.
  induction t as [|c t IH]; simpl.
  - intros _. change (EmptyString +:+ s) with s.
    destruct (split_nonempty LF s) as (p & ps & ->). done.
  - intros [Hc Ht]%orb_false_iff. apply bool_decide_eq_false in Hc.
    change (String c t +:+ s) with (String c (t +:+ s)). simpl.
    rewrite decide_False, (IH Ht) by done.
    destruct (split_nonempty LF s) as (p & ps & ->). done.
Qed.


End Trimming.

Section Parsing.

Local Abbreviation kept ls :=
  (filter (fun line => nonEmpty line = true) (trim <$> (ls : list string))).










End Parsing.



(** ** Running computations *)

Section Running.

Lemma bind_ok {A B} (m : M A) (f : A -> M B) s a evs s1 :
  m s = (Ok a, evs, s1) -> bind m f s = prepend evs (f a s1).
Proof. unfold bind, prepend. intros ->. by destruct (f a s1) as [[? ?] ?]. Qed.

Lemma bind_gets {A B} (g : state -> A) (f : A -> M B) s : bind (gets g) f s = f (g s) s.
Proof. rewrite (bind_ok _ _ _ (g s) [] s) by done. by destruct (f (g s) s) as [[? ?] ?]. Qed.

Lemma bind_ret {A B} (a : A) (f : A -> M B) s : bind (ret a) f s = f a s.
Proof. rewrite (bind_ok _ _ _ a [] s) by done. by destruct (f a s) as [[? ?] ?]. Qed.

Lemma bind_emit {B} e (f : unit -> M B) s : bind (emit e) f s = prepend [e] (f tt s).
Proof. by apply bind_ok. Qed.

Lemma bind_consoleLog {B} text (f : unit -> M B) s :
  bind (consoleLog text) f s = prepend [ConsoleLog text] (f tt s).
Proof. by apply bind_ok. Qed.

Lemma prepend_pair {A} evs (r : result A) evs' s :
  prepend evs (r, evs', s) = (r, evs ++ evs', s).
Proof. done. Qed.

Lemma prepend_prepend {A} evs evs' (x : result A * list event * state) :
  prepend evs (prepend evs' x) = prepend (evs ++ evs') x.
Proof. unfold prepend. simpl. by rewrite app_assoc. Qed.

(** A loop that only prints leaves the state alone. *)
Lemma forEachFrom_log {A} (body : A -> nat -> M unit) (line : A -> nat -> string)
    (l : list A) (i : nat) s :
  (forall x index s', body x index s' = (Ok tt, [ConsoleLog (line x index)], s')) ->
  forEachFrom i body l s
  = (Ok tt, imap (fun k x => ConsoleLog (line x (i + k)%nat)) l, s).
Proof.
  intros Hbody. revert i. induction l as [|x l IH]; intros i; simpl; [done|].
  unfold bind. rewrite Hbody, IH. simpl.
  rewrite Nat.add_0_r. do 3 f_equal. apply imap_ext. intros k y _. simpl.
  do 2 f_equal. lia.
Qed.

End Running.

(** ** Fetching the inventory and the listing mode *)

Section Inventory.

Lemma getAVDList_run s r rest :
  execs s = Some r :: rest ->
  getAVDList s =
    match callbackArgs r with
    | (Some message, _) =>
        (Rejected message,
         [fetchLine; Exec "emulator -list-avds";
          ConsoleError "❌ Error fetching AVDs. Make sure Android SDK is installed and emulator is in PATH.";
          ConsoleError ("Error: " +:+ message)],
         set_execs rest s)
    | (None, stdout) =>
        if (length (parseAVDs stdout) =? 0)%nat
        then (Rejected "No AVDs found",
              [fetchLine; Exec "emulator -list-avds"; noAVDsLine], set_execs rest s)
        else (Ok (parseAVDs stdout), [fetchLine; Exec "emulator -list-avds"], set_execs rest s)
    end.
Proof.
  intros Hexecs. unfold getAVDList, bind, consoleLog, consoleError, emit, exec, await.
  rewrite Hexecs. simpl. destruct (callbackArgs r) as [[message|] stdout]; simpl; [done|].
  by destruct (length (parseAVDs stdout) =? 0)%nat.
Qed.

Lemma printAVDs_run s r rest :
  execs s = Some r :: rest ->
  printAVDs s =
    match getAVDList s with
    | (Ok avds, evs, s1) =>
        (Ok tt,
         evs ++ ConsoleLog ("📱 Available Android Virtual Devices:" +:+ nl)
             :: imap numberedLine avds ++ [totalLine avds], s1)
    | (Rejected _, evs, s1) => (Exited 1, evs ++ [], s1)
    | _ => (Blocked, [], s)
    end.
Proof.
  intros Hexecs. unfold printAVDs, catch, bind at 1.
  rewrite (getAVDList_run _ _ _ Hexecs).
  destruct (callbackArgs r) as [[message|] stdout]; [done|].
  destruct (length (parseAVDs stdout) =? 0)%nat; [done|].
  unfold forEach, bind. cbn [consoleLog emit].
  rewrite (forEachFrom_log _ (fun avd index => pretty (index + 1)%nat +:+ ". " +:+ avd))
    by done.
  done.
Qed.

End Inventory.

(** C7: when the discovery command has reported, [getAVDList] rejects
    exactly when the command failed or its output holds no device. In the
    first case the underlying error message is printed and is the reason
    of the rejection; in the second the user is told to create a device
    first. In listing mode a rejection ends the process with status 1; a
    success prints the numbered inventory and its size and ends the process
    with status 0. *)
Theorem getAVDList_fails_exactly (s : state) (r : exec_result) (rest : list (option exec_result)) :
  execs s = Some r :: rest ->
  let error := (callbackArgs r).1 in
  let stdout := (callbackArgs r).2 in
  ((exists message, (getAVDList s).1.1 = Rejected message)
     <-> (error <> None \/ (error = None /\ parseAVDs stdout = [])))
  /\ (forall message, error = Some message ->
        (getAVDList s).1.1 = Rejected message
        /\ ConsoleError ("Error: " +:+ message) ∈ (getAVDList s).1.2)
  /\ (error = None -> parseAVDs stdout = [] ->
        (getAVDList s).1.1 = Rejected "No AVDs found"
        /\ noAVDsLine ∈ (getAVDList s).1.2)
  /\ (error = None -> parseAVDs stdout <> [] ->
        (getAVDList s).1.1 = Ok (parseAVDs stdout))
  /\ ((exists message, (getAVDList s).1.1 = Rejected message) ->
        (listingMode s).1.1 = Exited 1)
  /\ (forall avds, (getAVDList s).1.1 = Ok avds ->
        (listingMode s).1.1 = Exited 0
        /\ (listingMode s).1.2 =
             (getAVDList s).1.2
             ++ ConsoleLog ("📱 Available Android Virtual Devices:" +:+ nl)
             :: imap numberedLine avds ++ [totalLine avds]).
Proof.
  intros Hexecs error stdout. subst error stdout.
  unfold listingMode, bind. rewrite (printAVDs_run _ _ _ Hexecs).
  rewrite (getAVDList_run _ _ _ Hexecs).
  destruct (callbackArgs r) as [[message|] stdout]; simpl.
  - split_and!.
    + split; [intros _; by left | intros _; by eexists].
    + intros ? [= <-]. split; [done|set_solver].
    + done.
    + done.
    + done.
    + done.
  - destruct (parseAVDs stdout) as [|avd avds] eqn:Hparse; simpl.
    + split_and!.
      * split; [intros _; by right | intros _; by eexists].
      * done.
      * intros _ _. split; [done|]. unfold noAVDsLine. set_solver.
      * done.
      * done.
      * done.
    + split_and!.
      * split; [by intros [? ?] | intros [[]|[_ [=]]]; done].
      * done.
      * done.
      * done.
      * by intros [? ?].
      * intros ? [= <-]. by rewrite app_nil_r.
Qed.

(** ** Choosing the launch mode *)

(** C8: with exactly one device selected [selectLaunchOptions] answers
    [parallel] at once: nothing is printed, nothing is asked and no input
    is consumed. With the built-in interface and a selection of another
    size, an entry that is none of 1, 2 and 3 once trimmed is answered by a
    warning and [parallel]; the call resolves. *)
Theorem selectLaunchOptions_default (s : state) :
  (length (selectedAVDs s) = 1%nat -> selectLaunchOptions s = (Ok parallel, [], s))
  /\ (forall answer rest,
        useInquirer s = false ->
        (2 <= length (selectedAVDs s))%nat ->
        lines s = answer :: rest ->
        trim answer <> "1" -> trim answer <> "2" -> trim answer <> "3" ->
        exists evs,
          selectLaunchOptions s
          = (Ok parallel,
             evs ++ [ConsoleLog "Invalid choice. Using parallel launch."],
             set_lines rest s)
          /\ RlQuestion "Enter your choice (1-3): " ∈ evs
          /\ LineRead answer ∈ evs).
Proof.
  split.
  - intros Hone. unfold selectLaunchOptions, bind, gets. simpl. by rewrite Hone.
  - intros answer rest Hui Hlen Hlines H1 H2 H3.
    unfold selectLaunchOptions, question. unfold bind, gets, readLine, consoleLog, emit. simpl.
    destruct (length (selectedAVDs s)) as [|[|n]] eqn:Hn; [lia|lia|]. simpl.
    rewrite Hui, Hlines. simpl.
    repeat (case_decide; [done|]). simpl.
    eexists [_; _; _; _; _; _]. split; [reflexivity|]. set_solver.
Qed.

(** ** One launch *)

Section Launch.

Lemma set_execs_id s : set_execs (execs s) s = s.
Proof. by destruct s. Qed.

Lemma allSettle_inv n pending :
  allSettle n pending = true ->
  exists rs tail, pending = (Some <$> rs) ++ tail /\ length rs = n.
Proof.
  revert pending. induction n as [|n IH]; intros pending; simpl.
  - intros _. by exists [], pending.
  - destruct pending as [|[r|] pending]; try done.
    intros (rs & tail & -> & <-)%IH. by exists (r :: rs), tail.
Qed.

Lemma launchAVDSettle_run avd r s :
  launchAVDSettle avd r s = (Ok tt, settleEvents avd r, s).
Proof. by destruct r as [[message|] stdout|message]. Qed.

Lemma launchAVDStart_run avd s r rest :
  execs s = r :: rest ->
  launchAVDStart avd s = (Ok r, startEvents (platform s) avd, set_execs rest s).
Proof.
  intros Hexecs. unfold launchAVDStart, exec, bind, consoleLog, emit, gets. simpl.
  by rewrite Hexecs.
Qed.

Lemma launchAVD_run avd s r rest :
  execs s = Some r :: rest ->
  launchAVD avd s = (Ok tt, launchEvents (platform s) (avd, r), set_execs rest s).
Proof.
  intros Hexecs. unfold launchAVD, bind.
  rewrite (launchAVDStart_run _ _ _ _ Hexecs). simpl.
  by rewrite launchAVDSettle_run.
Qed.

(** A launch whose spawn never reports stays pending after the call. *)
Lemma launchAVD_pending avd s :
  head (execs s) = None \/ head (execs s) = Some None ->
  (launchAVD avd s).1 = (Blocked, startEvents (platform s) avd).
Proof.
  unfold launchAVD, launchAVDStart, exec, bind, consoleLog, emit, gets. simpl.
  destruct (execs s) as [|[r|] rest]; simpl; intros [?|?]; done.
Qed.

(** A line of [console.error] is no spawn, no settling, no step of a
    schedule and no change of the terminal mode. *)
Lemma errorEvent_cases format argument :
  errorEvent format argument = ConsoleErrorFormat format argument
  \/ errorEvent format argument = ConsoleError (format +:+ " " +:+ argument).
Proof. unfold errorEvent. destruct (contains _ _); auto. Qed.

Lemma spawned_launch platform job :
  spawned (launchEvents platform job) = [getEmulatorCommand platform job.1].
Proof.
  destruct job as [avd [[message|] stdout|message]];
    unfold launchEvents, settleEvents; cbn [fst snd]; try done;
    by destruct (errorEvent_cases (failureFormat avd) message) as [-> | ->].
Qed.

Lemma settled_launch platform job : settled (launchEvents platform job) = [job.1].
Proof.
  destruct job as [avd [[message|] stdout|message]];
    unfold launchEvents, settleEvents; cbn [fst snd]; try done;
    by destruct (errorEvent_cases (failureFormat avd) message) as [-> | ->].
Qed.

Lemma schedule_launch platform job :
  schedule (launchEvents platform job)
  = [Exec (getEmulatorCommand platform job.1); Settled job.1].
Proof.
  destruct job as [avd [[message|] stdout|message]];
    unfold launchEvents, settleEvents; cbn [fst snd]; try done;
    by destruct (errorEvent_cases (failureFormat avd) message) as [-> | ->].
Qed.

Lemma schedule_app evs evs' : schedule (evs ++ evs') = schedule evs ++ schedule evs'.
Proof. apply filter_app. Qed.

Lemma contains_app c s1 s2 : contains c (s1 +:+ s2) = contains c s1 || contains c s2.
Proof.
  induction s1 as [|a s1 IH]; [done|].
  change (String a s1 +:+ s2) with (String a (s1 +:+ s2)). simpl.
  by rewrite IH, orb_assoc.
Qed.

(** The report of a failed launch: its text when the name of the device
    holds no [%], the call otherwise. *)
Lemma errorEvent_failure avd message :
  errorEvent (failureFormat avd) message
  = if contains "%" avd
    then ConsoleErrorFormat ("❌ Failed to launch " +:+ avd +:+ ":") message
    else ConsoleError ("❌ Failed to launch " +:+ avd +:+ ": " +:+ message).
Proof.
  unfold errorEvent, failureFormat. rewrite !contains_app.
  change (contains "%" "❌ Failed to launch ") with false.
  change (contains "%" ":") with false. rewrite orb_false_r. cbn [orb].
  destruct (contains "%" avd); [done|]. by rewrite !string_app_assoc.
Qed.

(** A failed spawn is reported and settles the launch. *)
Lemma failure_reported avd r message :
  (callbackArgs r).1 = Some message ->
  errorEvent (failureFormat avd) message ∈ settleEvents avd r
  /\ Settled avd ∈ settleEvents avd r.
Proof.
  destruct r as [[m|] stdout|m]; simpl; intros [= <-]; set_solver.
Qed.

End Launch.

(** ** The delayed launch *)

Section Delayed.

Lemma delayedLoop_run todo : forall done rs tail s fuel,
  selectedAVDs s = done ++ todo ->
  execs s = (Some <$> rs) ++ tail ->
  length rs = length todo ->
  (length todo < fuel)%nat ->
  delayedLoop fuel (length done) s
  = (Ok tt, delayedEvents (platform s) (zip todo rs), set_execs tail s).
Proof.
  induction todo as [|avd todo IH]; intros done rs tail s fuel Hsel Hexecs Hlen Hfuel.
  - destruct rs; [|done]. destruct fuel as [|fuel]; [simpl in Hfuel; lia|].
    cbn [delayedLoop]. rewrite bind_gets, Hsel, app_nil_r, lookup_ge_None_2 by done.
    simpl in Hexecs. unfold ret. by rewrite <- Hexecs, set_execs_id.
  - destruct rs as [|r rs]; [done|]. destruct fuel as [|fuel]; [simpl in Hfuel; lia|].
    simpl in Hlen, Hfuel. rewrite fmap_cons in Hexecs.
    change (execs s = Some r :: ((Some <$> rs) ++ tail)) in Hexecs.
    cbn [delayedLoop]. rewrite bind_gets, Hsel, list_lookup_middle by done.
    rewrite (bind_ok _ _ _ _ _ _ (launchAVD_run _ _ _ _ Hexecs)).
    specialize (IH (done ++ [avd]) rs tail (set_execs ((Some <$> rs) ++ tail) s) fuel).
    rewrite length_app, Nat.add_1_r in IH.
    rewrite <- Hsel in *.
    assert (IH' : delayedLoop fuel (S (length done)) (set_execs ((Some <$> rs) ++ tail) s)
                  = (Ok tt, delayedEvents (platform s) (zip todo rs), set_execs tail s)).
    { apply IH; simpl; try done; try lia. by rewrite Hsel, <- app_assoc. }
    rewrite Hsel, length_app. cbn [length].
    destruct todo as [|avd' todo].
    + rewrite (proj2 (Z.ltb_ge _ _)) by (simpl; lia).
      rewrite bind_ret, IH'. unfold prepend. simpl. by rewrite app_nil_r.
    + rewrite (proj2 (Z.ltb_lt _ _)) by (simpl; lia).
      rewrite (bind_ok _ _ _ tt waitEvents (set_execs ((Some <$> rs) ++ tail) s)) by done.
      rewrite IH'. destruct rs as [|r' rs]; [done|].
      unfold prepend. simpl. by rewrite <- ?app_assoc.
Qed.

Lemma launchAVDsDelayed_run s rs tail :
  execs s = (Some <$> rs) ++ tail ->
  length rs = length (selectedAVDs s) ->
  launchAVDsDelayed s
  = (Ok tt,
     ConsoleLog ("⏱️  Starting AVDs with 3-second delays..." +:+ nl)
       :: delayedEvents (platform s) (zip (selectedAVDs s) rs),
     set_execs tail s).
Proof.
  intros Hexecs Hlen. unfold launchAVDsDelayed.
  rewrite bind_consoleLog, bind_gets.
  pose proof (delayedLoop_run (selectedAVDs s) [] rs tail s
                (S (length (selectedAVDs s))) eq_refl Hexecs Hlen) as Hloop.
  cbn [length] in Hloop. rewrite Hloop by lia. done.
Qed.

Lemma spawned_app evs evs' : spawned (evs ++ evs') = spawned evs ++ spawned evs'.
Proof. apply omap_app. Qed.

Lemma settled_app evs evs' : settled (evs ++ evs') = settled evs ++ settled evs'.
Proof. apply omap_app. Qed.

Lemma spawned_delayed platform todo : forall rs,
  length rs = length todo ->
  spawned (delayedEvents platform (zip todo rs)) = getEmulatorCommand platform <$> todo.
Proof.
  induction todo as [|avd todo IH]; intros [|r rs] Hlen; try done.
  cbn [zip zip_with delayedEvents].
  rewrite !spawned_app, spawned_launch, IH by (simpl in Hlen; lia).
  by destruct (zip_with pair todo rs).
Qed.

Lemma settled_delayed platform todo : forall rs,
  length rs = length todo ->
  settled (delayedEvents platform (zip todo rs)) = todo.
Proof.
  induction todo as [|avd todo IH]; intros [|r rs] Hlen; try done.
  cbn [zip zip_with delayedEvents].
  rewrite !settled_app, settled_launch, IH by (simpl in Hlen; lia).
  by destruct (zip_with pair todo rs).
Qed.

Lemma schedule_delayed platform todo : forall rs,
  length rs = length todo ->
  schedule (delayedEvents platform (zip todo rs)) = delayedSchedule platform todo.
Proof.
  induction todo as [|avd todo IH]; intros [|r rs] Hlen; try done.
  cbn [zip zip_with delayedEvents delayedSchedule].
  rewrite !schedule_app, schedule_launch, IH by (simpl in Hlen; lia).
  destruct todo as [|avd' todo]; [done|].
  destruct rs as [|r' rs]; [done|]. done.
Qed.

Lemma sleeps_delayedSchedule platform avd todo :
  sleeps (delayedSchedule platform (avd :: todo)) = replicate (length todo) 3000.
Proof.
  revert avd. induction todo as [|avd' todo IH]; intros avd; [done|].
  cbn [delayedSchedule] in *. simpl. f_equal. apply (IH avd').
Qed.

Lemma last_delayedSchedule platform todo :
  last (delayedSchedule platform todo) = Settled <$> last todo.
Proof.
  induction todo as [|avd todo IH]; [done|].
  destruct todo as [|avd' todo]; [done|].
  change (delayedSchedule platform (avd :: avd' :: todo))
    with (Exec (getEmulatorCommand platform avd) :: Settled avd :: Sleep 3000
            :: delayedSchedule platform (avd' :: todo)).
  assert (exists e evs, delayedSchedule platform (avd' :: todo) = e :: evs)
    as (e & evs & Hevs) by (simpl; eauto).
  rewrite Hevs in *. by rewrite !last_cons_cons, IH.
Qed.

Lemma sleeps_schedule evs : sleeps (schedule evs) = sleeps evs.
Proof.
  induction evs as [|e evs IH]; [done|]. unfold schedule in *.
  rewrite filter_cons. destruct e; simpl; try done; by rewrite <- IH.
Qed.

End Delayed.

(** C3: a delayed launch of two devices or more, all of whose spawns
    report, resolves; its spawns are issued in the order of the selection,
    each one after the previous launch has settled and a wait of 3000 ms
    has followed; there are exactly N-1 waits, all of 3000 ms, and the last
    event of the schedule is the settling of the last device, with no wait
    after it. *)
Theorem launchAVDsDelayed_schedule (s : state) :
  (2 <= length (selectedAVDs s))%nat ->
  allSettle (length (selectedAVDs s)) (execs s) = true ->
  exists evs s',
    launchAVDsDelayed s = (Ok tt, evs, s')
    /\ schedule evs = delayedSchedule (platform s) (selectedAVDs s)
    /\ spawned evs = getEmulatorCommand (platform s) <$> selectedAVDs s
    /\ settled evs = selectedAVDs s
    /\ sleeps evs = replicate (length (selectedAVDs s) - 1) 3000
    /\ last (schedule evs) = Settled <$> last (selectedAVDs s).
Proof.
  intros Hlen (rs & tail & Hexecs & Hrs)%allSettle_inv.
  eexists _, _. split; [by apply launchAVDsDelayed_run|].
  assert (Hsched : schedule (ConsoleLog ("⏱️  Starting AVDs with 3-second delays..." +:+ nl)
                     :: delayedEvents (platform s) (zip (selectedAVDs s) rs))
                   = delayedSchedule (platform s) (selectedAVDs s)).
  { unfold schedule. rewrite filter_cons. simpl. by apply schedule_delayed. }
  split_and!.
  - done.
  - by apply spawned_delayed.
  - by apply settled_delayed.
  - rewrite <- sleeps_schedule, Hsched.
    destruct (selectedAVDs s) as [|avd todo]; [simpl in Hlen; lia|].
    rewrite sleeps_delayedSchedule. simpl. by rewrite Nat.sub_0_r.
  - rewrite Hsched. apply last_delayedSchedule.
Qed.

(** ** The sequential launch *)

Section Sequential.

Lemma bind_pending {A B} (m : M A) (f : A -> M B) s evs s1 :
  m s = (Blocked, evs, s1) -> bind m f s = (Blocked, evs, s1).
Proof. unfold bind. by intros ->. Qed.

Lemma ask_run (ui : bool) avd s :
  (if ui then inquirerInput ("Press Enter to launch: " +:+ avd)
   else question ("Press Enter to launch: " +:+ avd +:+ " ")) s
  = match lines s with
    | ack :: rest => (Ok ack, [launchPrompt ui avd; LineRead ack], set_lines rest s)
    | nil => (Blocked, [launchPrompt ui avd], s)
    end.
Proof.
  unfold inquirerInput, question, launchPrompt, readLine, bind, emit.
  destruct ui; simpl; by destruct (lines s).
Qed.

Lemma sequentialLoop_run devices : forall rs tail s,
  execs s = (Some <$> rs) ++ tail ->
  length rs = length devices ->
  (sequentialLoop devices s).1
  = (if decide (length devices <= length (lines s))%nat then Ok tt else Blocked,
     sequentialEvents (useInquirer s) (platform s) (zip devices rs) (lines s)).
Proof.
  induction devices as [|avd devices IH]; intros rs tail s Hexecs Hlen.
  - destruct rs; [|done].
    cbn [sequentialLoop zip zip_with sequentialEvents length fst].
    by rewrite decide_True by lia.
  - destruct rs as [|r rs]; [done|]. simpl in Hlen.
    change (execs s = Some r :: ((Some <$> rs) ++ tail)) in Hexecs.
    cbn [sequentialLoop zip zip_with sequentialEvents length fst].
    rewrite bind_gets.
    pose proof (ask_run (useInquirer s) avd s) as Hask.
    destruct (lines s) as [|ack acks] eqn:Hlines.
    + rewrite (bind_pending _ _ _ _ _ Hask). cbn [fst length].
      by rewrite decide_False by lia.
    + rewrite (bind_ok _ _ _ _ _ _ Hask).
      rewrite (bind_ok _ _ _ _ _ _ (launchAVD_run avd (set_lines acks s) r _ Hexecs)).
      rewrite bind_consoleLog.
      specialize (IH rs tail (set_execs ((Some <$> rs) ++ tail) (set_lines acks s))).
      cbn [lines useInquirer platform set_execs set_lines execs] in IH.
      unfold prepend. cbn [fst snd]. rewrite IH by (done || lia).
      cbn [fst snd length platform set_lines]. f_equal.
      repeat case_decide; done || lia.
Qed.

Lemma schedule_sequential ui platform devices : forall rs acks,
  length rs = length devices ->
  schedule (sequentialEvents ui platform (zip devices rs) acks)
  = sequentialSchedule ui platform devices acks.
Proof.
  induction devices as [|avd devices IH]; intros [|r rs] acks Hlen; try done.
  cbn [zip zip_with sequentialEvents sequentialSchedule fst].
  assert (Hprompt : forall evs, schedule (launchPrompt ui avd :: evs)
                                = launchPrompt ui avd :: schedule evs).
  { intros evs. unfold schedule. rewrite filter_cons. by destruct ui. }
  rewrite Hprompt. destruct acks as [|ack acks]; [done|].
  change (LineRead ack :: ?x) with ([LineRead ack] ++ x).
  rewrite !schedule_app, schedule_launch.
  change (ConsoleLog EmptyString :: ?x) with ([ConsoleLog EmptyString] ++ x).
  rewrite schedule_app, IH by (simpl in Hlen; lia). done.
Qed.

Lemma spawned_sequential ui platform devices : forall rs acks,
  length rs = length devices ->
  spawned (sequentialEvents ui platform (zip devices rs) acks)
  = getEmulatorCommand platform <$> take (length acks) devices.
Proof.
  induction devices as [|avd devices IH]; intros [|r rs] acks Hlen; try done.
  - by rewrite take_nil.
  - cbn [zip zip_with sequentialEvents fst].
    assert (Hprompt : forall evs, spawned (launchPrompt ui avd :: evs) = spawned evs)
      by (by destruct ui).
    rewrite Hprompt. destruct acks as [|ack acks]; [done|].
    change (LineRead ack :: ?x) with ([LineRead ack] ++ x).
    rewrite !spawned_app, spawned_launch.
    change (ConsoleLog EmptyString :: ?x) with ([ConsoleLog EmptyString] ++ x).
    rewrite spawned_app, IH by (simpl in Hlen; lia). done.
Qed.

Lemma settled_sequential ui platform devices : forall rs acks,
  length rs = length devices ->
  settled (sequentialEvents ui platform (zip devices rs) acks)
  = take (length acks) devices.
Proof.
  induction devices as [|avd devices IH]; intros [|r rs] acks Hlen; try done.
  - by rewrite take_nil.
  - cbn [zip zip_with sequentialEvents fst].
    assert (Hprompt : forall evs, settled (launchPrompt ui avd :: evs) = settled evs)
      by (by destruct ui).
    rewrite Hprompt. destruct acks as [|ack acks]; [done|].
    change (LineRead ack :: ?x) with ([LineRead ack] ++ x).
    rewrite !settled_app, settled_launch.
    change (ConsoleLog EmptyString :: ?x) with ([ConsoleLog EmptyString] ++ x).
    rewrite settled_app, IH by (simpl in Hlen; lia). done.
Qed.

Lemma launchAVDsSequential_run s rs tail :
  execs s = (Some <$> rs) ++ tail ->
  length rs = length (selectedAVDs s) ->
  (launchAVDsSequential s).1
  = (if decide (length (selectedAVDs s) <= length (lines s))%nat then Ok tt else Blocked,
     ConsoleLog ("👆 Launching AVDs one by one (press Enter to launch each)..." +:+ nl)
       :: sequentialEvents (useInquirer s) (platform s) (zip (selectedAVDs s) rs) (lines s)).
Proof.
  intros Hexecs Hlen. unfold launchAVDsSequential.
  rewrite bind_consoleLog, bind_gets. unfold prepend. simpl.
  by rewrite (sequentialLoop_run _ _ _ _ Hexecs Hlen).
Qed.

End Sequential.

(** C4: in a sequential launch whose spawns all report, the schedule is,
    for each device in turn: the prompt, the acknowledgement read, the
    spawn, the settling. The spawn of a device thus comes after an
    acknowledgement that itself comes after the settling of the device
    before. When the acknowledgements run out the launch stays pending at
    the next prompt, and the devices from there on are never spawned; with
    enough acknowledgements it resolves. *)
Theorem launchAVDsSequential_schedule (s : state) :
  allSettle (length (selectedAVDs s)) (execs s) = true ->
  schedule (launchAVDsSequential s).1.2
    = sequentialSchedule (useInquirer s) (platform s) (selectedAVDs s) (lines s)
  /\ spawned (launchAVDsSequential s).1.2
     = getEmulatorCommand (platform s) <$> take (length (lines s)) (selectedAVDs s)
  /\ ((length (selectedAVDs s) <= length (lines s))%nat ->
      (launchAVDsSequential s).1.1 = Ok tt)
  /\ ((length (lines s) < length (selectedAVDs s))%nat ->
      (launchAVDsSequential s).1.1 = Blocked).
Proof.
  intros (rs & tail & Hexecs & Hrs)%allSettle_inv.
  rewrite (launchAVDsSequential_run _ _ _ Hexecs Hrs). simpl. split_and!.
  - unfold schedule. rewrite filter_cons. simpl. by apply schedule_sequential.
  - by apply spawned_sequential.
  - intros. by rewrite decide_True.
  - intros. by rewrite decide_False by lia.
Qed.

(** ** The parallel launch *)

Section Parallel.

Lemma mapM_start_run devices : forall rs tail s,
  execs s = (Some <$> rs) ++ tail ->
  length rs = length devices ->
  mapM (fun avd => bind (launchAVDStart avd) (fun pending => ret (avd, pending))) devices s
  = (Ok (zip devices (Some <$> rs)),
     concat (startEvents (platform s) <$> devices),
     set_execs tail s).
Proof.
  induction devices as [|avd devices IH]; intros rs tail s Hexecs Hlen.
  - destruct rs; [|done]. simpl in *. unfold ret. by rewrite <- Hexecs, set_execs_id.
  - destruct rs as [|r rs]; [done|]. simpl in Hlen.
    change (execs s = Some r :: ((Some <$> rs) ++ tail)) in Hexecs.
    cbn [mapM].
    rewrite (bind_ok _ _ _ (avd, Some r) (startEvents (platform s) avd)
               (set_execs ((Some <$> rs) ++ tail) s)).
    2: { by rewrite (bind_ok _ _ _ _ _ _ (launchAVDStart_run _ _ _ _ Hexecs)). }
    assert (IH' := IH rs tail (set_execs ((Some <$> rs) ++ tail) s) eq_refl ltac:(lia)).
    rewrite (bind_ok _ _ _ _ _ _ IH').
    unfold prepend, ret. simpl. by rewrite app_nil_r.
Qed.

Lemma willSettle_zip (devices : list string) : forall rs : list exec_result,
  willSettle (zip devices (Some <$> rs)) = zip devices rs.
Proof.
  induction devices as [|avd devices IH]; intros [|r rs]; try done.
  unfold willSettle in *. simpl. by rewrite IH.
Qed.

Lemma pick_run n s :
  (0 < n)%nat -> exists k s', pick n s = (Ok k, [], s') /\ (k < n)%nat.
Proof.
  intros Hn. unfold pick. destruct (picks s) as [|k rest].
  - by exists 0%nat, s.
  - exists (k mod n)%nat, (set_picks rest s). split; [done|].
    apply Nat.mod_upper_bound. lia.
Qed.

Lemma spawned_settle avd r : spawned (settleEvents avd r) = [].
Proof.
  destruct r as [[message|] stdout|message]; unfold settleEvents; try done;
    by destruct (errorEvent_cases (failureFormat avd) message) as [-> | ->].
Qed.

Lemma settled_settle avd r : settled (settleEvents avd r) = [avd].
Proof.
  destruct r as [[message|] stdout|message]; unfold settleEvents; try done;
    by destruct (errorEvent_cases (failureFormat avd) message) as [-> | ->].
Qed.

(** Whatever the order of delivery, the callbacks of all the calls in
    flight run, each once. *)
Lemma settleAll_run fuel : forall outstanding s,
  (length outstanding <= fuel)%nat ->
  exists evs s',
    settleAll fuel outstanding s = (Ok tt, evs, s')
    /\ spawned evs = []
    /\ settled evs ≡ₚ outstanding.*1
    /\ (forall job e, job ∈ outstanding -> e ∈ settleEvents job.1 job.2 -> e ∈ evs).
Proof.
  induction fuel as [|fuel IH]; intros outstanding s Hfuel.
  - destruct outstanding; [|simpl in Hfuel; lia].
    exists [], s. split_and!; try done. intros ? ? Hin. by apply elem_of_nil in Hin.
  - destruct outstanding as [|job0 outstanding0].
    { exists [], s. split_and!; try done. intros ? ? Hin. by apply elem_of_nil in Hin. }
    cbn [settleAll]. set (outstanding := job0 :: outstanding0) in *.
    destruct (pick_run (length outstanding) s) as (k & s1 & Hpick & Hk);
      [simpl; lia|].
    rewrite (bind_ok _ _ _ _ _ _ Hpick).
    destruct (lookup_lt_is_Some_2 outstanding k Hk) as [[avd r] Hjob].
    rewrite Hjob.
    rewrite (bind_ok _ _ _ _ _ _ (launchAVDSettle_run avd r s1)).
    destruct (IH (delete k outstanding) s1) as (evs & s' & Hrun & Hspawn & Hsettled & Hin).
    { rewrite length_delete by eauto. lia. }
    rewrite Hrun. exists (settleEvents avd r ++ evs), s'. split_and!.
    + done.
    + by rewrite spawned_app, spawned_settle, Hspawn.
    + rewrite settled_app, settled_settle, Hsettled.
      rewrite (delete_Permutation outstanding k (avd, r)) at 2 by done. done.
    + intros job e Hjobin He. apply elem_of_app.
      rewrite (delete_Permutation outstanding k (avd, r)) in Hjobin by done.
      apply elem_of_cons in Hjobin as [->|Hjobin]; [by left|].
      right. by apply (Hin job).
Qed.

Lemma launchAVDsParallel_run s rs tail :
  execs s = (Some <$> rs) ++ tail ->
  length rs = length (selectedAVDs s) ->
  exists evs s',
    launchAVDsParallel s = (Ok tt, evs, s')
    /\ spawned evs = getEmulatorCommand (platform s) <$> selectedAVDs s
    /\ settled evs ≡ₚ selectedAVDs s
    /\ (forall job e, job ∈ zip (selectedAVDs s) rs ->
                      e ∈ settleEvents job.1 job.2 -> e ∈ evs).
Proof.
  intros Hexecs Hlen. unfold launchAVDsParallel.
  rewrite bind_consoleLog, bind_gets.
  rewrite (bind_ok _ _ _ _ _ _ (mapM_start_run _ _ _ _ Hexecs Hlen)).
  unfold promiseAll. rewrite willSettle_zip.
  destruct (settleAll_run (length (zip (selectedAVDs s) rs)) (zip (selectedAVDs s) rs)
              (set_execs tail s)) as (evs & s' & Hrun & Hspawn & Hsettled & Hin); [done|].
  rewrite (bind_ok _ _ _ _ _ _ Hrun).
  assert (length (zip (selectedAVDs s) rs) = length (zip (selectedAVDs s) (Some <$> rs)))
    as -> by (by rewrite !length_zip, length_fmap).
  rewrite Nat.eqb_refl. unfold prepend, ret. cbn [fst snd].
  eexists _, _. split; [done|]. split_and!.
  - change (ConsoleLog ?x :: ?l) with ([ConsoleLog x] ++ l).
    rewrite !spawned_app, Hspawn, !app_nil_r. simpl.
    clear. induction (selectedAVDs s) as [|avd l IH]; [done|].
    rewrite fmap_cons, concat_cons, spawned_app, IH. done.
  - change (ConsoleLog ?x :: ?l) with ([ConsoleLog x] ++ l).
    rewrite !settled_app, Hsettled, !app_nil_r. simpl.
    rewrite fst_zip by lia.
    assert (settled (concat (startEvents (platform s) <$> selectedAVDs s)) = []) as ->; [|done].
    clear. induction (selectedAVDs s) as [|avd l IH]; [done|].
    rewrite fmap_cons, concat_cons, settled_app, IH. done.
  - intros job e Hjob He. apply elem_of_cons. right.
    rewrite !elem_of_app. right. left. by apply (Hin job).
Qed.

End Parallel.

(** ** No launch throws *)

Section NoThrow.

Lemma noThrow_ret {A} (a : A) : noThrow (ret a).
Proof. by intros s. Qed.

Lemma noThrow_block {A} : noThrow (@block A).
Proof. by intros s. Qed.

Lemma noThrow_emit e : noThrow (emit e).
Proof. by intros s. Qed.

Lemma noThrow_gets {A} (g : state -> A) : noThrow (gets g).
Proof. by intros s. Qed.

Lemma noThrow_bind {A B} (m : M A) (f : A -> M B) :
  noThrow m -> (forall a, noThrow (f a)) -> noThrow (bind m f).
Proof.
  intros Hm Hf s. specialize (Hm s). unfold bind.
  destruct (m s) as [[[a| | |] evs] s1]; simpl in *; try done.
  specialize (Hf a s1). by destruct (f a s1) as [[[]]].
Qed.

Lemma noThrow_exec command : noThrow (exec command).
Proof. intros s. unfold exec. by destruct (execs s). Qed.

Lemma noThrow_await {A} (pending : option A) : noThrow (await pending).
Proof. by destruct pending. Qed.

Lemma noThrow_readLine : noThrow readLine.
Proof. intros s. unfold readLine. by destruct (lines s). Qed.

Lemma noThrow_pick n : noThrow (pick n).
Proof. intros s. unfold pick. by destruct (picks s). Qed.

Lemma noThrow_launchAVDSettle avd r : noThrow (launchAVDSettle avd r).
Proof. intros s. by rewrite launchAVDSettle_run. Qed.

Lemma noThrow_launchAVDStart avd : noThrow (launchAVDStart avd).
Proof.
  unfold launchAVDStart, consoleLog.
  apply noThrow_bind; [apply noThrow_emit|]. intros _.
  apply noThrow_bind; [apply noThrow_gets|]. intros p. apply noThrow_exec.
Qed.

Lemma noThrow_launchAVD avd : noThrow (launchAVD avd).
Proof.
  unfold launchAVD.
  apply noThrow_bind; [apply noThrow_launchAVDStart|]. intros pending.
  apply noThrow_bind; [apply noThrow_await|]. intros r. apply noThrow_launchAVDSettle.
Qed.

Lemma noThrow_mapM {A B} (f : A -> M B) l : (forall x, noThrow (f x)) -> noThrow (mapM f l).
Proof.
  intros Hf. induction l as [|x l IH]; simpl; [apply noThrow_ret|].
  apply noThrow_bind; [apply Hf|]. intros y.
  apply noThrow_bind; [apply IH|]. intros ys. apply noThrow_ret.
Qed.

Lemma noThrow_settleAll fuel : forall outstanding, noThrow (settleAll fuel outstanding).
Proof.
  induction fuel as [|fuel IH]; intros outstanding; simpl; [apply noThrow_ret|].
  destruct outstanding as [|job outstanding]; [apply noThrow_ret|].
  apply noThrow_bind; [apply noThrow_pick|]. intros k.
  destruct (_ !! k) as [[avd r]|]; [|apply noThrow_ret].
  apply noThrow_bind; [apply noThrow_launchAVDSettle|]. intros _. apply IH.
Qed.

Lemma noThrow_launchAVDsParallel : noThrow launchAVDsParallel.
Proof.
  unfold launchAVDsParallel, consoleLog.
  apply noThrow_bind; [apply noThrow_emit|]. intros _.
  apply noThrow_bind; [apply noThrow_gets|]. intros l.
  apply noThrow_bind.
  - apply noThrow_mapM. intros avd.
    apply noThrow_bind; [apply noThrow_launchAVDStart|]. intros ?. apply noThrow_ret.
  - intros promises. unfold promiseAll.
    apply noThrow_bind; [apply noThrow_settleAll|]. intros _.
    destruct (_ =? _)%nat; [apply noThrow_ret|apply noThrow_block].
Qed.

Lemma noThrow_delayedLoop fuel : forall i, noThrow (delayedLoop fuel i).
Proof.
  induction fuel as [|fuel IH]; intros i; simpl; [apply noThrow_ret|].
  apply noThrow_bind; [apply noThrow_gets|]. intros l.
  destruct (l !! i); [|apply noThrow_ret].
  apply noThrow_bind; [apply noThrow_launchAVD|]. intros _.
  apply noThrow_bind; [|intros _; apply IH].
  destruct (_ <? _); [|apply noThrow_ret]. unfold consoleLog, sleep.
  apply noThrow_bind; [apply noThrow_emit|]. intros _. apply noThrow_emit.
Qed.

Lemma noThrow_sequentialLoop l : noThrow (sequentialLoop l).
Proof.
  induction l as [|avd l IH]; simpl; [apply noThrow_ret|].
  apply noThrow_bind; [apply noThrow_gets|]. intros ui.
  apply noThrow_bind.
  - destruct ui; unfold inquirerInput, question;
      (apply noThrow_bind; [apply noThrow_emit|]; intros _; apply noThrow_readLine).
  - intros _. apply noThrow_bind; [apply noThrow_launchAVD|]. intros _.
    apply noThrow_bind; [apply noThrow_emit|]. intros _. apply IH.
Qed.

Lemma noThrow_launchAVDs mode : noThrow (launchAVDs mode).
Proof.
  destruct mode; simpl.
  - apply noThrow_launchAVDsParallel.
  - unfold launchAVDsDelayed, consoleLog.
    apply noThrow_bind; [apply noThrow_emit|]. intros _.
    apply noThrow_bind; [apply noThrow_gets|]. intros l. apply noThrow_delayedLoop.
  - unfold launchAVDsSequential, consoleLog.
    apply noThrow_bind; [apply noThrow_emit|]. intros _.
    apply noThrow_bind; [apply noThrow_gets|]. intros l. apply noThrow_sequentialLoop.
Qed.

End NoThrow.

(** ** The three schedulers together *)

Section Schedulers.

Lemma elem_of_delayedEvents platform jobs job e :
  job ∈ jobs -> e ∈ settleEvents job.1 job.2 -> e ∈ delayedEvents platform jobs.
Proof.
  intros Hjob He. induction jobs as [|job' jobs IH]; [by apply elem_of_nil in Hjob|].
  cbn [delayedEvents]. unfold launchEvents. rewrite !elem_of_app.
  apply elem_of_cons in Hjob as [<-|Hjob]; [by left; right|]. right. right. by apply IH.
Qed.

Lemma elem_of_sequentialEvents ui platform jobs : forall acks job e,
  (length jobs <= length acks)%nat ->
  job ∈ jobs -> e ∈ settleEvents job.1 job.2 -> e ∈ sequentialEvents ui platform jobs acks.
Proof.
  induction jobs as [|job' jobs IH]; intros acks job e Hlen Hjob He;
    [by apply elem_of_nil in Hjob|].
  destruct acks as [|ack acks]; [simpl in Hlen; lia|].
  cbn [sequentialEvents]. unfold launchEvents.
  rewrite !elem_of_cons, !elem_of_app, elem_of_cons.
  apply elem_of_cons in Hjob as [<-|Hjob]; [by right; right; left; right|].
  do 4 right. apply (IH acks job e); [simpl in Hlen; lia|done|done].
Qed.

(** What the three schedulers have in common when every spawn reports
    and, for the sequential one, every prompt is acknowledged. *)
Lemma launchAVDs_run mode s rs tail :
  execs s = (Some <$> rs) ++ tail ->
  length rs = length (selectedAVDs s) ->
  (mode = sequential -> (length (selectedAVDs s) <= length (lines s))%nat) ->
  exists evs s',
    launchAVDs mode s = (Ok tt, evs, s')
    /\ spawned evs = getEmulatorCommand (platform s) <$> selectedAVDs s
    /\ settled evs ≡ₚ selectedAVDs s
    /\ (forall job e, job ∈ zip (selectedAVDs s) rs ->
                      e ∈ settleEvents job.1 job.2 -> e ∈ evs).
Proof.
  intros Hexecs Hlen Hacks. destruct mode; simpl.
  - by eapply launchAVDsParallel_run.
  - eexists _, _. split; [by eapply launchAVDsDelayed_run|]. split_and!.
    + by apply spawned_delayed.
    + change (settled (delayedEvents (platform s) (zip (selectedAVDs s) rs))
              ≡ₚ selectedAVDs s).
      by rewrite (settled_delayed _ _ _ Hlen).
    + intros job e Hjob He. apply elem_of_cons. right.
      by apply (elem_of_delayedEvents _ _ job).
  - specialize (Hacks eq_refl).
    pose proof (launchAVDsSequential_run _ _ _ Hexecs Hlen) as Hrun.
    destruct (launchAVDsSequential s) as [[res evs] s']. simpl in Hrun.
    rewrite decide_True in Hrun by done. injection Hrun as -> ->.
    eexists _, _. split; [done|]. split_and!.
    + change (ConsoleLog ?x :: ?l) with ([ConsoleLog x] ++ l).
      rewrite spawned_app, (spawned_sequential _ _ _ _ _ Hlen), take_ge by done. done.
    + change (ConsoleLog ?x :: ?l) with ([ConsoleLog x] ++ l).
      rewrite settled_app, (settled_sequential _ _ _ _ _ Hlen), take_ge by done. done.
    + intros job e Hjob He. apply elem_of_cons. right.
      apply (elem_of_sequentialEvents _ _ _ _ job); [|done|done].
      rewrite length_zip. lia.
Qed.

End Schedulers.

(** C1: whatever the mode, when every spawn reports (and, in sequential
    mode, every prompt is acknowledged) the launch resolves having called
    [exec] exactly once for each selected device, with the command of that
    device and in the order of the selection, and having settled exactly
    one launch for each selected device: as many as there are devices,
    none twice, none missing, no spawn issued a second time. A device that
    could not be run at all has its failure printed twice, by the callback
    and by the ['error'] listener; its launch settles once. *)
Theorem launchAVDs_once_each (mode : launchMode) (s : state) :
  selectedAVDs s <> [] ->
  allSettle (length (selectedAVDs s)) (execs s) = true ->
  (mode = sequential -> (length (selectedAVDs s) <= length (lines s))%nat) ->
  exists evs s',
    launchAVDs mode s = (Ok tt, evs, s')
    /\ spawned evs = getEmulatorCommand (platform s) <$> selectedAVDs s
    /\ settled evs ≡ₚ selectedAVDs s
    /\ length (settled evs) = length (selectedAVDs s).
Proof.
  intros _ (rs & tail & Hexecs & Hrs)%allSettle_inv Hacks.
  destruct (launchAVDs_run mode s rs tail Hexecs Hrs Hacks)
    as (evs & s' & Hrun & Hspawned & Hsettled & _).
  exists evs, s'. split_and!; try done. by rewrite Hsettled.
Qed.

(** C2: no launch throws or ends the process, whatever the spawns report.
    When every spawn reports (and, in sequential mode, every prompt is
    acknowledged), a spawn that fails with [message] for the device [avd]
    at position [i] is reported by [console.error] with the two arguments
    ❌ Failed to launch [avd]: and [message], and settles the launch of
    that device. The report is the line made of the two with a space
    between, unless the name of the device holds a [%]: then Node reads
    the first argument as a format. The launch as a whole resolves, and
    every device at a later position is spawned, at its position. *)
Theorem spawn_failure_isolated (mode : launchMode) :
  noThrow (launchAVDs mode)
  /\ forall (s : state) (i : nat) (avd : string) (r : exec_result) (message : string),
       allSettle (length (selectedAVDs s)) (execs s) = true ->
       (mode = sequential -> (length (selectedAVDs s) <= length (lines s))%nat) ->
       selectedAVDs s !! i = Some avd ->
       execs s !! i = Some (Some r) ->
       (callbackArgs r).1 = Some message ->
       (launchAVDs mode s).1.1 = Ok tt
       /\ (if contains "%" avd
           then ConsoleErrorFormat ("❌ Failed to launch " +:+ avd +:+ ":") message
           else ConsoleError ("❌ Failed to launch " +:+ avd +:+ ": " +:+ message))
          ∈ (launchAVDs mode s).1.2
       /\ Settled avd ∈ (launchAVDs mode s).1.2
       /\ forall j later,
            (i < j)%nat -> selectedAVDs s !! j = Some later ->
            spawned (launchAVDs mode s).1.2 !! j
            = Some (getEmulatorCommand (platform s) later).
Proof.
  split; [apply noThrow_launchAVDs|].
  intros s i avd r message (rs & tail & Hexecs & Hrs)%allSettle_inv Hacks Havd Hr Hfail.
  destruct (launchAVDs_run mode s rs tail Hexecs Hrs Hacks)
    as (evs & s' & Hrun & Hspawned & Hsettled & Hin).
  rewrite Hrun. simpl.
  assert (Hjob : (avd, r) ∈ zip (selectedAVDs s) rs).
  { apply list_elem_of_lookup. exists i.
    assert (rs !! i = Some r) as Hri.
    { pose proof (lookup_lt_Some _ _ _ Havd) as Hi.
      rewrite Hexecs, lookup_app_l in Hr by (rewrite length_fmap; lia).
      rewrite list_lookup_fmap in Hr. destruct (rs !! i); simpl in Hr; congruence. }
    by apply lookup_zip_Some. }
  destruct (failure_reported avd r message Hfail) as [Hline Hsettle].
  rewrite errorEvent_failure in Hline.
  split_and!.
  - done.
  - by apply (Hin (avd, r)).
  - by apply (Hin (avd, r)).
  - intros j later _ Hlater. by rewrite Hspawned, list_lookup_fmap, Hlater.
Qed.

(** ** The raw-keyboard menu *)

Section Menu.

Lemma bind_then_ret {A B} (m : M A) (b : B) s a evs s1 :
  m s = (Ok a, evs, s1) -> bind m (fun _ => ret b) s = (Ok b, evs, s1).
Proof. intros Hm. rewrite (bind_ok _ _ _ _ _ _ Hm). unfold prepend, ret. simpl. by rewrite app_nil_r. Qed.

Lemma displayMenu_run avds st s : displayMenu avds st s = (Ok tt, menuEvents avds st, s).
Proof.
  unfold displayMenu, forEach.
  rewrite bind_emit, !bind_consoleLog.
  rewrite (bind_ok _ _ _ _ _ _
             (forEachFrom_log _ (fun avd index => menuLine st avd index) avds 0 s
                ltac:(done))).
  rewrite bind_consoleLog. unfold consoleLog, emit, prepend, menuEvents. simpl.
  done.
Qed.

Lemma menuEvents_keep_mode avds st : Forall (fun e => keepsMode e = true) (menuEvents avds st).
Proof.
  unfold menuEvents. rewrite !Forall_app. split_and!.
  - by repeat constructor.
  - apply Forall_forall. intros e (index & avd & -> & _)%elem_of_lookup_imap. done.
  - by repeat constructor.
Qed.

Lemma rawModeAfter_app evs evs' b :
  rawModeAfter (evs ++ evs') b = rawModeAfter evs' (rawModeAfter evs b).
Proof. apply foldl_app. Qed.

Lemma rawModeAfter_keep evs b :
  Forall (fun e => keepsMode e = true) evs -> rawModeAfter evs b = b.
Proof.
  intros Hall. revert b. induction Hall as [|e evs He _ IH]; intros b; [done|].
  destruct e; simpl in *; try done; apply IH.
Qed.

Lemma keepsMode_not_set evs b :
  Forall (fun e => keepsMode e = true) evs -> SetRawMode b ∉ evs.
Proof.
  intros Hall Hin. rewrite Forall_forall in Hall. by specialize (Hall _ Hin).
Qed.

(** What one run of the key listener can do: leave the promise pending,
    without touching the terminal mode; resolve it with the checked devices,
    of which there is at least one, after leaving raw mode; or end the
    process with status 0, the terminal mode untouched. The rest of the
    state plays no part. *)
Lemma handleKeypress_cases avds key st :
  (exists st' evs,
      (forall s, handleKeypress avds key st s = (Ok (Continue st'), evs, s))
      /\ Forall (fun e => keepsMode e = true) evs)
  \/ ((forall s, handleKeypress avds key st s
                 = (Ok (Resolve (filterSelected (selected st) 0 avds)),
                    [SetRawMode false; StdinRemoveListener "keypress"], s))
      /\ filterSelected (selected st) 0 avds <> []
      /\ exists k, key = Some k /\ name k = Some "return")
  \/ (forall s, handleKeypress avds key st s = (Exited 0, [goodbyeLine], s)).
Proof.
  unfold handleKeypress. destruct key as [k|].
  2: { left. exists st, []. split; [done|constructor]. }
  repeat case_decide.
  - left. eexists _, _. split; [|apply menuEvents_keep_mode].
    intros s. by apply (bind_then_ret _ _ _ tt), displayMenu_run.
  - left. eexists _, _. split; [|apply menuEvents_keep_mode].
    intros s. by apply (bind_then_ret _ _ _ tt), displayMenu_run.
  - left. eexists _, _. split; [|apply menuEvents_keep_mode].
    intros s. by apply (bind_then_ret _ _ _ tt), displayMenu_run.
  - destruct (filterSelected (selected st) 0 avds) as [|avd sel] eqn:Hsel; simpl.
    + left. exists (armTimer st), [pleaseSelectLine; SetTimeout 1500].
      split; [done|by repeat constructor].
    + right. left. split_and!; [done|done|by exists k].
  - right. right. done.
  - destruct (ctrl k).
    + right. right. done.
    + left. exists st, []. split; [done|constructor].
  - left. exists st, []. split; [done|constructor].
Qed.

Lemma handleTimer_run avds st :
  exists st' evs,
    (forall s, handleTimer avds st s = (Ok (Continue st'), evs, s))
    /\ Forall (fun e => keepsMode e = true) evs.
Proof.
  unfold handleTimer. destruct (timers st) as [|k].
  - exists st, []. split; [done|constructor].
  - eexists _, _. split; [|apply menuEvents_keep_mode].
    intros s. by apply (bind_then_ret _ _ _ tt), displayMenu_run.
Qed.

Lemma listener_cases avds ev st :
  (exists st' evs,
      (forall s, listener avds ev st s = (Ok (Continue st'), evs, s))
      /\ Forall (fun e => keepsMode e = true) evs)
  \/ ((exists evs,
         (forall s, listener avds ev st s
                    = (Ok (Resolve (filterSelected (selected st) 0 avds)), evs, s))
         /\ forall b, rawModeAfter evs b = false)
      /\ filterSelected (selected st) 0 avds <> []
      /\ exists k, ev = Key (Some k) /\ name k = Some "return")
  \/ (exists evs,
         (forall s, listener avds ev st s = (Exited 0, evs, s))
         /\ Forall (fun e => keepsMode e = true) evs).
Proof.
  destruct ev as [key|]; simpl.
  - destruct (handleKeypress_cases avds key st)
      as [(st' & evs & Hrun & Hkeep)|[(Hrun & Hne & k & -> & Hk)|Hrun]].
    + left. exists st', (KeyRead key :: evs). split; [|by constructor].
      intros s. by rewrite bind_emit, Hrun.
    + right. left. split_and!; [|done|by exists k].
      exists [KeyRead (Some k); SetRawMode false; StdinRemoveListener "keypress"].
      split; [intros s; by rewrite bind_emit, Hrun|done].
    + right. right. exists [KeyRead key; goodbyeLine].
      split; [intros s; by rewrite bind_emit, Hrun|].
      by repeat constructor.
  - left. apply handleTimer_run.
Qed.

(** The event loop of the menu, from the menu [st] on. *)
Lemma menuLoop_spec avds events : forall st s,
  exists r evs s',
    menuLoop avds events st s = (r, evs, s')
    /\ Node.avds s' = Node.avds s
    /\ match r with
       | Ok sel =>
           (forall b, rawModeAfter evs b = false)
           /\ sel <> []
           /\ exists before k after stc,
                events = before ++ Key (Some k) :: after
                /\ name k = Some "return"
                /\ keys s' = after
                /\ menuRun avds st before stc
                /\ sel = filterSelected (selected stc) 0 avds
       | Exited code => code = 0 /\ Forall (fun e => keepsMode e = true) evs
       | Blocked => Forall (fun e => keepsMode e = true) evs
       | Rejected _ => False
       end.
Proof.
  induction events as [|ev events IH]; intros st s.
  - exists Blocked, [], s. simpl. split_and!; done.
  - cbn [menuLoop].
    rewrite (bind_ok _ _ _ tt [] (set_keys events s)) by done.
    destruct (listener_cases avds ev st)
      as [(st' & evs & Hrun & Hkeep)
         |[((evs & Hrun & Hraw) & Hne & k & -> & Hk)|(evs & Hrun & Hkeep)]].
    + rewrite (bind_ok _ _ _ _ _ _ (Hrun _)).
      destruct (IH st' (set_keys events s)) as (r & evs' & s' & Hloop & Havds & Hr).
      rewrite Hloop. exists r, (evs ++ evs'), s'.
      split; [done|]. split; [done|].
      destruct r as [sel|msg|code|]; [|done| |].
      * destruct Hr as (Hraw & Hne & before & k & after & stc & -> & Hk & Hkeys & Hmenu & Hsel).
        split; [|split; [done|]].
        { intros b. by rewrite rawModeAfter_app. }
        exists (ev :: before), k, after, stc. split_and!; try done.
        apply (menuRun_cons _ _ _ st'); [|done].
        intros s0. by rewrite Hrun.
      * destruct Hr as [-> Hkeep']. split; [done|]. by apply Forall_app.
      * by apply Forall_app.
    + rewrite (bind_ok _ _ _ _ _ _ (Hrun _)).
      exists (Ok (filterSelected (selected st) 0 avds)), evs, (set_keys events s).
      split; [unfold prepend, ret; simpl; by rewrite app_nil_r|].
      split; [done|]. split; [done|]. split; [done|].
      exists [], k, events, st. split_and!; try done. constructor.
    + exists (Exited 0), evs, (set_keys events s).
      split; [|done]. unfold bind. simpl. by rewrite Hrun.
Qed.

End Menu.

(** ** The two selectors *)

Section Selectors.

Lemma truthy_true (m : gmap Z bool) i : truthy m i = true <-> m !! i = Some true.
Proof. unfold truthy. destruct (m !! i) as [[]|]; simpl; split; congruence. Qed.

Lemma filterSelected_sublist (m : gmap Z bool) l : forall i, sublist (filterSelected m i l) l.
Proof.
  induction l as [|avd l IH]; intros i; simpl; [constructor|].
  destruct (truthy m i); by constructor.
Qed.

Lemma elem_of_filterSelected (m : gmap Z bool) l avd : forall i,
  avd ∈ filterSelected m i l
  <-> exists k : nat, l !! k = Some avd /\ m !! (i + Z.of_nat k) = Some true.
Proof.
  induction l as [|avd' l IH]; intros i; simpl.
  - split; [by intros ?%elem_of_nil|by intros (k & ? & _)].
  - assert (Hshift : (exists k : nat, l !! k = Some avd /\ m !! (i + 1 + Z.of_nat k) = Some true)
                     <-> (exists k : nat, (avd' :: l) !! S k = Some avd
                                          /\ m !! (i + Z.of_nat (S k)) = Some true)).
    { split; intros (k & Hk & Hm); exists k; (split; [done|]);
        by replace (i + Z.of_nat (S k)) with (i + 1 + Z.of_nat k) in * by lia. }
    destruct (truthy m i) eqn:Hi.
    + rewrite elem_of_cons, IH, Hshift. split.
      * intros [->|(k & Hk)]; [|by exists (S k)].
        exists 0%nat. split; [done|]. rewrite Z.add_0_r. by apply truthy_true.
      * intros ([|k] & Hk & Hm); [left; simpl in Hk; congruence|right; by exists k].
    + rewrite IH, Hshift. split.
      * intros (k & Hk). by exists (S k).
      * intros ([|k] & Hk & Hm); [|by exists k].
        rewrite Z.add_0_r in Hm. apply truthy_true in Hm. congruence.
Qed.

Lemma bind_setRawMode {B} mode (f : unit -> M B) s :
  rawModeError s = None -> bind (setRawMode mode) f s = prepend [SetRawMode mode] (f tt s).
Proof. intros Htty. apply bind_ok. unfold setRawMode. by rewrite bind_gets, Htty. Qed.

(** When standard input is not a terminal the selector prints the menu
    once and rejects, with what [setRawMode] throws. *)
Lemma selectAVDsBuiltIn_throws s message :
  rawModeError s = Some message ->
  selectAVDsBuiltIn s = (Rejected message, menuEvents (avds s) (initialMenu (avds s)), s).
Proof.
  intros Htty. unfold selectAVDsBuiltIn. rewrite bind_gets.
  rewrite (bind_ok _ _ _ _ _ _ (displayMenu_run _ _ _)).
  unfold setRawMode, bind at 1. rewrite bind_gets, Htty. unfold reject, prepend. simpl.
  by rewrite app_nil_r.
Qed.

Lemma selectAVDsBuiltIn_run s :
  rawModeError s = None ->
  exists r evs s',
    menuLoop (avds s) (keys s) (initialMenu (avds s)) s = (r, evs, s')
    /\ selectAVDsBuiltIn s
       = (match r with
          | Ok _ => Ok tt
          | Rejected message => Rejected message
          | Exited code => Exited code
          | Blocked => Blocked
          end,
          menuEvents (avds s) (initialMenu (avds s))
            ++ [SetRawMode true; StdinResume; StdinSetEncoding "utf8"; StdinOn "keypress"]
            ++ evs,
          match r with
          | Ok sel => set_selectedAVDs sel s'
          | _ => s'
          end).
Proof.
  intros Htty.
  destruct (menuLoop (avds s) (keys s) (initialMenu (avds s)) s) as [[r evs] s'] eqn:Hloop.
  exists r, evs, s'. split; [done|].
  unfold selectAVDsBuiltIn. rewrite bind_gets.
  rewrite (bind_ok _ _ _ _ _ _ (displayMenu_run _ _ _)).
  rewrite bind_setRawMode by done.
  rewrite !bind_emit, bind_gets. unfold bind. rewrite Hloop.
  destruct r; unfold prepend; simpl; by rewrite ?app_nil_r.
Qed.

Lemma checkboxLoop_spec choices submissions : forall s,
  exists r evs s',
    checkboxLoop choices validate submissions s = (r, evs, s')
    /\ match r with
       | Ok input => input <> []
                     /\ exists ticks, ticks ∈ submissions /\ input = tickedValues choices ticks
       | Blocked => True
       | _ => False
       end.
Proof.
  induction submissions as [|ticks rest IH]; intros s.
  - by exists Blocked, [], s.
  - cbn [checkboxLoop].
    rewrite (bind_ok _ _ _ tt [ChecksRead ticks] (set_checks rest s)) by done.
    unfold validate at 1.
    destruct (tickedValues choices ticks) as [|v vs] eqn:Hticked; simpl.
    + rewrite bind_emit.
      destruct (IH (set_checks rest s)) as (r & evs & s' & Hloop & Hr).
      rewrite Hloop. eexists _, _, _. split; [done|].
      destruct r; try done. destruct Hr as (Hne & ticks' & Hin & ->).
      split; [done|]. exists ticks'. split; [|done]. by apply elem_of_cons; right.
    + eexists _, _, _. split; [done|]. split; [done|].
      exists ticks. split; [by apply elem_of_cons; left|done].
Qed.

Lemma selectAVDsInquirer_nonempty s evs s' :
  selectAVDsInquirer s = (Ok tt, evs, s') -> selectedAVDs s' <> [].
Proof.
  unfold selectAVDsInquirer, inquirerCheckbox. rewrite bind_gets.
  set (choices := _ <$> avds s).
  destruct (checkboxLoop_spec choices (checks s) s) as (r & evs0 & s0 & Hloop & Hr).
  assert (Hcheckbox :
    bind (emit (InquirerPrompt "checkbox" "Select AVDs to launch:"))
      (fun _ => bind (gets checks) (fun submissions => checkboxLoop choices validate submissions)) s
    = (r, InquirerPrompt "checkbox" "Select AVDs to launch:" :: evs0, s0)).
  { by rewrite bind_emit, bind_gets, Hloop. }
  destruct r as [input| | |]; try done.
  - rewrite (bind_ok _ _ _ _ _ _ Hcheckbox).
    rewrite (bind_ok _ _ _ tt [] (set_selectedAVDs input s0)) by done.
    rewrite bind_gets, bind_consoleLog. unfold forEach.
    rewrite (bind_ok _ _ _ _ _ _
               (forEachFrom_log (fun avd (_ : nat) => consoleLog ("   ✓ " +:+ avd))
                  (fun avd _ => "   ✓ " +:+ avd) _ 0 _ ltac:(done))).
    unfold consoleLog, emit, prepend. simpl. intros [= _ <-]. by destruct Hr.
  - by rewrite (bind_pending _ _ _ _ _ Hcheckbox).
Qed.

End Selectors.

(** C5: neither selector hands an empty selection over. In the menu,
    Enter with nothing checked prints the request to select a device and
    arms a redraw of the menu 1500 ms later; the promise stays pending, the
    menu as it was, and the redraw shows it again. In the inquirer prompt,
    [validate] refuses an empty submission with the same request and the
    prompt stays open for the next one. Whenever [selectAVDs] resolves,
    [selectedAVDs] holds at least one device. *)
Theorem selectAVDs_never_empty :
  (forall avds k st s,
      name k = Some "return" -> filterSelected (selected st) 0 avds = [] ->
      handleKeypress avds (Some k) st s
      = (Ok (Continue (armTimer st)), [pleaseSelectLine; SetTimeout 1500], s)
      /\ handleTimer avds (armTimer st) s = (Ok (Continue st), menuEvents avds (armTimer st), s))
  /\ validate [] = Some "Please select at least one AVD."
  /\ (forall choices ticks rest s,
        tickedValues choices ticks = [] ->
        checkboxLoop choices validate (ticks :: rest) s
        = prepend [ChecksRead ticks; InquirerInvalid "Please select at least one AVD."]
            (checkboxLoop choices validate rest (set_checks rest s)))
  /\ (forall s evs s', selectAVDs s = (Ok tt, evs, s') -> selectedAVDs s' <> []).
Proof.
  split_and!.
  - intros avds k st s Hk Hnone. split.
    + unfold handleKeypress. rewrite Hk, Hnone.
      repeat case_decide; done.
    + unfold handleTimer, armTimer. cbn [timers currentIndex selected].
      rewrite (bind_then_ret _ _ _ tt _ _ (displayMenu_run _ _ _)). by destruct st.
  - done.
  - intros choices ticks rest s Hnone. cbn [checkboxLoop].
    rewrite (bind_ok _ _ _ tt [ChecksRead ticks] (set_checks rest s)) by done.
    rewrite Hnone. unfold validate. simpl. rewrite bind_emit.
    by rewrite prepend_prepend.
  - intros s evs s'. unfold selectAVDs. rewrite bind_gets.
    destruct (useInquirer s); [apply selectAVDsInquirer_nonempty|].
    destruct (rawModeError s) as [message|] eqn:Htty;
      [by rewrite (selectAVDsBuiltIn_throws _ _ Htty)|].
    destruct (selectAVDsBuiltIn_run s Htty) as (r & evs0 & s0 & Hloop & ->).
    destruct (menuLoop_spec (avds s) (keys s) (initialMenu (avds s)) s)
      as (r' & evs' & s1 & Hloop' & _ & Hr).
    rewrite Hloop in Hloop'. injection Hloop' as <- <- <-.
    destruct r as [sel| | |]; try done. intros [= _ <-]. simpl. by destruct Hr as (_ & ? & _).
Qed.

(** C9 (as amended): when the menu resolves, the selector has called
    [setRawMode(false)] after its last [setRawMode(true)]: it hands the
    terminal back in line mode. When the user quits (q or Ctrl-C) the
    process is ended with status 0 by [process.exit]; the selector has
    entered raw mode and has not called [setRawMode(false)]. While the
    promise is pending the terminal is in raw mode. The one error path is
    the call [setRawMode(true)] itself: when it throws (standard input is
    not a terminal) the selector rejects with what was thrown, and it
    rejects in no other case; it has then drawn the menu once and has not
    changed the mode of the terminal. *)
Theorem selectAVDsBuiltIn_raw_mode (s : state) (before : bool) :
  (forall message,
      rawModeError s = Some message -> (selectAVDsBuiltIn s).1.1 = Rejected message)
  /\ match (selectAVDsBuiltIn s).1.1 with
  | Ok _ =>
      SetRawMode true ∈ (selectAVDsBuiltIn s).1.2
      /\ rawModeAfter (selectAVDsBuiltIn s).1.2 before = false
  | Exited code =>
      code = 0
      /\ SetRawMode true ∈ (selectAVDsBuiltIn s).1.2
      /\ SetRawMode false ∉ (selectAVDsBuiltIn s).1.2
  | Blocked =>
      SetRawMode true ∈ (selectAVDsBuiltIn s).1.2
      /\ rawModeAfter (selectAVDsBuiltIn s).1.2 before = true
  | Rejected message =>
      rawModeError s = Some message
      /\ (selectAVDsBuiltIn s).1.2 = menuEvents (avds s) (initialMenu (avds s))
      /\ forall mode, SetRawMode mode ∉ (selectAVDsBuiltIn s).1.2
  end.
Proof.
  destruct (rawModeError s) as [message|] eqn:Htty.
  { rewrite (selectAVDsBuiltIn_throws _ _ Htty). cbn [fst snd].
    split; [by intros ? [= ->]|]. split; [done|]. split; [done|].
    intros mode.
    apply (keepsMode_not_set _ mode (menuEvents_keep_mode (avds s) (initialMenu (avds s)))). }
  destruct (selectAVDsBuiltIn_run s Htty) as (r & evs & s' & Hloop & ->).
  destruct (menuLoop_spec (avds s) (keys s) (initialMenu (avds s)) s)
    as (r' & evs' & s1 & Hloop' & _ & Hr).
  rewrite Hloop in Hloop'. injection Hloop' as <- <- <-.
  split; [done|].
  cbn [fst snd]. rewrite !rawModeAfter_app.
  assert (Hstart : forall evs0,
             Forall (fun e => keepsMode e = true) evs0 ->
             rawModeAfter evs0
               (rawModeAfter [SetRawMode true; StdinResume; StdinSetEncoding "utf8";
                              StdinOn "keypress"]
                  (rawModeAfter (menuEvents (avds s) (initialMenu (avds s))) before))
             = true).
  { intros evs0 Hkeep. by rewrite rawModeAfter_keep. }
  assert (Hentered : SetRawMode true
                     ∈ menuEvents (avds s) (initialMenu (avds s))
                       ++ [SetRawMode true; StdinResume; StdinSetEncoding "utf8";
                           StdinOn "keypress"] ++ evs).
  { apply elem_of_app. right. apply elem_of_app. left. by left. }
  destruct r as [sel|msg|code|].
  - split; [done|]. by destruct Hr as [-> _].
  - done.
  - destruct Hr as [-> Hkeep]. split_and!; [done|done|].
    rewrite !elem_of_app. intros [Hin|[Hin|Hin]].
    + by apply (keepsMode_not_set _ false (menuEvents_keep_mode (avds s) (initialMenu (avds s)))).
    + repeat (apply elem_of_cons in Hin as [Hin|Hin]; [done|]).
      by apply elem_of_nil in Hin.
    + by apply (keepsMode_not_set _ false Hkeep).
  - split; [done|]. by apply Hstart.
Qed.

(** C10: when the menu resolves, it does so on an Enter key; the selection
    is made of the devices whose box is checked in the menu reached by the
    events before that key, in the order of the inventory: a device is
    selected exactly when it stands at an index whose box is checked, and
    the selection is a subsequence of the inventory. Launching it, in any
    mode, spawns the devices in inventory order. *)
Theorem selectAVDsBuiltIn_inventory_order (s : state) (evs : list event) (s' : state) :
  selectAVDsBuiltIn s = (Ok tt, evs, s') ->
  exists before k after st,
    keys s = before ++ Key (Some k) :: after
    /\ name k = Some "return"
    /\ keys s' = after
    /\ menuRun (avds s) (initialMenu (avds s)) before st
    /\ selectedAVDs s' = filterSelected (selected st) 0 (avds s)
    /\ (forall avd, avd ∈ selectedAVDs s' <->
                    exists i : nat, avds s !! i = Some avd
                                    /\ selected st !! Z.of_nat i = Some true)
    /\ sublist (selectedAVDs s') (avds s)
    /\ avds s' = avds s
    /\ forall mode,
         allSettle (length (selectedAVDs s')) (execs s') = true ->
         (mode = sequential -> (length (selectedAVDs s') <= length (lines s'))%nat) ->
         (launchAVDs mode s').1.1 = Ok tt
         /\ spawned (launchAVDs mode s').1.2
            = getEmulatorCommand (platform s') <$> selectedAVDs s'
         /\ sublist (spawned (launchAVDs mode s').1.2)
              (getEmulatorCommand (platform s') <$> avds s).
Proof.
  destruct (rawModeError s) as [message|] eqn:Htty;
    [by rewrite (selectAVDsBuiltIn_throws _ _ Htty)|].
  destruct (selectAVDsBuiltIn_run s Htty) as (r & evs0 & s0 & Hloop & ->).
  destruct (menuLoop_spec (avds s) (keys s) (initialMenu (avds s)) s)
    as (r' & evs' & s1 & Hloop' & Havds & Hr).
  rewrite Hloop in Hloop'. injection Hloop' as <- <- <-.
  destruct r as [sel| | |]; try done. intros [= _ <-].
  destruct Hr as (_ & _ & before & k & after & st & Hkeys & Hk & Hafter & Hrun & ->).
  exists before, k, after, st. cbn [selectedAVDs keys avds set_selectedAVDs lines execs platform].
  split_and!; try done.
  - intros avd. rewrite elem_of_filterSelected. by setoid_rewrite Z.add_0_l.
  - apply filterSelected_sublist.
  - intros mode (rs & tail & Hexecs & Hrs)%allSettle_inv Hacks.
    destruct (launchAVDs_run mode (set_selectedAVDs (filterSelected (selected st) 0 (avds s)) s0)
                rs tail Hexecs Hrs Hacks) as (evs1 & s2 & -> & Hspawned & _).
    cbn [fst snd]. split_and!; try done.
    rewrite Hspawned. apply fmap_sublist, filterSelected_sublist.
Qed.

(** ** The properties on sample runs *)

(** C9 (as stated) fails: the user presses down and then q; the process
    is ended with status 0, the selector has called [setRawMode(true)] and
    has not called [setRawMode(false)]. *)
Lemma selectAVDsBuiltIn_quit_skips_reset :
  (selectAVDsBuiltIn Samples.quitting).1.1 = Exited 0
  /\ Samples.callsSetRawMode true (selectAVDsBuiltIn Samples.quitting).1.2 = true
  /\ Samples.callsSetRawMode false (selectAVDsBuiltIn Samples.quitting).1.2 = false.
Proof. by vm_compute. Qed.

(** [trim] on blanks beyond ASCII: a no-break space before the choice 2
    and an em space after it are removed; in the output of the discovery
    a line made of a no-break space is dropped, and so is a line
    separator at the end. *)
Lemma trim_wide_blanks :
  trim (bytes [194; 160] +:+ "2" +:+ bytes [226; 128; 131]) = "2"
  /\ parseAVDs ("Pixel_5" +:+ nl +:+ bytes [194; 160] +:+ nl +:+ "Pixel_7"
                +:+ bytes [226; 128; 168])
     = ["Pixel_5"; "Pixel_7"].
Proof. by vm_compute. Qed.

(** C1 on the sample launch, in sequential mode. *)
Lemma launchAVDs_once_each_witness :
  selectedAVDs Samples.launching <> []
  /\ allSettle (length (selectedAVDs Samples.launching)) (execs Samples.launching) = true
  /\ (length (selectedAVDs Samples.launching) <= length (lines Samples.launching))%nat
  /\ exists evs s',
       launchAVDs sequential Samples.launching = (Ok tt, evs, s')
       /\ spawned evs
          = getEmulatorCommand (platform Samples.launching) <$> selectedAVDs Samples.launching
       /\ settled evs ≡ₚ selectedAVDs Samples.launching
       /\ length (settled evs) = length (selectedAVDs Samples.launching).
Proof.
  split; [discriminate|]. split; [reflexivity|]. split; [simpl; lia|].
  apply (launchAVDs_once_each sequential Samples.launching).
  - discriminate.
  - reflexivity.
  - intros _. simpl. lia.
Defined.

(** C2 on three devices in delayed mode: the spawn of the second fails,
    the failure is printed, and the third is spawned in its turn. *)
Lemma spawn_failure_isolated_witness :
  allSettle (length (selectedAVDs Samples.breaking)) (execs Samples.breaking) = true
  /\ selectedAVDs Samples.breaking !! 1%nat = Some "Pixel_7"
  /\ execs Samples.breaking !! 1%nat = Some (Some (Callback (Some "Command failed") EmptyString))
  /\ selectedAVDs Samples.breaking !! 2%nat = Some "Nexus_6"
  /\ (launchAVDs delayed Samples.breaking).1.1 = Ok tt
  /\ ConsoleError "❌ Failed to launch Pixel_7: Command failed"
       ∈ (launchAVDs delayed Samples.breaking).1.2
  /\ Settled "Pixel_7" ∈ (launchAVDs delayed Samples.breaking).1.2
  /\ spawned (launchAVDs delayed Samples.breaking).1.2 !! 2%nat
     = Some (getEmulatorCommand "linux" "Nexus_6").
Proof.
  split; [reflexivity|]. split; [reflexivity|]. split; [reflexivity|]. split; [reflexivity|].
  destruct (proj2 (spawn_failure_isolated delayed) Samples.breaking 1%nat "Pixel_7"
              (Callback (Some "Command failed") EmptyString) "Command failed")
    as (Hok & Hline & Hsettled & Hlater).
  - reflexivity.
  - discriminate.
  - reflexivity.
  - reflexivity.
  - reflexivity.
  - exact (conj Hok (conj Hline (conj Hsettled
             (Hlater 2%nat "Nexus_6" (Nat.lt_succ_diag_r 1) eq_refl)))).
Defined.

(** C3 on the sample launch. *)
Lemma launchAVDsDelayed_schedule_witness :
  (2 <= length (selectedAVDs Samples.launching))%nat
  /\ allSettle (length (selectedAVDs Samples.launching)) (execs Samples.launching) = true
  /\ exists evs s',
       launchAVDsDelayed Samples.launching = (Ok tt, evs, s')
       /\ schedule evs
          = delayedSchedule (platform Samples.launching) (selectedAVDs Samples.launching)
       /\ spawned evs
          = getEmulatorCommand (platform Samples.launching) <$> selectedAVDs Samples.launching
       /\ settled evs = selectedAVDs Samples.launching
       /\ sleeps evs = replicate (length (selectedAVDs Samples.launching) - 1) 3000
       /\ last (schedule evs) = Settled <$> last (selectedAVDs Samples.launching).
Proof.
  split; [simpl; lia|]. split; [reflexivity|].
  apply (launchAVDsDelayed_schedule Samples.launching); [simpl; lia|reflexivity].
Defined.

(** C4 on the sample launch. *)
Lemma launchAVDsSequential_schedule_witness :
  allSettle (length (selectedAVDs Samples.launching)) (execs Samples.launching) = true
  /\ schedule (launchAVDsSequential Samples.launching).1.2
     = sequentialSchedule false "linux" ["Pixel_5"; "Nexus_6"] [EmptyString; EmptyString].
Proof.
  split; [reflexivity|].
  apply (launchAVDsSequential_schedule Samples.launching). reflexivity.
Defined.

(** C5 on the sample menu session, which starts with an empty confirmation. *)
Lemma selectAVDs_never_empty_witness :
  selectAVDs Samples.selecting = Samples.selected
  /\ Samples.selected.1.1 = Ok tt
  /\ selectedAVDs Samples.selected.2 <> [].
Proof.
  assert (Hrun : selectAVDs Samples.selecting
                 = (Ok tt, Samples.selected.1.2, Samples.selected.2))
    by (vm_compute; reflexivity).
  split; [vm_compute; reflexivity|]. split; [reflexivity|].
  exact (proj2 (proj2 (proj2 selectAVDs_never_empty)) _ _ _ Hrun).
Defined.

(** C7 on the sample listing. *)
Lemma getAVDList_fails_exactly_witness :
  execs Samples.listing
    = [Some (Callback None ("Pixel_5" +:+ nl +:+ nl +:+ "Pixel_7" +:+ nl))]
  /\ (getAVDList Samples.listing).1.1 = Ok ["Pixel_5"; "Pixel_7"]
  /\ (listingMode Samples.listing).1.1 = Exited 0.
Proof.
  split; [reflexivity|].
  destruct (getAVDList_fails_exactly Samples.listing _ _ eq_refl)
    as (_ & _ & _ & Hok & _ & Hlisting).
  split.
  - apply Hok; [reflexivity|discriminate].
  - apply (Hlisting ["Pixel_5"; "Pixel_7"]). apply Hok; [reflexivity|discriminate].
Defined.

(** C8 on the sample mode question. *)
Lemma selectLaunchOptions_default_witness :
  useInquirer Samples.choosing = false
  /\ (2 <= length (selectedAVDs Samples.choosing))%nat
  /\ lines Samples.choosing = [" 7 "]
  /\ trim " 7 " = "7"
  /\ exists evs,
       selectLaunchOptions Samples.choosing
       = (Ok parallel,
          evs ++ [ConsoleLog "Invalid choice. Using parallel launch."],
          set_lines [] Samples.choosing)
       /\ RlQuestion "Enter your choice (1-3): " ∈ evs
       /\ LineRead " 7 " ∈ evs.
Proof.
  split; [reflexivity|]. split; [simpl; lia|]. split; [reflexivity|]. split; [reflexivity|].
  apply (proj2 (selectLaunchOptions_default Samples.choosing) " 7 " []).
  - reflexivity.
  - simpl. lia.
  - reflexivity.
  - discriminate.
  - discriminate.
  - discriminate.
Defined.

(** C10 on the sample menu session: the second device is checked before the first. *)
Lemma selectAVDsBuiltIn_inventory_order_witness :
  selectAVDsBuiltIn Samples.selecting
    = (Ok tt, Samples.selected.1.2, Samples.selected.2)
  /\ selectedAVDs Samples.selected.2 = ["Pixel_5"; "Pixel_7"]
  /\ sublist (selectedAVDs Samples.selected.2) (avds Samples.selecting).
Proof.
  assert (Hrun : selectAVDsBuiltIn Samples.selecting
                 = (Ok tt, Samples.selected.1.2, Samples.selected.2))
    by (vm_compute; reflexivity).
  split; [exact Hrun|]. split; [reflexivity|].
  destruct (selectAVDsBuiltIn_inventory_order _ _ _ Hrun)
    as (before & k & after & st & _ & _ & _ & _ & _ & _ & Hsub & _).
  exact Hsub.
Defined.

(* ===================================================================== *)
(** * Part III: further properties of the code *)
(* ===================================================================== *)

Import Pipeline Derived.

(** ** Commands and names *)

Section Commands.

Lemma string_app_inj_length a b x y :
  String.length a = String.length b -> a +:+ x = b +:+ y -> a = b /\ x = y.
Proof.
  revert b. induction a as [|c a IH]; intros [|c' b] Hlen; try done.
  change (String c a +:+ x) with (String c (a +:+ x)).
  change (String c' b +:+ y) with (String c' (b +:+ y)).
  intros [= -> Heq]. destruct (IH b) as [-> ->]; [by injection Hlen|done|done].
Qed.

End Commands.

Lemma getEmulatorCommand_inj (platform a b : string) :
  getEmulatorCommand platform a = getEmulatorCommand platform b -> a = b.
Proof.
  intros Heq. pose proof (f_equal String.length Heq) as Hlen.
  unfold getEmulatorCommand in *.
  repeat case_decide;
    rewrite ?string_app_assoc in Heq;
    rewrite !string_length_app in Hlen; simpl in Hlen;
    repeat (apply String.app_inj in Heq);
    apply (string_app_inj_length a b) in Heq; (by destruct Heq) || lia.
Qed.

(** X1: the launch command determines the device: on every platform, two
    different device names give two different commands. *)
Theorem getEmulatorCommand_distinct (platform a b : string) :
  a <> b -> getEmulatorCommand platform a <> getEmulatorCommand platform b.
Proof. intros Hne Heq. by apply Hne, (getEmulatorCommand_inj platform). Qed.

(** X1 on two devices under Windows. *)
Lemma getEmulatorCommand_distinct_witness :
  "Pixel_5" <> "Pixel_7"
  /\ getEmulatorCommand "win32" "Pixel_5" <> getEmulatorCommand "win32" "Pixel_7".
Proof.
  split; [discriminate|].
  apply (getEmulatorCommand_distinct "win32" "Pixel_5" "Pixel_7"). discriminate.
Defined.

(** ** Reading back what the discovery command prints *)

Section RoundTrip.

Lemma noWhite_head c s : noWhite (String c s) = true -> whiteStart (String c s) = None.
Proof. cbn [noWhite]. by destruct (whiteStart (String c s)). Qed.

Lemma noWhite_tail c s : noWhite (String c s) = true -> noWhite s = true.
Proof. cbn [noWhite]. by destruct (whiteStart (String c s)). Qed.

Lemma trimStart_noWhite s x :
  noWhite s = true -> s <> EmptyString -> startsClean x -> trimStart (s +:+ x) = s +:+ x.
Proof.
  destruct s as [|c s]; [done|]. intros Hs%noWhite_head _ Hx.
  by rewrite trimStart_unfold, whiteStart_None_app.
Qed.

Lemma isBlank_noWhite s x :
  noWhite s = true -> s <> EmptyString -> startsClean x -> isBlank (s +:+ x) = false.
Proof.
  intros Hs Hne Hx. apply bool_decide_eq_false. rewrite trimStart_noWhite by done.
  by destruct s.
Qed.

Lemma trimEnd_noWhite s : noWhite s = true -> trimEnd s = s.
Proof.
  induction s as [|c s IH]; [done|]. intros Hs. cbn [trimEnd].
  rewrite <- (string_app_nil_r (String c s)) at 1.
  rewrite isBlank_noWhite, IH by (done || by eapply noWhite_tail). done.
Qed.

(** [trimEnd] goes through a name when something is left of the rest. *)
Lemma trimEnd_noWhite_app s x :
  noWhite s = true -> startsClean x -> trimEnd x <> EmptyString ->
  trimEnd (s +:+ x) = s +:+ trimEnd x.
Proof.
  intros Hs Hx Hrest. induction s as [|c s IH]; [done|].
  change (String c s +:+ x) with (String c (s +:+ x)). cbn [trimEnd].
  change (String c (s +:+ x)) with (String c s +:+ x).
  rewrite isBlank_noWhite, IH by (done || by eapply noWhite_tail). done.
Qed.

Lemma trimEnd_LF x : trimEnd x <> EmptyString -> trimEnd (nl +:+ x) = nl +:+ trimEnd x.
Proof.
  intros Hx. change (nl +:+ x) with (String LF x). cbn [trimEnd].
  assert (isBlank (String LF x) = false) as ->; [|done].
  apply bool_decide_eq_false. change (String LF x) with (nl +:+ x).
  rewrite trimStart_token by (unfold whiteSpace; set_solver).
  intros Hblank. apply Hx, trimEnd_blank. by apply isBlank_true.
Qed.

Lemma noWhite_no_LF s : noWhite s = true -> contains LF s = false.
Proof.
  induction s as [|c s IH]; [done|]. intros Hs. simpl.
  rewrite (IH (noWhite_tail _ _ Hs)), orb_false_r. apply bool_decide_eq_false. intros ->.
  apply noWhite_head in Hs. change (String LF s) with (nl +:+ s) in Hs.
  rewrite whiteStart_token in Hs; [done|]. unfold whiteSpace. set_solver.
Qed.

Lemma split_app_LF s x :
  contains LF s = false -> split LF (s +:+ nl +:+ x) = s :: split LF x.
Proof.
  intros Hs. rewrite split_app_clean by done.
  change (nl +:+ x) with (String LF x). cbn [split]. rewrite decide_True by done.
  by rewrite string_app_nil_r.
Qed.

Lemma split_no_LF s : contains LF s = false -> split LF s = [s].
Proof.
  intros Hs. rewrite <- (string_app_nil_r s) at 1. rewrite split_app_clean by done.
  simpl. by rewrite string_app_nil_r.
Qed.

Lemma split_trimEnd_unlines name names :
  Forall (fun n => n <> EmptyString /\ noWhite n = true) (name :: names) ->
  trimEnd (unlines (name :: names)) <> EmptyString
  /\ split LF (trimEnd (unlines (name :: names))) = name :: names.
Proof.
  revert name. induction names as [|name' names IH]; intros name Hall.
  - inversion_clear Hall as [|? ? [Hne Hclean] _]. simpl.
    change (nl +:+ EmptyString) with nl.
    rewrite trimEnd_app_blank, trimEnd_noWhite by done.
    split; [done|]. by apply split_no_LF, noWhite_no_LF.
  - inversion_clear Hall as [|? ? [Hne Hclean] Hrest].
    destruct (IH name' Hrest) as [Hnonempty Hsplit].
    change (unlines (name :: name' :: names))
      with (name +:+ nl +:+ unlines (name' :: names)).
    rewrite trimEnd_noWhite_app, trimEnd_LF; try done.
    + split; [by destruct name|].
      rewrite split_app_LF, Hsplit by (by apply noWhite_no_LF). done.
    + rewrite trimEnd_LF by done. done.
Qed.

Lemma filter_all {A} (P : A -> Prop) `{forall x, Decision (P x)} (l : list A) :
  Forall P l -> filter P l = l.
Proof.
  induction 1 as [|x l Hx _ IH]; [done|]. by rewrite filter_cons_True, IH.
Qed.

End RoundTrip.

(** X2: reading back a printed inventory. When the discovery command
    prints names that are not empty and hold no white space, one per line,
    [parseAVDs] gives back exactly these names, in order; for no name at
    all it gives the empty inventory. *)
Theorem parseAVDs_unlines (names : list string) :
  Forall (fun n => n <> EmptyString /\ noWhite n = true) names ->
  parseAVDs (unlines names) = names.
Proof.
  intros Hall. destruct names as [|name names]; [done|].
  destruct (split_trimEnd_unlines name names Hall) as [_ Hsplit].
  unfold parseAVDs, trim.
  assert (trimStart (unlines (name :: names)) = unlines (name :: names)) as ->.
  { inversion_clear Hall as [|? ? [Hne Hclean] _]. by apply trimStart_noWhite. }
  rewrite Hsplit. apply filter_all, Forall_forall.
  intros n Hn. rewrite Forall_forall in Hall. destruct (Hall n Hn) as [Hne Hclean].
  unfold nonEmpty. apply bool_decide_eq_true.
  assert (trimStart n = n) as ->.
  { rewrite <- (string_app_nil_r n). by apply trimStart_noWhite. }
  by rewrite trimEnd_noWhite.
Qed.

(** X2 on two names. *)
Lemma parseAVDs_unlines_witness :
  Forall (fun n => n <> EmptyString /\ noWhite n = true) ["Pixel_5"; "Pixel_7"]
  /\ parseAVDs (unlines ["Pixel_5"; "Pixel_7"]) = ["Pixel_5"; "Pixel_7"].
Proof.
  assert (Hall : Forall (fun n => n <> EmptyString /\ noWhite n = true) ["Pixel_5"; "Pixel_7"]).
  { repeat constructor; discriminate. }
  split; [exact Hall|]. exact (parseAVDs_unlines _ Hall).
Defined.

(** ** The menu as a state machine *)

Section MenuMachine.

Lemma handleKeypress_up avds k st s :
  name k = Some "up" ->
  handleKeypress avds (Some k) st s
  = (Ok (Continue (moveUp avds st)), menuEvents avds (moveUp avds st), s).
Proof.
  intros Hk. unfold handleKeypress. rewrite Hk, decide_True by done.
  by apply (bind_then_ret _ _ _ tt), displayMenu_run.
Qed.

Lemma handleKeypress_down avds k st s :
  name k = Some "down" ->
  handleKeypress avds (Some k) st s
  = (Ok (Continue (moveDown avds st)), menuEvents avds (moveDown avds st), s).
Proof.
  intros Hk. unfold handleKeypress. rewrite Hk, decide_False, decide_True by done.
  by apply (bind_then_ret _ _ _ tt), displayMenu_run.
Qed.

Lemma handleKeypress_space avds k st s :
  name k = Some "space" ->
  handleKeypress avds (Some k) st s
  = (Ok (Continue (toggle st)), menuEvents avds (toggle st), s).
Proof.
  intros Hk. unfold handleKeypress.
  rewrite Hk, decide_False, decide_False, decide_True by done.
  by apply (bind_then_ret _ _ _ tt), displayMenu_run.
Qed.

(** The moves of the menu while the promise is pending. *)
Lemma menuStep_cases avds ev st st' :
  menuStep avds ev st st' ->
  (st' = toggle st /\ exists k, ev = Key (Some k) /\ name k = Some "space")
  \/ ((forall k, ev = Key (Some k) -> name k <> Some "space")
      /\ (st' = st \/ st' = moveUp avds st \/ st' = moveDown avds st
          \/ st' = armTimer st \/ st' = disarmTimer st)).
Proof.
  intros Hstep. specialize (Hstep Samples.launching).
  destruct ev as [[k|]|]; unfold listener in Hstep.
  - rewrite bind_emit in Hstep. unfold prepend in Hstep. cbn [fst] in Hstep.
    destruct (decide (name k = Some "space")) as [Hspace|Hspace].
    + left. rewrite (handleKeypress_space _ _ _ _ Hspace) in Hstep.
      split; [by injection Hstep|by exists k].
    + right. split; [by intros ? [= <-]|].
      destruct (decide (name k = Some "up")) as [Hup|Hup].
      { rewrite (handleKeypress_up _ _ _ _ Hup) in Hstep. right. left. by injection Hstep. }
      destruct (decide (name k = Some "down")) as [Hdown|Hdown].
      { rewrite (handleKeypress_down _ _ _ _ Hdown) in Hstep. right. right. left.
        by injection Hstep. }
      unfold handleKeypress in Hstep.
      rewrite !decide_False in Hstep by done.
      destruct (decide (name k = Some "return")).
      { destruct (filterSelected (selected st) 0 avds); simpl in Hstep; [|done].
        right. right. right. left. by injection Hstep. }
      destruct (decide (name k = Some "q")); [done|].
      destruct (decide (name k = Some "c")); [destruct (ctrl k); [done|]|];
        left; by injection Hstep.
  - right. split; [done|]. left. by injection Hstep.
  - right. split; [done|]. unfold handleTimer in Hstep.
    destruct (timers st) as [|n] eqn:Htimers.
    + left. by injection Hstep.
    + rewrite (bind_then_ret _ _ _ tt _ _ (displayMenu_run _ _ _)) in Hstep.
      do 4 right. injection Hstep as <-. unfold disarmTimer. by rewrite Htimers.
Qed.

Lemma initialMenu_boxes avds : boxesInRange avds (initialMenu avds).
Proof.
  intros i b Hi. unfold initialMenu, arrayFill in Hi. simpl in Hi.
  apply elem_of_list_to_map_2, list_elem_of_fmap in Hi as (n & [= -> _] & Hn).
  apply elem_of_seq in Hn. lia.
Qed.

Lemma menuStep_invariant avds ev st st' :
  cursorInRange avds st -> boxesInRange avds st ->
  menuStep avds ev st st' ->
  cursorInRange avds st' /\ boxesInRange avds st'.
Proof.
  unfold cursorInRange, boxesInRange. intros Hcursor Hboxes Hstep.
  destruct (menuStep_cases _ _ _ _ Hstep) as [[-> _]|[_ [->|[->|[->|[->| ->]]]]]]; simpl.
  - split; [done|]. intros i b. rewrite lookup_insert. case_decide; [intros _; lia|apply Hboxes].
  - done.
  - split; [|done]. destruct (0 <? currentIndex st) eqn:Hlt; [apply Z.ltb_lt in Hlt|]; lia.
  - split; [|done].
    destruct (currentIndex st <? Z.of_nat (length avds) - 1) eqn:Hlt;
      [apply Z.ltb_lt in Hlt|]; lia.
  - done.
  - done.
Qed.

Lemma menuRun_invariant avds st events st' :
  cursorInRange avds st -> boxesInRange avds st ->
  menuRun avds st events st' ->
  cursorInRange avds st' /\ boxesInRange avds st'.
Proof.
  intros Hcursor Hboxes Hrun. induction Hrun as [st|st ev st1 events st2 Hstep _ IH]; [done|].
  destruct (menuStep_invariant _ _ _ _ Hcursor Hboxes Hstep). by apply IH.
Qed.

Lemma filterSelected_ext (m m' : gmap Z bool) l : forall i,
  (forall k : nat, (k < length l)%nat -> m !! (i + Z.of_nat k) = m' !! (i + Z.of_nat k)) ->
  filterSelected m i l = filterSelected m' i l.
Proof.
  induction l as [|avd l IH]; intros i Hext; [done|]. simpl.
  assert (truthy m i = truthy m' i) as ->.
  { unfold truthy. specialize (Hext 0%nat). rewrite Z.add_0_r in Hext.
    by rewrite Hext by (simpl; lia). }
  rewrite (IH (i + 1)); [done|]. intros k Hk.
  replace (i + 1 + Z.of_nat k) with (i + Z.of_nat (S k)) by lia. apply Hext. simpl. lia.
Qed.

(** The number of checked boxes is the number of devices Enter would
    return, as long as the array has no entry outside the inventory. *)
Lemma selectedCount_filterSelected l : forall (m : gmap Z bool) i,
  0 <= i ->
  (forall j b, m !! j = Some b -> i <= j < i + Z.of_nat (length l)) ->
  selectedCount m = length (filterSelected m i l).
Proof.
  unfold selectedCount.
  induction l as [|avd l IH]; intros m i Hi Hdom.
  - assert (m = ∅) as ->.
    { apply map_empty. intros j. destruct (m !! j) eqn:Hj; [|done].
      apply Hdom in Hj. simpl in Hj. lia. }
    by rewrite map_filter_empty.
  - cbn [filterSelected]. destruct (m !! i) as [b|] eqn:Hmi.
    + assert (Hm : m = <[i := b]> (delete i m)) by (by rewrite insert_delete_eq, insert_id).
      assert (Hrest : filterSelected m (i + 1) l = filterSelected (delete i m) (i + 1) l).
      { apply filterSelected_ext. intros k _. by rewrite lookup_delete_ne by lia. }
      assert (Hsize : size (filter (fun kv : Z * bool => 0 <= kv.1 /\ kv.2 = true) (delete i m))
                      = length (filterSelected (delete i m) (i + 1) l)).
      { apply IH; [lia|]. intros j c Hj.
        apply lookup_delete_Some in Hj as [Hne Hj]. apply Hdom in Hj. simpl in Hj. lia. }
      unfold truthy. rewrite Hmi, Hrest. rewrite Hm at 1.
      destruct b; cbn [default from_option length]; unfold id; cbn [length]; rewrite <- Hsize.
      * rewrite map_filter_insert_True by (simpl; lia).
        rewrite map_size_insert_None; [done|].
        apply map_lookup_filter_None. left. apply lookup_delete_eq.
      * rewrite map_filter_insert_False by (simpl; intros [_ ?]; done).
        by rewrite delete_delete_eq.
    + unfold truthy. rewrite Hmi. simpl. apply IH; [lia|]. intros j b Hj.
      assert (j <> i) by (intros ->; congruence).
      apply Hdom in Hj. simpl in Hj. lia.
Qed.

End MenuMachine.

(** X3: with a non-empty inventory the cursor of the menu always points
    at a device: whatever keys and timer expiries the menu has gone
    through, [currentIndex] lies between 0 and the last index. From such a
    menu the listener answers the up key by moving the cursor one line
    up, or from the first line to the last, and the down key by moving it
    one line down, or from the last line to the first; the promise stays
    pending and the boxes are as they were. *)
Theorem menu_cursor_in_range (avds : list string) (events : list stdin_event) (st : menu) :
  avds <> [] ->
  menuRun avds (initialMenu avds) events st ->
  cursorInRange avds st
  /\ (forall k s, name k = Some "up" ->
        exists st',
          (listener avds (Key (Some k)) st s).1.1 = Ok (Continue st')
          /\ currentIndex st' = (if decide (currentIndex st = 0)
                                 then Z.of_nat (length avds) - 1
                                 else currentIndex st - 1)
          /\ selected st' = selected st)
  /\ (forall k s, name k = Some "down" ->
        exists st',
          (listener avds (Key (Some k)) st s).1.1 = Ok (Continue st')
          /\ currentIndex st' = (if decide (currentIndex st = Z.of_nat (length avds) - 1)
                                 then 0
                                 else currentIndex st + 1)
          /\ selected st' = selected st).
Proof.
  intros Hne Hrun.
  destruct (menuRun_invariant avds (initialMenu avds) events st) as [Hcursor _]; try done.
  - unfold cursorInRange. simpl. destruct avds; [done|]. simpl. lia.
  - apply initialMenu_boxes.
  - split; [done|]. unfold cursorInRange in Hcursor. split; intros k s Hk.
    + exists (moveUp avds st). unfold listener.
      rewrite bind_emit, (handleKeypress_up _ _ _ _ Hk). split_and!; [done| |done].
      simpl. case_decide as Hfirst.
      * by rewrite Hfirst.
      * rewrite (proj2 (Z.ltb_lt _ _)) by lia. done.
    + exists (moveDown avds st). unfold listener.
      rewrite bind_emit, (handleKeypress_down _ _ _ _ Hk). split_and!; [done| |done].
      simpl. case_decide as Hlast.
      * by rewrite Hlast, Z.ltb_irrefl.
      * rewrite (proj2 (Z.ltb_lt _ _)) by lia. done.
Qed.

(** X4: the boxes of the menu change by the space key only. Space flips
    the box under the cursor and leaves every other box and the cursor as
    they are; any other event that leaves the promise pending (a move, an
    unknown key, an empty confirmation, a redraw) leaves all boxes as they
    are; space pressed twice leaves every box as it was. *)
Theorem menu_boxes (avds : list string) (ev : stdin_event) (st st' : menu) :
  menuStep avds ev st st' ->
  ((exists k, ev = Key (Some k) /\ name k = Some "space") ->
   currentIndex st' = currentIndex st
   /\ (forall i, truthy (selected st') i
                 = if decide (i = currentIndex st) then negb (truthy (selected st) i)
                   else truthy (selected st) i)
   /\ (forall i, truthy (selected (toggle st')) i = truthy (selected st) i))
  /\ ((forall k, ev = Key (Some k) -> name k <> Some "space") ->
      selected st' = selected st).
Proof.
  intros Hstep.
  assert (Htoggle : forall st0 i,
             truthy (selected (toggle st0)) i
             = if decide (i = currentIndex st0) then negb (truthy (selected st0) i)
               else truthy (selected st0) i).
  { intros st0 i. unfold toggle, truthy. simpl. rewrite lookup_insert.
    repeat case_decide; simplify_eq; done. }
  destruct (menuStep_cases _ _ _ _ Hstep) as [[-> (k & -> & Hk)]|[Hother Hst']].
  - split.
    + intros _. split_and!; [done|apply Htoggle|].
      intros i. rewrite !Htoggle. simpl. case_decide; [|done]. by rewrite negb_involutive.
    + intros Hnot. by destruct (Hnot k).
  - split.
    + intros (k & -> & Hk). by destruct (Hother k).
    + intros _. by destruct Hst' as [->|[->|[->|[->| ->]]]].
Qed.

(** X5: the count the menu displays is the size of the selection Enter
    would hand over: with a non-empty inventory, in every menu reached
    from the initial one, [selectedCount] is the number of devices
    [filterSelected] returns. *)
Theorem menu_count_is_selection (avds : list string) (events : list stdin_event) (st : menu) :
  avds <> [] ->
  menuRun avds (initialMenu avds) events st ->
  selectedCount (selected st) = length (filterSelected (selected st) 0 avds).
Proof.
  intros Hne Hrun.
  destruct (menuRun_invariant avds (initialMenu avds) events st) as [_ Hboxes]; try done.
  - unfold cursorInRange. simpl. destruct avds; [done|]. simpl. lia.
  - apply initialMenu_boxes.
  - apply selectedCount_filterSelected; [done|]. intros j b Hj. apply Hboxes in Hj. lia.
Qed.

(** X3 on a two-device menu: from the first line the up key leads to the
    second, which is the last. *)
Lemma menu_cursor_in_range_witness :
  ["Pixel_5"; "Pixel_7"] <> []
  /\ menuRun ["Pixel_5"; "Pixel_7"] (initialMenu ["Pixel_5"; "Pixel_7"]) []
       (initialMenu ["Pixel_5"; "Pixel_7"])
  /\ exists st',
       (listener ["Pixel_5"; "Pixel_7"] (Samples.key "up") (initialMenu ["Pixel_5"; "Pixel_7"])
          Samples.quitting).1.1 = Ok (Continue st')
       /\ currentIndex st' = 1.
Proof.
  split; [discriminate|]. split; [apply menuRun_nil|].
  destruct (menu_cursor_in_range ["Pixel_5"; "Pixel_7"] [] _ ltac:(discriminate)
              (menuRun_nil _ _)) as (_ & Hup & _).
  destruct (Hup {| name := Some "up"; ctrl := false |} Samples.quitting eq_refl)
    as (st' & Hstep & Hindex & _).
  exists st'. split; [exact Hstep|exact Hindex].
Defined.

(** X4 on a two-device menu: space on the first line. *)
Lemma menu_boxes_witness :
  menuStep ["Pixel_5"; "Pixel_7"] (Samples.key "space") (initialMenu ["Pixel_5"; "Pixel_7"])
    (toggle (initialMenu ["Pixel_5"; "Pixel_7"]))
  /\ truthy (selected (toggle (initialMenu ["Pixel_5"; "Pixel_7"]))) 0 = true
  /\ truthy (selected (toggle (initialMenu ["Pixel_5"; "Pixel_7"]))) 1 = false.
Proof.
  assert (Hstep : menuStep ["Pixel_5"; "Pixel_7"] (Samples.key "space")
                    (initialMenu ["Pixel_5"; "Pixel_7"])
                    (toggle (initialMenu ["Pixel_5"; "Pixel_7"]))).
  { intros s. unfold listener, Samples.key. rewrite bind_emit. by rewrite handleKeypress_space by reflexivity. }
  split; [exact Hstep|].
  destruct (menu_boxes _ _ _ _ Hstep) as [Hspace _].
  destruct Hspace as (_ & Hflip & _); [by eexists|].
  split; [by rewrite Hflip|by rewrite Hflip].
Defined.

(** X5 on a two-device menu after down and space. *)
Lemma menu_count_is_selection_witness :
  ["Pixel_5"; "Pixel_7"] <> []
  /\ menuRun ["Pixel_5"; "Pixel_7"] (initialMenu ["Pixel_5"; "Pixel_7"])
       [Samples.key "down"; Samples.key "space"]
       (toggle (moveDown ["Pixel_5"; "Pixel_7"] (initialMenu ["Pixel_5"; "Pixel_7"])))
  /\ selectedCount
       (selected (toggle (moveDown ["Pixel_5"; "Pixel_7"] (initialMenu ["Pixel_5"; "Pixel_7"]))))
     = length
         (filterSelected
            (selected (toggle (moveDown ["Pixel_5"; "Pixel_7"]
                                 (initialMenu ["Pixel_5"; "Pixel_7"]))))
            0 ["Pixel_5"; "Pixel_7"]).
Proof.
  assert (Hrun : menuRun ["Pixel_5"; "Pixel_7"] (initialMenu ["Pixel_5"; "Pixel_7"])
                   [Samples.key "down"; Samples.key "space"]
                   (toggle (moveDown ["Pixel_5"; "Pixel_7"]
                              (initialMenu ["Pixel_5"; "Pixel_7"])))).
  { eapply menuRun_cons; [|eapply menuRun_cons; [|apply menuRun_nil]].
    - intros s. unfold listener, Samples.key. rewrite bind_emit. by rewrite handleKeypress_down by reflexivity.
    - intros s. unfold listener, Samples.key. rewrite bind_emit. by rewrite handleKeypress_space by reflexivity. }
  split; [discriminate|]. split; [exact Hrun|].
  exact (menu_count_is_selection ["Pixel_5"; "Pixel_7"] _ _ ltac:(discriminate) Hrun).
Defined.

(** ** The schedulers in any environment *)

Section AnyEnvironment.

Lemma launchAVDStart_any avd s :
  launchAVDStart avd s
  = (Ok (default None (head (execs s))), startEvents (platform s) avd,
     set_execs (tail (execs s)) s).
Proof.
  unfold launchAVDStart, exec, bind, consoleLog, emit, gets. simpl.
  destruct (execs s) eqn:Hexecs; simpl; [|done]. by rewrite <- Hexecs, set_execs_id.
Qed.

Lemma mapM_start_any devices : forall s,
  exists promises s',
    mapM (fun avd => bind (launchAVDStart avd) (fun pending => ret (avd, pending))) devices s
    = (Ok promises, concat (startEvents (platform s) <$> devices), s')
    /\ promises.*1 = devices.
Proof.
  induction devices as [|avd devices IH]; intros s; [by exists [], s|].
  cbn [mapM].
  destruct (IH (set_execs (tail (execs s)) s)) as (promises & s' & Hrest & Hfst).
  exists ((avd, default None (head (execs s))) :: promises), s'.
  rewrite (bind_ok _ _ _ (avd, default None (head (execs s))) (startEvents (platform s) avd)
             (set_execs (tail (execs s)) s)).
  2: { by rewrite (bind_ok _ _ _ _ _ _ (launchAVDStart_any _ _)). }
  rewrite (bind_ok _ _ _ _ _ _ Hrest). unfold prepend, ret. cbn [fst snd].
  rewrite app_nil_r. split; [done|]. by rewrite fmap_cons, Hfst.
Qed.

Lemma spawned_starts platform devices :
  spawned (concat (startEvents platform <$> devices)) = getEmulatorCommand platform <$> devices.
Proof.
  induction devices as [|avd l IH]; [done|].
  by rewrite fmap_cons, concat_cons, spawned_app, IH.
Qed.

Lemma settled_starts platform devices :
  settled (concat (startEvents platform <$> devices)) = [].
Proof.
  induction devices as [|avd l IH]; [done|].
  by rewrite fmap_cons, concat_cons, settled_app, IH.
Qed.

Lemma willSettle_sublist promises : sublist (willSettle promises).*1 promises.*1.
Proof.
  unfold willSettle. induction promises as [|[avd [r|]] promises IH]; simpl.
  - constructor.
  - by constructor.
  - by constructor.
Qed.

(** The trace of a parallel launch, in any environment: the spawns of all
    the selected devices, then the callbacks of those that report. *)
Lemma launchAVDsParallel_any s :
  exists issued delivered,
    (launchAVDsParallel s).1.2 = issued ++ delivered
    /\ spawned issued = getEmulatorCommand (platform s) <$> selectedAVDs s
    /\ settled issued = []
    /\ spawned delivered = []
    /\ settled delivered ⊆+ selectedAVDs s.
Proof.
  unfold launchAVDsParallel. rewrite bind_consoleLog, bind_gets.
  destruct (mapM_start_any (selectedAVDs s) s) as (promises & s' & Hstart & Hfst).
  rewrite (bind_ok _ _ _ _ _ _ Hstart). unfold promiseAll.
  destruct (settleAll_run (length (willSettle promises)) (willSettle promises) s')
    as (evs & s'' & Hrun & Hspawned & Hsettled & _); [done|].
  rewrite (bind_ok _ _ _ _ _ _ Hrun).
  exists (ConsoleLog ("🚀 Starting all selected AVDs simultaneously..." +:+ nl)
            :: concat (startEvents (platform s) <$> selectedAVDs s)), evs.
  split_and!.
  - unfold prepend. destruct (_ =? _)%nat; simpl; by rewrite app_nil_r.
  - apply spawned_starts.
  - apply settled_starts.
  - done.
  - rewrite Hsettled, <- Hfst. apply sublist_submseteq, willSettle_sublist.
Qed.

Lemma launchAVD_cases avd s :
  (exists r rest, execs s = Some r :: rest
                  /\ launchAVD avd s = (Ok tt, launchEvents (platform s) (avd, r), set_execs rest s))
  \/ (exists s', launchAVD avd s = (Blocked, startEvents (platform s) avd, s')).
Proof.
  destruct (execs s) as [|[r|] rest] eqn:Hexecs.
  - right. pose proof (launchAVD_pending avd s) as Hpending. rewrite Hexecs in Hpending.
    destruct (launchAVD avd s) as [[res evs] s']. simpl in Hpending.
    injection (Hpending ltac:(by left)) as -> ->. by eexists.
  - left. exists r, rest. split; [done|]. by apply launchAVD_run.
  - right. pose proof (launchAVD_pending avd s) as Hpending. rewrite Hexecs in Hpending.
    destruct (launchAVD avd s) as [[res evs] s']. simpl in Hpending.
    injection (Hpending ltac:(by right)) as -> ->. by eexists.
Qed.

Lemma spawned_start platform avd : spawned (startEvents platform avd) = [getEmulatorCommand platform avd].
Proof. done. Qed.

Lemma settled_start platform avd : settled (startEvents platform avd) = [].
Proof. done. Qed.

(** The delayed loop in any environment spawns the devices still to do in
    order, up to some point, and settles them in order, no further than it
    has spawned. *)
Lemma delayedLoop_any todo : forall done s fuel,
  selectedAVDs s = done ++ todo ->
  exists k k',
    (k' <= k)%nat
    /\ spawned (delayedLoop fuel (length done) s).1.2
       = getEmulatorCommand (platform s) <$> take k todo
    /\ settled (delayedLoop fuel (length done) s).1.2 = take k' todo.
Proof.
  induction todo as [|avd todo IH]; intros done s fuel Hsel.
  - exists 0%nat, 0%nat. destruct fuel; [done|]. cbn [delayedLoop].
    by rewrite bind_gets, Hsel, app_nil_r, lookup_ge_None_2.
  - destruct fuel as [|fuel]; [by exists 0%nat, 0%nat|].
    cbn [delayedLoop]. rewrite bind_gets, Hsel, list_lookup_middle by done.
    destruct (launchAVD_cases avd s) as [(r & rest & Hexecs & Hrun)|[s' Hrun]].
    + rewrite (bind_ok _ _ _ _ _ _ Hrun).
      specialize (IH (done ++ [avd]) (set_execs rest s) fuel).
      rewrite length_app, Nat.add_1_r in IH.
      destruct IH as (k & k' & Hle & Hspawned & Hsettled);
        [simpl; by rewrite Hsel, <- app_assoc|].
      exists (S k), (S k'). split; [lia|].
      set (wait := if Z.of_nat (length done) <? Z.of_nat (length (done ++ avd :: todo)) - 1
                   then waitEvents else []).
      assert (Hwait : forall f : unit -> M unit,
                 bind (if Z.of_nat (length done) <? Z.of_nat (length (done ++ avd :: todo)) - 1
                       then bind (consoleLog ("⏳ Waiting 3 seconds before next launch..." +:+ nl))
                                 (fun _ => sleep 3000)
                       else ret tt) f (set_execs rest s)
                 = prepend wait (f tt (set_execs rest s))).
      { intros f. unfold wait. destruct (_ <? _).
        - by rewrite (bind_ok _ _ _ tt waitEvents (set_execs rest s)).
        - rewrite bind_ret. unfold prepend. by destruct (f tt _) as [[? ?] ?]. }
      rewrite Hwait. unfold prepend. cbn [fst snd].
      rewrite !spawned_app, !settled_app, spawned_launch, settled_launch, Hspawned, Hsettled.
      assert (spawned wait = [] /\ settled wait = []) as [-> ->]
        by (unfold wait; by destruct (_ <? _)).
      done.
    + rewrite (bind_pending _ _ _ _ _ Hrun). exists 1%nat, 0%nat.
      split; [lia|]. cbn [fst snd]. by rewrite take_0.
Qed.

Lemma sequentialLoop_any devices : forall s,
  exists k k',
    (k' <= k)%nat
    /\ spawned (sequentialLoop devices s).1.2
       = getEmulatorCommand (platform s) <$> take k devices
    /\ settled (sequentialLoop devices s).1.2 = take k' devices.
Proof.
  induction devices as [|avd devices IH]; intros s; [by exists 0%nat, 0%nat|].
  cbn [sequentialLoop]. rewrite bind_gets.
  pose proof (ask_run (useInquirer s) avd s) as Hask.
  destruct (lines s) as [|ack acks].
  - rewrite (bind_pending _ _ _ _ _ Hask). exists 0%nat, 0%nat.
    split; [done|]. cbn [fst snd]. by destruct (useInquirer s).
  - rewrite (bind_ok _ _ _ _ _ _ Hask).
    assert (Hprompt : forall x : result unit * list event * state,
               spawned (prepend [launchPrompt (useInquirer s) avd; LineRead ack] x).1.2
               = spawned x.1.2
               /\ settled (prepend [launchPrompt (useInquirer s) avd; LineRead ack] x).1.2
                  = settled x.1.2).
    { intros x. unfold prepend. cbn [fst snd]. by destruct (useInquirer s). }
    destruct (Hprompt (bind (launchAVD avd)
                         (fun _ => bind (consoleLog EmptyString) (fun _ => sequentialLoop devices))
                         (set_lines acks s))) as [-> ->].
    destruct (launchAVD_cases avd (set_lines acks s)) as [(r & rest & Hexecs & Hrun)|[s' Hrun]].
    + rewrite (bind_ok _ _ _ _ _ _ Hrun), bind_consoleLog.
      destruct (IH (set_execs rest (set_lines acks s))) as (k & k' & Hle & Hspawned & Hsettled).
      exists (S k), (S k'). split; [lia|]. unfold prepend. cbn [fst snd].
      by rewrite !spawned_app, !settled_app, spawned_launch, settled_launch, Hspawned, Hsettled.
    + rewrite (bind_pending _ _ _ _ _ Hrun). exists 1%nat, 0%nat.
      split; [lia|]. cbn [fst snd]. by rewrite take_0.
Qed.

End AnyEnvironment.

(** X6: a parallel launch issues the spawn of every selected device, in
    the order of the selection, before any launch settles, and whatever the
    spawns report later, even when some never report: its trace is the
    spawns followed by the callbacks, and no spawn is issued among the
    callbacks. *)
Theorem launchAVDsParallel_spawns_first (s : state) :
  exists issued delivered,
    (launchAVDsParallel s).1.2 = issued ++ delivered
    /\ spawned issued = getEmulatorCommand (platform s) <$> selectedAVDs s
    /\ settled issued = []
    /\ spawned delivered = [].
Proof.
  destruct (launchAVDsParallel_any s) as (issued & delivered & ? & ? & ? & ? & _).
  by exists issued, delivered.
Qed.

(** X7: in every mode and whatever the environment does (spawns that
    fail, that never report, acknowledgements that never come), the
    commands spawned are the commands of the selected devices up to some
    position, in order: no device outside the selection is spawned, none
    out of turn, none twice. The launches that settle are launches of
    selected devices, each at most as often as it is selected, and no more
    launches settle than were spawned. *)
Theorem launchAVDs_spawns_prefix (mode : launchMode) (s : state) :
  spawned (launchAVDs mode s).1.2 `prefix_of` (getEmulatorCommand (platform s) <$> selectedAVDs s)
  /\ settled (launchAVDs mode s).1.2 ⊆+ selectedAVDs s
  /\ (length (settled (launchAVDs mode s).1.2) <= length (spawned (launchAVDs mode s).1.2))%nat.
Proof.
  assert (Hprefix : forall (evs : list event) k k',
             (k' <= k)%nat ->
             spawned evs = getEmulatorCommand (platform s) <$> take k (selectedAVDs s) ->
             settled evs = take k' (selectedAVDs s) ->
             spawned evs `prefix_of` (getEmulatorCommand (platform s) <$> selectedAVDs s)
             /\ settled evs ⊆+ selectedAVDs s
             /\ (length (settled evs) <= length (spawned evs))%nat).
  { intros evs k k' Hle -> ->. split_and!.
    - rewrite <- (take_drop k (selectedAVDs s)) at 2. rewrite fmap_app. by eexists.
    - apply sublist_submseteq, sublist_take.
    - rewrite length_fmap, !length_take. lia. }
  destruct mode; simpl.
  - destruct (launchAVDsParallel_any s)
      as (issued & delivered & -> & Hspawned & Hsettled & Hspawned' & Hsettled').
    rewrite spawned_app, settled_app, Hspawned, Hsettled, Hspawned', app_nil_r. split_and!.
    + done.
    + done.
    + rewrite length_fmap. by apply submseteq_length.
  - unfold launchAVDsDelayed. rewrite bind_consoleLog, bind_gets.
    destruct (delayedLoop_any (selectedAVDs s) [] s (S (length (selectedAVDs s))) eq_refl)
      as (k & k' & Hle & Hspawned & Hsettled).
    unfold prepend. cbn [fst snd]. by apply (Hprefix _ k k').
  - unfold launchAVDsSequential. rewrite bind_consoleLog, bind_gets.
    destruct (sequentialLoop_any (selectedAVDs s) s) as (k & k' & Hle & Hspawned & Hsettled).
    unfold prepend. cbn [fst snd]. by apply (Hprefix _ k k').
Qed.

Section Stall.

Lemma delayedLoop_hang rs : forall before todo tail s fuel,
  selectedAVDs s = before ++ todo ->
  execs s = (Some <$> rs) ++ tail ->
  default None (head tail) = None ->
  (length rs < length todo)%nat ->
  (length todo < fuel)%nat ->
  exists evs s',
    delayedLoop fuel (length before) s = (Blocked, evs, s')
    /\ spawned evs = getEmulatorCommand (platform s) <$> take (S (length rs)) todo
    /\ settled evs = take (length rs) todo
    /\ sleeps evs = replicate (length rs) 3000.
Proof.
  induction rs as [|r rs IH]; intros before todo tail s fuel Hsel Hexecs Hhang Hlen Hfuel;
    (destruct todo as [|avd todo]; [simpl in Hlen; lia|]);
    (destruct fuel as [|fuel]; [simpl in Hfuel; lia|]);
    cbn [delayedLoop]; rewrite bind_gets, Hsel, list_lookup_middle by done.
  - simpl in Hexecs.
    destruct (launchAVD_cases avd s) as [(r & rest & Hexecs' & _)|[s' Hrun]].
    { rewrite Hexecs in Hexecs'. rewrite Hexecs' in Hhang. done. }
    rewrite (bind_pending _ _ _ _ _ Hrun). eexists _, _. split; [done|].
    by rewrite take_0.
  - rewrite fmap_cons in Hexecs.
    change (execs s = Some r :: ((Some <$> rs) ++ tail)) in Hexecs.
    rewrite (bind_ok _ _ _ _ _ _ (launchAVD_run _ _ _ _ Hexecs)).
    simpl in Hlen, Hfuel.
    destruct (IH (before ++ [avd]) todo tail (set_execs ((Some <$> rs) ++ tail) s) fuel)
      as (evs & s' & Hrun & Hspawned & Hsettled & Hsleeps); try done; try lia.
    { simpl. by rewrite Hsel, <- app_assoc. }
    rewrite length_app, Nat.add_1_r in Hrun.
    rewrite length_app. cbn [length].
    rewrite (proj2 (Z.ltb_lt _ _)) by (destruct todo; simpl in *; lia).
    rewrite (bind_ok _ _ _ tt waitEvents (set_execs ((Some <$> rs) ++ tail) s)) by done.
    rewrite Hrun. unfold prepend. cbn [fst snd].
    exists (launchEvents (platform s) (avd, r) ++ waitEvents ++ evs), s'.
    split; [done|]. unfold sleeps in *.
    rewrite !spawned_app, !settled_app, !omap_app, spawned_launch, settled_launch,
      Hspawned, Hsettled, Hsleeps.
    assert (omap (fun e => match e with Sleep ms => Some ms | _ => None end)
              (launchEvents (platform s) (avd, r)) = []) as ->;
      [destruct r as [[message|] stdout|message];
         unfold launchEvents, settleEvents; cbn [fst snd]; try done;
         by destruct (errorEvent_cases (failureFormat avd) message) as [-> | ->]|].
    done.
Qed.

End Stall.

(** X8: in delayed mode a spawn that never reports stalls the batch. When
    the spawn of the device at position [k] is the first that never
    reports, the launch stays pending for ever; the devices up to that
    position have been spawned and those before it have settled, each after
    its wait, and no device after position [k] is ever spawned. *)
Theorem launchAVDsDelayed_stalls (s : state) (k : nat) :
  (k < length (selectedAVDs s))%nat ->
  hangsAt k (execs s) ->
  (launchAVDsDelayed s).1.1 = Blocked
  /\ spawned (launchAVDsDelayed s).1.2
     = getEmulatorCommand (platform s) <$> take (S k) (selectedAVDs s)
  /\ settled (launchAVDsDelayed s).1.2 = take k (selectedAVDs s)
  /\ sleeps (launchAVDsDelayed s).1.2 = replicate k 3000.
Proof.
  intros Hk [(rs & tail & Hexecs & Hrs)%allSettle_inv Hhang].
  assert (Htail : default None (head tail) = None).
  { rewrite Hexecs, lookup_app_r in Hhang by (rewrite length_fmap; lia).
    rewrite length_fmap, Hrs, Nat.sub_diag in Hhang. by destruct tail. }
  destruct (delayedLoop_hang rs [] (selectedAVDs s) tail s (S (length (selectedAVDs s))))
    as (evs & s' & Hrun & Hspawned & Hsettled & Hsleeps); try done; try lia.
  cbn [length] in Hrun. unfold launchAVDsDelayed. rewrite bind_consoleLog, bind_gets.
  rewrite Hrun. unfold prepend. cbn [fst snd]. subst k.
  split_and!; done.
Qed.

(** X8 on the sample launch, when only the first spawn reports. *)
Lemma launchAVDsDelayed_stalls_witness :
  (1 < length (selectedAVDs (set_execs [Some (Callback None EmptyString)] Samples.launching)))%nat
  /\ hangsAt 1 (execs (set_execs [Some (Callback None EmptyString)] Samples.launching))
  /\ (launchAVDsDelayed (set_execs [Some (Callback None EmptyString)] Samples.launching)).1.1
     = Blocked
  /\ spawned (launchAVDsDelayed
                (set_execs [Some (Callback None EmptyString)] Samples.launching)).1.2
     = [getEmulatorCommand "linux" "Pixel_5"; getEmulatorCommand "linux" "Nexus_6"].
Proof.
  assert (Hhang : hangsAt 1 (execs (set_execs [Some (Callback None EmptyString)]
                                      Samples.launching)))
    by (split; reflexivity).
  split; [simpl; lia|]. split; [exact Hhang|].
  destruct (launchAVDsDelayed_stalls
              (set_execs [Some (Callback None EmptyString)] Samples.launching) 1)
    as (Hblocked & Hspawned & _); [simpl; lia|exact Hhang|].
  split; [exact Hblocked|exact Hspawned].
Defined.

(** ** Running the pipeline *)

Section RunSteps.

Lemma bindR_ok {A B} (m : R A) (f : A -> R B) ss a evs ss1 :
  m ss = (Ok a, evs, ss1) -> bindR m f ss = prependR evs (f a ss1).
Proof. unfold bindR, prependR. intros ->. by destruct (f a ss1) as [[? ?] ?]. Qed.

Lemma bindR_rejected {A B} (m : R A) (f : A -> R B) ss e evs ss1 :
  m ss = (Rejected e, evs, ss1) -> bindR m f ss = (Rejected e, evs, ss1).
Proof. unfold bindR. by intros ->. Qed.

Lemma bindR_exited {A B} (m : R A) (f : A -> R B) ss c evs ss1 :
  m ss = (Exited c, evs, ss1) -> bindR m f ss = (Exited c, evs, ss1).
Proof. unfold bindR. by intros ->. Qed.

Lemma bindR_blocked {A B} (m : R A) (f : A -> R B) ss evs ss1 :
  m ss = (Blocked, evs, ss1) -> bindR m f ss = (Blocked, evs, ss1).
Proof. unfold bindR. by intros ->. Qed.

Lemma bindR_getsR {A B} (g : state -> A) (f : A -> R B) ss :
  bindR (getsR g) f ss = f (g (launcher ss)) ss.
Proof.
  rewrite (bindR_ok _ _ _ (g (launcher ss)) [] ss) by done.
  unfold prependR. by destruct (f _ ss) as [[? ?] ?].
Qed.

Lemma bindR_retR {A B} (a : A) (f : A -> R B) ss : bindR (retR a) f ss = f a ss.
Proof.
  rewrite (bindR_ok _ _ _ a [] ss) by done.
  unfold prependR. by destruct (f a ss) as [[? ?] ?].
Qed.

Lemma bindR_emitR {B} e (f : unit -> R B) ss : bindR (emitR e) f ss = prependR [e] (f tt ss).
Proof. by apply bindR_ok. Qed.

Lemma liftR_run {A} (m : M A) ss r evs s' :
  m (launcher ss) = (r, evs, s') ->
  liftR m ss = (r, Core <$> evs, {| launcher := s'; confirms := confirms ss |}).
Proof. unfold liftR. by intros ->. Qed.

Lemma prependR_prependR {A} evs evs' (x : result A * list runEvent * session) :
  prependR evs (prependR evs' x) = prependR (evs ++ evs') x.
Proof. unfold prependR. simpl. by rewrite app_assoc. Qed.

Lemma lowerChar_y c : lowerChar c = "y"%char <-> c = "y"%char \/ c = "Y"%char.
Proof.
  destruct c as [[] [] [] [] [] [] [] []]; vm_compute; split;
    solve [ discriminate | intros [H|H]; discriminate H | auto ].
Qed.

Lemma startsWith_y answer :
  startsWith (toLowerCase answer) "y" = true
  <-> exists rest, answer = String "y" rest \/ answer = String "Y" rest.
Proof.
  destruct answer as [|c rest]; simpl.
  - split; [done|]. by intros (? & [?|?]).
  - assert (Hnil : forall s, startsWith s EmptyString = true) by (by intros []).
    case_decide as Hc.
    + rewrite Hnil. split; [|done]. intros _. exists rest.
      apply lowerChar_y in Hc as [->| ->]; auto.
    + split; [done|]. intros (rest' & [[= -> _]|[= -> _]]); by destruct Hc.
Qed.

End RunSteps.

(** X9: with the built-in interface the launch is confirmed exactly when
    the answer begins with y or Y, whatever follows; every other answer,
    the empty line included, declines. The question resolves either way
    and consumes that one line. *)
Theorem confirmLaunch_builtin (ss : session) (answer : string) (rest : list string) :
  useInquirer (launcher ss) = false ->
  lines (launcher ss) = answer :: rest ->
  exists confirmed,
    confirmLaunch ss
    = (Ok confirmed,
       [Core (RlQuestion "🚀 Proceed with launching the selected AVDs? (y/n): ");
        Core (LineRead answer)],
       {| launcher := set_lines rest (launcher ss); confirms := confirms ss |})
    /\ (confirmed = true <->
        exists tail, answer = String "y" tail \/ answer = String "Y" tail)
    /\ (answer = EmptyString -> confirmed = false).
Proof.
  intros Hui Hlines. exists (startsWith (toLowerCase answer) "y"). split_and!.
  - unfold confirmLaunch. rewrite bindR_getsR, Hui.
    assert (Hq : question "🚀 Proceed with launching the selected AVDs? (y/n): " (launcher ss)
                 = (Ok answer,
                    [RlQuestion "🚀 Proceed with launching the selected AVDs? (y/n): ";
                     LineRead answer],
                    set_lines rest (launcher ss))).
    { unfold question, readLine, bind, emit. by rewrite Hlines. }
    by rewrite (bindR_ok _ _ _ _ _ _ (liftR_run _ _ _ _ _ Hq)).
  - apply startsWith_y.
  - by intros ->.
Qed.

(** X9 on the answer Yes and on the bare Enter key. *)
Lemma confirmLaunch_builtin_witness :
  useInquirer Samples.choosing = false
  /\ (confirmLaunch {| launcher := set_lines ["Yes"] Samples.choosing; confirms := [] |}).1.1
     = Ok true
  /\ (confirmLaunch {| launcher := set_lines [EmptyString] Samples.choosing; confirms := [] |}).1.1
     = Ok false.
Proof.
  split; [reflexivity|].
  destruct (confirmLaunch_builtin
              {| launcher := set_lines ["Yes"] Samples.choosing; confirms := [] |}
              "Yes" [] eq_refl eq_refl) as (yes & Hyes & Hiff & _).
  destruct (confirmLaunch_builtin
              {| launcher := set_lines [EmptyString] Samples.choosing; confirms := [] |}
              EmptyString [] eq_refl eq_refl) as (no & Hno & _ & Hempty).
  rewrite Hyes, Hno. simpl. split.
  - f_equal. apply Hiff. exists "es". by right.
  - f_equal. by apply Hempty.
Defined.

(** ** What the methods leave of the host *)

Section Frames.

Lemma sameHost_frame : Frame sameHost.
Proof.
  split; unfold sameHost; simpl; try done.
  by intros s1 s2 s3 (-> & -> & ->) (-> & -> & ->).
Qed.

Lemma sameJob_frame : Frame sameJob.
Proof.
  split; unfold sameJob, sameHost; simpl; try done.
  by intros s1 s2 s3 [(-> & -> & ->) ->] [(-> & -> & ->) ->].
Qed.

Lemma sameJob_sameHost s s' : sameJob s s' -> sameHost s s'.
Proof. by intros [? _]. Qed.

Lemma sameHost_trans s1 s2 s3 : sameHost s1 s2 -> sameHost s2 s3 -> sameHost s1 s3.
Proof. apply sameHost_frame. Qed.

End Frames.

#[local] Existing Instance sameHost_frame.
#[local] Existing Instance sameJob_frame.

Section Acting.

Context {rel : state -> state -> Prop} `{!Frame rel} (quiet : bool).

Lemma acts_ret {A} (a : A) : acts rel quiet (ret a).
Proof. intros s. split_and!; try done. apply frame_refl. Qed.

Lemma acts_gets {A} (g : state -> A) : acts rel quiet (gets g).
Proof. intros s. split_and!; try done. apply frame_refl. Qed.

Lemma acts_block {A} : acts rel quiet (@block A).
Proof. intros s. split_and!; try done. apply frame_refl. Qed.

Lemma acts_reject {A} message : acts rel quiet (@reject A message).
Proof. intros s. split_and!; try done. apply frame_refl. Qed.

Lemma acts_exit {A} : acts rel quiet (@processExit A 0).
Proof. intros s. split_and!; try done. apply frame_refl. Qed.

Lemma acts_emit e : spawned [e] = [] -> acts rel quiet (emit e).
Proof.
  intros He s. unfold emit. cbn [fst snd]. rewrite He.
  split_and!; try done. apply frame_refl.
Qed.

Lemma acts_consoleLog text : acts rel quiet (consoleLog text).
Proof. by apply acts_emit. Qed.

Lemma acts_consoleError text : acts rel quiet (consoleError text).
Proof. by apply acts_emit. Qed.

Lemma acts_consoleErrorWith format argument : acts rel quiet (consoleErrorWith format argument).
Proof. apply acts_emit. by destruct (errorEvent_cases format argument) as [-> | ->]. Qed.

Lemma acts_update (g : state -> state) evs :
  (forall s, rel s (g s)) -> (forall s, execs (g s) = execs s) -> spawned evs = [] ->
  acts rel quiet (fun s => (Ok tt, evs, g s)).
Proof. intros Hg Hexecs Hevs s. cbn [fst snd]. rewrite Hevs. by split_and!. Qed.

Lemma acts_bind {A B} (m : M A) (f : A -> M B) :
  acts rel quiet m -> (forall a, acts rel quiet (f a)) -> acts rel quiet (bind m f).
Proof.
  intros Hm Hf s. unfold bind.
  destruct (Hm s) as (Hrel & Hexecs & Hquiet & Hexit).
  destruct (m s) as [[[a|e|c|] evs] s1]; simpl in *; try done.
  destruct (Hf a s1) as (Hrel' & Hexecs' & Hquiet' & Hexit').
  destruct (f a s1) as [[r evs'] s2]; simpl in *. split_and!; try done.
  - by apply (frame_trans _ s1).
  - by rewrite Hexecs', Hexecs, drop_drop, spawned_app, length_app.
  - intros Hq. by rewrite spawned_app, Hquiet, Hquiet'.
Qed.

Lemma acts_readLine : acts rel quiet readLine.
Proof.
  intros s. unfold readLine. destruct (lines s); simpl; split_and!; try done.
  - apply frame_refl.
  - apply frame_lines.
Qed.

Lemma acts_question query : acts rel quiet (question query).
Proof. apply acts_bind; [by apply acts_emit|]. intros _. apply acts_readLine. Qed.

Lemma acts_inquirerInput message : acts rel quiet (inquirerInput message).
Proof. apply acts_bind; [by apply acts_emit|]. intros _. apply acts_readLine. Qed.

Lemma acts_inquirerList message : acts rel quiet (inquirerList message).
Proof.
  apply acts_bind; [by apply acts_emit|]. intros _ s.
  destruct (modes s); simpl; split_and!; try done.
  - apply frame_refl.
  - apply frame_modes.
Qed.

Lemma acts_pick n : acts rel quiet (pick n).
Proof.
  intros s. unfold pick. destruct (picks s); simpl; split_and!; try done.
  - apply frame_refl.
  - apply frame_picks.
Qed.

Lemma acts_await {A} (pending : option A) : acts rel quiet (await pending).
Proof. destruct pending; [apply acts_ret|apply acts_block]. Qed.

Lemma acts_setRawMode mode : acts rel quiet (setRawMode mode).
Proof.
  unfold setRawMode. apply acts_bind; [apply acts_gets|].
  intros [message|]; [apply acts_reject|by apply acts_emit].
Qed.

Lemma acts_forEachFrom {A} (body : A -> nat -> M unit) l :
  (forall x index, acts rel quiet (body x index)) ->
  forall index, acts rel quiet (forEachFrom index body l).
Proof.
  intros Hbody. induction l as [|x l IH]; intros index; simpl; [apply acts_ret|].
  apply acts_bind; [apply Hbody|]. intros _. apply IH.
Qed.

End Acting.

(** One step through a method built from the primitives above. *)
Ltac acting :=
  repeat first
    [ progress cbv zeta
    | match goal with H : context [acts] |- _ => solve [apply H] end
    | apply acts_ret | apply acts_gets | apply acts_block | apply acts_exit
    | apply acts_consoleLog | apply acts_consoleError | apply acts_consoleErrorWith
    | apply acts_readLine | apply acts_question | apply acts_inquirerInput
    | apply acts_inquirerList | apply acts_pick | apply acts_await
    | apply acts_setRawMode
    | apply acts_emit; done
    | apply acts_bind; [|intros ?]
    | apply acts_forEachFrom; intros ? ?
    | apply acts_update; [intros ?; solve [apply frame_keys | apply frame_checks | done]
                         | done | done]
    | match goal with |- acts _ _ (if ?c then _ else _) => destruct c end
    | match goal with |- acts _ _ (match ?c with _ => _ end) => destruct c end ].

Section ActingSelectors.

Context {rel : state -> state -> Prop} `{!Frame rel}.

Lemma acts_displayMenu avds st : acts rel true (displayMenu avds st).
Proof. unfold displayMenu, forEach. acting. Qed.

Lemma acts_goodbye : acts rel true goodbye.
Proof. unfold goodbye. acting. Qed.

Lemma acts_handleKeypress avds key st : acts rel true (handleKeypress avds key st).
Proof.
  pose proof acts_displayMenu. pose proof acts_goodbye.
  unfold handleKeypress. destruct key as [key|]; acting; auto.
Qed.

Lemma acts_listener avds ev st : acts rel true (listener avds ev st).
Proof.
  pose proof acts_displayMenu. pose proof acts_handleKeypress.
  unfold listener, handleTimer. acting; auto.
Qed.

Lemma acts_menuLoop avds events : forall st, acts rel true (menuLoop avds events st).
Proof.
  pose proof acts_listener.
  induction events as [|ev events IH]; intros st; simpl; acting; auto.
Qed.

Lemma acts_checkboxLoop choices check submissions :
  acts rel true (checkboxLoop choices check submissions).
Proof. induction submissions as [|ticks rest IH]; simpl; acting; auto. Qed.

Lemma acts_selectLaunchOptions : acts rel true selectLaunchOptions.
Proof. unfold selectLaunchOptions. acting. Qed.

Lemma acts_exec command : acts rel false (exec command).
Proof.
  intros s. unfold exec. destruct (execs s) as [|r rest] eqn:Hexecs; simpl.
  - split_and!; try done. apply frame_refl.
  - split_and!; try done. apply frame_execs.
Qed.

Lemma acts_launchAVDSettle avd r : acts rel false (launchAVDSettle avd r).
Proof.
  unfold launchAVDSettle, execCallback, childErrorListener, resolve. acting.
Qed.

Lemma acts_launchAVDStart avd : acts rel false (launchAVDStart avd).
Proof. pose proof acts_exec. unfold launchAVDStart. acting; auto. Qed.

Lemma acts_launchAVD avd : acts rel false (launchAVD avd).
Proof.
  pose proof acts_launchAVDStart. pose proof acts_launchAVDSettle.
  unfold launchAVD. acting; auto.
Qed.

Lemma acts_mapM {A B} (f : A -> M B) l :
  (forall x, acts rel false (f x)) -> acts rel false (mapM f l).
Proof. intros Hf. induction l as [|x l IH]; simpl; acting; auto. Qed.

Lemma acts_settleAll fuel : forall outstanding, acts rel false (settleAll fuel outstanding).
Proof.
  pose proof acts_launchAVDSettle.
  induction fuel as [|fuel IH]; intros outstanding; simpl; acting; auto.
Qed.

Lemma acts_launchAVDsParallel : acts rel false launchAVDsParallel.
Proof.
  pose proof acts_launchAVDStart. pose proof acts_settleAll.
  unfold launchAVDsParallel, promiseAll. acting; auto.
  apply acts_mapM. intros avd. acting; auto.
Qed.

Lemma acts_delayedLoop fuel : forall i, acts rel false (delayedLoop fuel i).
Proof.
  pose proof acts_launchAVD.
  induction fuel as [|fuel IH]; intros i; simpl; unfold sleep; acting; auto.
Qed.

Lemma acts_sequentialLoop l : acts rel false (sequentialLoop l).
Proof.
  pose proof acts_launchAVD.
  induction l as [|avd l IH]; simpl; acting; auto.
Qed.

Lemma acts_launchAVDs mode : acts rel false (launchAVDs mode).
Proof.
  pose proof acts_launchAVDsParallel. pose proof acts_delayedLoop. pose proof acts_sequentialLoop.
  destruct mode; simpl; auto; unfold launchAVDsDelayed, launchAVDsSequential; acting; auto.
Qed.

End ActingSelectors.

Section ActingSelection.

Lemma acts_selectAVDsBuiltIn : acts sameHost true selectAVDsBuiltIn.
Proof.
  pose proof (@acts_displayMenu sameHost _). pose proof (@acts_menuLoop sameHost _).
  unfold selectAVDsBuiltIn. acting; auto.
Qed.

Lemma acts_selectAVDsInquirer : acts sameHost true selectAVDsInquirer.
Proof.
  pose proof (@acts_checkboxLoop sameHost _).
  unfold selectAVDsInquirer, inquirerCheckbox, forEach. acting; auto.
Qed.

Lemma acts_selectAVDs : acts sameHost true selectAVDs.
Proof.
  pose proof acts_selectAVDsBuiltIn. pose proof acts_selectAVDsInquirer.
  unfold selectAVDs. acting; auto.
Qed.

End ActingSelection.

(** ** The stages of a run *)

Section Gentle.

Lemma gentle_ret {A} (a : A) : gentle (ret a).
Proof. by intros s. Qed.

Lemma gentle_gets {A} (g : state -> A) : gentle (gets g).
Proof. by intros s. Qed.

Lemma gentle_block {A} : gentle (@block A).
Proof. by intros s. Qed.

Lemma gentle_emit e : gentle (emit e).
Proof. by intros s. Qed.

Lemma gentle_consoleLog text : gentle (consoleLog text).
Proof. by intros s. Qed.

Lemma gentle_update (g : state -> state) evs : gentle (fun s => (Ok tt, evs, g s)).
Proof. by intros s. Qed.

Lemma gentle_bind {A B} (m : M A) (f : A -> M B) :
  gentle m -> (forall a, gentle (f a)) -> gentle (bind m f).
Proof.
  intros Hm Hf s. unfold bind. specialize (Hm s).
  destruct (m s) as [[[a|e|c|] evs] s1]; simpl in *; try done.
  specialize (Hf a s1). by destruct (f a s1) as [[r evs'] s2].
Qed.

Lemma gentle_readLine : gentle readLine.
Proof. intros s. unfold readLine. by destruct (lines s). Qed.

Lemma gentle_question query : gentle (question query).
Proof. apply gentle_bind; [apply gentle_emit|]. intros _. apply gentle_readLine. Qed.

Lemma gentle_inquirerList message : gentle (inquirerList message).
Proof.
  apply gentle_bind; [apply gentle_emit|]. intros _ s. by destruct (modes s).
Qed.

Lemma gentle_forEachFrom {A} (body : A -> nat -> M unit) l :
  (forall x index, gentle (body x index)) -> forall index, gentle (forEachFrom index body l).
Proof.
  intros Hbody. induction l as [|x l IH]; intros index; simpl; [apply gentle_ret|].
  apply gentle_bind; [apply Hbody|]. intros _. apply IH.
Qed.

End Gentle.

(** One step through a method that only prints and reads. *)
Ltac settling :=
  repeat first
    [ progress cbv zeta
    | match goal with H : context [gentle] |- _ => solve [apply H] end
    | apply gentle_ret | apply gentle_gets | apply gentle_block | apply gentle_emit
    | apply gentle_consoleLog | apply gentle_readLine | apply gentle_question
    | apply gentle_inquirerList | apply gentle_update
    | apply gentle_bind; [|intros ?]
    | apply gentle_forEachFrom; intros ? ?
    | match goal with |- gentle (if ?c then _ else _) => destruct c end
    | match goal with |- gentle (match ?c with _ => _ end) => destruct c end ].

Section Stages.

Lemma getAVDList_any s :
  exists r evs,
    getAVDList s = (r, evs, set_execs (drop 1 (execs s)) s)
    /\ spawned evs = [listCommand]
    /\ exitsWith0 r
    /\ match r with
       | Ok avds => avds = reported (execs s)
       | _ => True
       end.
Proof.
  destruct (execs s) as [|[r|] rest] eqn:Hexecs.
  - exists Blocked. eexists. split.
    { unfold getAVDList, bind, consoleLog, emit, exec, await. rewrite Hexecs. simpl.
      by rewrite <- Hexecs, set_execs_id. }
    done.
  - unfold reported. cbn [drop]. rewrite drop_0, (getAVDList_run _ _ _ Hexecs).
    destruct (callbackArgs r) as [[message|] stdout].
    + by eexists _, _.
    + destruct (length (parseAVDs stdout) =? 0)%nat; by eexists _, _.
  - exists Blocked. eexists. split.
    { unfold getAVDList, bind, consoleLog, emit, exec, await. rewrite Hexecs.
      cbn [drop]. by rewrite drop_0. }
    done.
Qed.

Lemma tickedValues_sublist choices : forall ticks,
  tickedValues choices ticks `sublist_of` (value <$> choices).
Proof.
  induction choices as [|c choices IH]; intros [|[] ticks]; simpl;
    try apply sublist_nil_l; by constructor.
Qed.

Lemma selectAVDsInquirer_sublist s evs s' :
  selectAVDsInquirer s = (Ok tt, evs, s') -> selectedAVDs s' `sublist_of` avds s.
Proof.
  unfold selectAVDsInquirer, inquirerCheckbox. rewrite bind_gets.
  set (choices := _ <$> avds s).
  destruct (checkboxLoop_spec choices (checks s) s) as (r & evs0 & s0 & Hloop & Hr).
  assert (Hcheckbox :
    bind (emit (InquirerPrompt "checkbox" "Select AVDs to launch:"))
      (fun _ => bind (gets checks) (fun submissions => checkboxLoop choices validate submissions)) s
    = (r, InquirerPrompt "checkbox" "Select AVDs to launch:" :: evs0, s0)).
  { by rewrite bind_emit, bind_gets, Hloop. }
  destruct r as [input| | |]; try done.
  - rewrite (bind_ok _ _ _ _ _ _ Hcheckbox).
    rewrite (bind_ok _ _ _ tt [] (set_selectedAVDs input s0)) by done.
    rewrite bind_gets, bind_consoleLog. unfold forEach.
    rewrite (bind_ok _ _ _ _ _ _
               (forEachFrom_log (fun avd (_ : nat) => consoleLog ("   ✓ " +:+ avd))
                  (fun avd _ => "   ✓ " +:+ avd) _ 0 _ ltac:(done))).
    unfold consoleLog, emit, prepend. simpl. intros [= _ <-]. simpl.
    destruct Hr as (_ & ticks & _ & ->).
    replace (avds s) with (value <$> choices); [apply tickedValues_sublist|].
    unfold choices. rewrite <- list_fmap_compose. apply list_fmap_id.
  - by rewrite (bind_pending _ _ _ _ _ Hcheckbox).
Qed.

Lemma selectAVDsBuiltIn_sublist s evs s' :
  selectAVDsBuiltIn s = (Ok tt, evs, s') -> selectedAVDs s' `sublist_of` avds s.
Proof.
  destruct (rawModeError s) as [message|] eqn:Htty;
    [by rewrite (selectAVDsBuiltIn_throws _ _ Htty)|].
  destruct (selectAVDsBuiltIn_run s Htty) as (r & evs0 & s0 & Hloop & ->).
  destruct (menuLoop_spec (avds s) (keys s) (initialMenu (avds s)) s)
    as (r' & evs' & s'' & Hloop' & _ & Hr).
  rewrite Hloop in Hloop'. injection Hloop' as <- <- <-.
  destruct r as [sel| | |]; try done. intros [= _ <-]. simpl.
  destruct Hr as (_ & _ & before & k & after & stc & _ & _ & _ & _ & ->).
  apply filterSelected_sublist.
Qed.

Lemma selectAVDs_sublist s evs s' :
  selectAVDs s = (Ok tt, evs, s') -> selectedAVDs s' `sublist_of` avds s.
Proof.
  unfold selectAVDs. rewrite bind_gets. destruct (useInquirer s).
  - apply selectAVDsInquirer_sublist.
  - apply selectAVDsBuiltIn_sublist.
Qed.

(** The menu throws what [setRawMode(true)] throws and nothing else. *)
Lemma selectAVDsBuiltIn_rejects s message :
  (selectAVDsBuiltIn s).1.1 = Rejected message -> rawModeError s = Some message.
Proof.
  destruct (rawModeError s) as [thrown|] eqn:Htty.
  - rewrite (selectAVDsBuiltIn_throws _ _ Htty). by intros [= ->].
  - destruct (selectAVDsBuiltIn_run s Htty) as (r & evs0 & s0 & Hloop & ->).
    destruct (menuLoop_spec (avds s) (keys s) (initialMenu (avds s)) s)
      as (r' & evs' & s'' & Hloop' & _ & Hr).
    rewrite Hloop in Hloop'. injection Hloop' as <- <- <-.
    by destruct r.
Qed.

Lemma gentle_checkboxLoop choices check submissions :
  gentle (checkboxLoop choices check submissions).
Proof. induction submissions as [|ticks rest IH]; simpl; settling. Qed.

Lemma gentle_selectAVDsInquirer : gentle selectAVDsInquirer.
Proof.
  pose proof gentle_checkboxLoop.
  unfold selectAVDsInquirer, inquirerCheckbox, forEach. settling.
Qed.

Lemma gentle_selectLaunchOptions : gentle selectLaunchOptions.
Proof. unfold selectLaunchOptions. settling. Qed.

Lemma launchAVDs_prefix mode s :
  spawned (launchAVDs mode s).1.2 `prefix_of` (getEmulatorCommand (platform s) <$> selectedAVDs s).
Proof.
  assert (Hprefix : forall k,
             (getEmulatorCommand (platform s) <$> take k (selectedAVDs s))
             `prefix_of` (getEmulatorCommand (platform s) <$> selectedAVDs s)).
  { intros k. rewrite <- (take_drop k (selectedAVDs s)) at 2. rewrite fmap_app. by eexists. }
  destruct mode; simpl.
  - destruct (launchAVDsParallel_any s) as (issued & delivered & -> & Hspawned & _ & Hnone & _).
    by rewrite spawned_app, Hspawned, Hnone, app_nil_r.
  - unfold launchAVDsDelayed. rewrite bind_consoleLog, bind_gets.
    destruct (delayedLoop_any (selectedAVDs s) [] s (S (length (selectedAVDs s))) eq_refl)
      as (k & _ & _ & Hspawned & _).
    unfold prepend. cbn [fst snd]. simpl in Hspawned. simpl. rewrite Hspawned. apply Hprefix.
  - unfold launchAVDsSequential. rewrite bind_consoleLog, bind_gets.
    destruct (sequentialLoop_any (selectedAVDs s) s) as (k & _ & _ & Hspawned & _).
    unfold prepend. cbn [fst snd]. simpl. rewrite Hspawned. apply Hprefix.
Qed.

End Stages.

(** ** The shape of one round *)

Section Shape.

Lemma coreEvents_app evs evs' : coreEvents (evs ++ evs') = coreEvents evs ++ coreEvents evs'.
Proof. unfold coreEvents. apply omap_app. Qed.

Lemma coreEvents_core evs : coreEvents (Core <$> evs) = evs.
Proof. induction evs as [|e evs IH]; [done|]. simpl. f_equal. exact IH. Qed.

Lemma spawnedR_app evs evs' : spawnedR (evs ++ evs') = spawnedR evs ++ spawnedR evs'.
Proof. unfold spawnedR. by rewrite coreEvents_app, spawned_app. Qed.

Lemma spawnedR_core evs : spawnedR (Core <$> evs) = spawned evs.
Proof. unfold spawnedR. by rewrite coreEvents_core. Qed.

Lemma not_close_core (evs : list event) : RlClose ∉ Core <$> evs.
Proof. intros (e & ? & _)%list_elem_of_fmap. done. Qed.

Context (again : R unit) (s0 : state) (nested : Prop).

Lemma roundShape_prepend pending expected evs cmds0 x :
  spawnedR evs = cmds0 -> RlClose ∉ evs ->
  roundShape again s0 (drop (length cmds0) pending)
    (fun cmds => expected (cmds0 ++ cmds)) nested x ->
  roundShape again s0 pending expected nested (prependR evs x).
Proof.
  intros <- Hevs [(Hexp & Hcl & Hex & Hhost)
                 |(Hn & pre & ss' & -> & Hexp & Hcl & Hhost & Hexecs)].
  - left. unfold prependR. simpl. rewrite spawnedR_app. split_and!; try done.
    by apply not_elem_of_app.
  - right. split; [done|]. exists (evs ++ pre), ss'.
    rewrite prependR_prependR, spawnedR_app. split_and!; try done.
    + by apply not_elem_of_app.
    + by rewrite Hexecs, drop_drop, length_app.
Qed.

Lemma shape_step {A} pending expected (m : R A) (f : A -> R unit) ss r evs ss1 cmds0 :
  m ss = (r, evs, ss1) ->
  spawnedR evs = cmds0 -> RlClose ∉ evs -> exitsWith0 r ->
  match r with
  | Ok a => roundShape again s0 (drop (length cmds0) pending)
              (fun cmds => expected (cmds0 ++ cmds)) nested (f a ss1)
  | _ => expected cmds0 /\ sameHost s0 (launcher ss1)
  end ->
  roundShape again s0 pending expected nested (bindR m f ss).
Proof.
  intros Hm <- Hcl Hexit Hr. destruct r as [a|e|c|].
  - rewrite (bindR_ok _ _ _ _ _ _ Hm). by apply (roundShape_prepend _ _ _ (spawnedR evs)).
  - rewrite (bindR_rejected _ _ _ _ _ _ Hm). left. by destruct Hr.
  - rewrite (bindR_exited _ _ _ _ _ _ Hm). left. by destruct Hr.
  - rewrite (bindR_blocked _ _ _ _ _ Hm). left. by destruct Hr.
Qed.

Lemma shape_quiet {A} pending expected (m : R A) (f : A -> R unit) ss r evs ss1 :
  m ss = (r, evs, ss1) ->
  spawnedR evs = [] -> RlClose ∉ evs -> exitsWith0 r ->
  match r with
  | Ok a => roundShape again s0 pending expected nested (f a ss1)
  | _ => expected [] /\ sameHost s0 (launcher ss1)
  end ->
  roundShape again s0 pending expected nested (bindR m f ss).
Proof.
  intros Hm Hquiet Hcl Hexit Hr.
  apply (shape_step _ _ _ _ _ _ _ _ [] Hm); done.
Qed.

Lemma shape_log pending expected text (k : R unit) ss :
  roundShape again s0 pending expected nested (k ss) ->
  roundShape again s0 pending expected nested (bindR (logR text) (fun _ => k) ss).
Proof.
  intros Hk. apply (shape_quiet _ _ _ _ _ (Ok tt) [Core (ConsoleLog text)] ss); try done.
  by intros [=]%list_elem_of_singleton.
Qed.

Lemma shape_done pending expected (r : result unit) evs ss1 :
  expected (spawnedR evs) -> RlClose ∉ evs -> exitsWith0 r -> sameHost s0 (launcher ss1) ->
  roundShape again s0 pending expected nested (r, evs, ss1).
Proof. intros. by left. Qed.

End Shape.

(** A trace listed in full holds no [RlClose]. *)
Ltac unclosed :=
  repeat (apply not_elem_of_cons; split; [done|]); apply not_elem_of_nil.

Section Confirming.

Lemma inquirerConfirm_cases message ss :
  (exists answer rest,
      confirms ss = answer :: rest
      /\ inquirerConfirm message ss
         = (Ok answer, [Core (InquirerPrompt "confirm" message); ConfirmRead answer],
            {| launcher := launcher ss; confirms := rest |}))
  \/ (confirms ss = []
      /\ inquirerConfirm message ss = (Blocked, [Core (InquirerPrompt "confirm" message)], ss)).
Proof.
  unfold inquirerConfirm. rewrite bindR_emitR. unfold prependR.
  destruct (confirms ss) as [|answer rest]; [by right|left]. by exists answer, rest.
Qed.

Lemma confirmLaunch_cases ss :
  exists r evs ss1,
    confirmLaunch ss = (r, evs, ss1)
    /\ spawnedR evs = [] /\ (RlClose ∉ evs)
    /\ sameJob (launcher ss) (launcher ss1)
    /\ execs (launcher ss1) = execs (launcher ss)
    /\ calm r
    /\ (length (confirms ss1) <= length (confirms ss))%nat
    /\ match r with
       | Ok confirmed => useInquirer (launcher ss) = true -> head (confirms ss) = Some confirmed
       | _ => True
       end.
Proof.
  unfold confirmLaunch. rewrite bindR_getsR.
  destruct (useInquirer (launcher ss)) eqn:Hui.
  - destruct (inquirerConfirm_cases "🚀 Proceed with launching the selected AVDs?" ss)
      as [(answer & rest & Hconfirms & ->)|[Hconfirms ->]]; eexists _, _, _; (split; [done|]).
    + split_and!; try done; [unclosed|rewrite Hconfirms; simpl; lia|].
      intros _. by rewrite Hconfirms.
    + split_and!; try done. unclosed.
  - destruct (acts_question (rel := sameJob) true
                "🚀 Proceed with launching the selected AVDs? (y/n): " (launcher ss))
      as (Hrel & Hexecs & Hquiet & Hexit).
    pose proof (gentle_question "🚀 Proceed with launching the selected AVDs? (y/n): "
                  (launcher ss)) as Hcalm.
    destruct (question _ (launcher ss)) as [[r evs] s1] eqn:Hq. simpl in *.
    specialize (Hquiet eq_refl). rewrite Hquiet in Hexecs. simpl in Hexecs.
    rewrite drop_0 in Hexecs.
    pose proof (liftR_run _ _ _ _ _ Hq) as Hlift.
    destruct r as [answer|e|c|]; try done.
    + rewrite (bindR_ok _ _ _ _ _ _ Hlift). unfold retR, prependR. simpl.
      eexists _, _, _. split; [done|]. rewrite app_nil_r, spawnedR_core.
      split_and!; try done; auto using not_close_core.
    + rewrite (bindR_blocked _ _ _ _ _ Hlift).
      eexists _, _, _. split; [done|]. rewrite spawnedR_core.
      split_and!; try done; auto using not_close_core.
Qed.

End Confirming.

Section Round.

Lemma firstRound_nothing ss : firstRound ss [listCommand].
Proof.
  exists []. split_and!; try done. exists []. split; [apply sublist_nil_l|by eexists].
Qed.

(** One round of [run], whatever the environment does. *)
Lemma runBody_shape again ss :
  roundShape again (launcher ss) (execs (launcher ss)) (firstRound ss)
    (useInquirer (launcher ss) = true /\ head (confirms ss) = Some true)
    (runBody again ss).
Proof.
  pose proof (firstRound_nothing ss) as Hnothing.
  unfold runBody. rewrite bindR_getsR.
  assert (Hprelude : forall k : R unit,
             roundShape again (launcher ss) (execs (launcher ss)) (firstRound ss)
               (useInquirer (launcher ss) = true /\ head (confirms ss) = Some true) (k ss) ->
             roundShape again (launcher ss) (execs (launcher ss)) (firstRound ss)
               (useInquirer (launcher ss) = true /\ head (confirms ss) = Some true)
               (bindR (if negb (useInquirer (launcher ss))
                       then emitR (Core ConsoleClear) else retR tt) (fun _ => k) ss)).
  { intros k Hk. destruct (useInquirer (launcher ss)); simpl.
    - by rewrite bindR_retR.
    - eapply (shape_quiet _ _ _ _ _ _ _ ss (Ok tt) [Core ConsoleClear] ss); try done.
      unclosed. }
  apply Hprelude. clear Hprelude. do 2 apply shape_log.
  (* the discovery *)
  destruct (getAVDList_any (launcher ss)) as (r & evs & Hget & Hspawned & Hexit & Hr).
  eapply shape_step with (cmds0 := [listCommand]);
    [apply (liftR_run _ _ _ _ _ Hget)|by rewrite spawnedR_core|apply not_close_core|done|].
  destruct r as [avds| | |]; [|by split..].
  subst avds. cbn [length].
  set (pending1 := drop 1 (execs (launcher ss))).
  set (s1 := set_execs pending1 (launcher ss)).
  assert (Hs1 : sameHost (launcher ss) s1) by done.
  (* the inventory is stored *)
  set (s2 := set_avds (reported (execs (launcher ss))) s1).
  assert (Hs2 : sameHost (launcher ss) s2) by done.
  eapply (shape_quiet _ _ _ _ _ _ _ _ (Ok tt) [] {| launcher := s2; confirms := confirms ss |});
    [done|done|apply not_elem_of_nil|done|].
  (* the selection *)
  destruct (acts_selectAVDs s2) as (Hrel3 & Hexecs3 & Hquiet3 & Hex3).
  pose proof (selectAVDs_sublist s2) as Hsub.
  destruct (selectAVDs s2) as [[r evs3] s3] eqn:Hsel. simpl in *.
  specialize (Hquiet3 eq_refl). rewrite Hquiet3 in Hexecs3. simpl in Hexecs3.
  rewrite drop_0 in Hexecs3.
  assert (Hs3 : sameHost (launcher ss) s3) by (by apply (sameHost_trans _ s2)).
  eapply (shape_quiet _ _ _ _ _ _ _ _ _ _ _
            (liftR_run _ {| launcher := s2; confirms := confirms ss |} _ _ _ Hsel));
    [by rewrite spawnedR_core|apply not_close_core|done|].
  destruct r as [[]| | |]; [|by split..].
  specialize (Hsub _ _ eq_refl).
  (* the launch mode *)
  destruct (acts_selectLaunchOptions (rel := sameJob) s3) as (Hrel4 & Hexecs4 & Hquiet4 & Hex4).
  destruct (selectLaunchOptions s3) as [[r evs4] s4] eqn:Hmode. simpl in *.
  specialize (Hquiet4 eq_refl). rewrite Hquiet4 in Hexecs4. simpl in Hexecs4.
  rewrite drop_0 in Hexecs4.
  assert (Hs4 : sameHost (launcher ss) s4).
  { apply (sameHost_trans _ s3); [done|by apply sameJob_sameHost]. }
  eapply (shape_quiet _ _ _ _ _ _ _ _ _ _ _
            (liftR_run _ {| launcher := s3; confirms := confirms ss |} _ _ _ Hmode));
    [by rewrite spawnedR_core|apply not_close_core|done|].
  destruct r as [mode| | |]; [|by split..].
  (* the confirmation *)
  destruct (confirmLaunch_cases {| launcher := s4; confirms := confirms ss |})
    as (r & evs5 & ss5 & Hconfirm & Hquiet5 & Hclose5 & Hrel5 & Hexecs5 & Hcalm5 & _ & Hr5).
  simpl in *.
  assert (Hs5 : sameHost (launcher ss) (launcher ss5)).
  { apply (sameHost_trans _ s4); [done|by apply sameJob_sameHost]. }
  eapply (shape_quiet _ _ _ _ _ _ _ _ _ _ _ Hconfirm); [done|done|by destruct r|].
  destruct r as [confirmed| | |]; [|by split..].
  destruct confirmed.
  - (* the launch *)
    apply shape_log.
    destruct (acts_launchAVDs (rel := sameHost) mode (launcher ss5))
      as (Hrel6 & Hexecs6 & _ & Hex6).
    pose proof (launchAVDs_prefix mode (launcher ss5)) as Hprefix.
    destruct (launchAVDs mode (launcher ss5)) as [[r evs6] s6] eqn:Hlaunch. simpl in *.
    assert (Hs6 : sameHost (launcher ss) s6) by (by apply (sameHost_trans _ (launcher ss5))).
    assert (Hpending : execs s6 = drop (length (spawned evs6)) pending1).
    { by rewrite Hexecs6, Hexecs5, Hexecs4, Hexecs3. }
    assert (Hround : firstRound ss ([listCommand] ++ spawned evs6)).
    { exists (spawned evs6). split_and!.
      - done.
      - exists (selectedAVDs s3). split; [done|].
        destruct Hrel4 as (_ & Hsel4). destruct Hrel5 as (_ & Hsel5).
        destruct Hs5 as (_ & Hplatform & _).
        by rewrite <- Hsel4, <- Hsel5, <- Hplatform.
      - intros Hui Hno. destruct Hs4 as (Hui4 & _). rewrite Hui4 in Hr5.
        specialize (Hr5 Hui). congruence. }
    eapply shape_step with (cmds0 := spawned evs6);
      [apply (liftR_run _ ss5 _ _ _ Hlaunch)|by rewrite spawnedR_core|apply not_close_core
      |done|].
    destruct r as [[]| | |]; [|by split..].
    do 3 apply shape_log. rewrite bindR_getsR. cbn [launcher].
    destruct (useInquirer s6) eqn:Hui6.
    + destruct (inquirerConfirm_cases "Would you like to launch more AVDs?"
                  {| launcher := s6; confirms := confirms ss5 |})
        as [(more & rest & Hc & Hrun)|[Hc Hrun]].
      * eapply (shape_quiet _ _ _ _ _ _ _ _ _ _ _ Hrun); [done|unclosed|done|].
        destruct more.
        -- right. split.
           { destruct Hs6 as (Hui & _). destruct Hs4 as (Hui4 & _).
             rewrite Hui6 in Hui. split; [done|]. apply Hr5. congruence. }
           exists [Core (ConsoleLog (nl +:+ repeatString "=" 50 +:+ nl))],
             {| launcher := s6; confirms := rest |}.
           split_and!; [apply (bindR_emitR _ (fun _ => again))| |unclosed|done|].
           ++ simpl. by rewrite !app_nil_r.
           ++ simpl. by rewrite drop_0.
        -- apply shape_done; [|apply not_elem_of_nil|done|done].
           simpl. by rewrite !app_nil_r.
      * eapply (shape_quiet _ _ _ _ _ _ _ _ _ _ _ Hrun); [done|unclosed|done|].
        split; [|done]. simpl. by rewrite !app_nil_r.
    + apply shape_done; [|apply not_elem_of_nil|done|done].
      simpl. by rewrite !app_nil_r.
  - (* the launch is cancelled *)
    apply shape_done; [done|unclosed|done|done].
Qed.

Lemma firstRound_rounds ss commands later :
  firstRound ss commands ->
  rounds (platform (launcher ss)) (drop (length commands) (execs (launcher ss))) later ->
  rounds (platform (launcher ss)) (execs (launcher ss)) (commands ++ later).
Proof. intros (launched & -> & Hround & _) Hlater. by apply rounds_more. Qed.

End Round.

(** ** The whole run *)

Section WholeRun.

(** [run] in terms of its [try] block: the [catch] block turns a
    rejection into exit status 1, and the [finally] block runs only when
    the [try] block resolved, because [process.exit] does not return. *)
Lemma runOnce_cases again ss :
  runOnce again ss
  = match runBody again ss with
    | (Ok _, evs, ss1) =>
        (Ok tt, evs ++ (if useInquirer (launcher ss1) then [] else [RlClose]), ss1)
    | (Rejected message, evs, ss1) => (Exited 1, evs ++ [errorLine message], ss1)
    | (Exited code, evs, ss1) => (Exited code, evs, ss1)
    | (Blocked, evs, ss1) => (Blocked, evs, ss1)
    end.
Proof.
  unfold runOnce, tryCatchFinally.
  destruct (runBody again ss) as [[[[]|message|code|] evs] ss1]; try done.
  unfold finally, bindR, getsR. simpl. by destruct (useInquirer (launcher ss1)).
Qed.

Lemma spawnedR_runOnce again ss :
  spawnedR (runOnce again ss).1.2 = spawnedR (runBody again ss).1.2.
Proof.
  rewrite runOnce_cases.
  destruct (runBody again ss) as [[[[]|message|code|] evs] ss1]; simpl; try done.
  - rewrite spawnedR_app. destruct (useInquirer (launcher ss1)); simpl; by rewrite app_nil_r.
  - rewrite spawnedR_app. simpl. by rewrite app_nil_r.
Qed.

Lemma run_invariant depth : forall ss,
  notRejected (run depth ss).1.1
  /\ exitsWith01 (run depth ss).1.1
  /\ sameHost (launcher ss) (launcher (run depth ss).2)
  /\ (RlClose ∈ (run depth ss).1.2 ->
      useInquirer (launcher ss) = false /\ (run depth ss).1.1 = Ok tt
      /\ last (run depth ss).1.2 = Some RlClose)
  /\ (useInquirer (launcher ss) = false -> (run depth ss).1.1 = Ok tt ->
      RlClose ∈ (run depth ss).1.2).
Proof.
  induction depth as [|depth IH]; intros ss.
  - simpl. split_and!; try done. by intros ?%elem_of_nil.
  - cbn [run]. rewrite runOnce_cases.
    destruct (runBody_shape (run depth) ss)
      as [(_ & Hclose & Hexit & Hhost)
         |([Hui Hyes] & pre & ss' & Hbody & _ & Hclose & Hhost & _)].
    + destruct (runBody (run depth) ss) as [[[[]|message|code|] evs] ss1]; simpl in *.
      * destruct Hhost as (Hui & Hhost). split_and!; try done.
        -- rewrite Hui. destruct (useInquirer (launcher ss)).
           ++ rewrite app_nil_r. done.
           ++ intros _. split_and!; try done. by rewrite last_snoc.
        -- intros Hno _. rewrite Hui, Hno. apply elem_of_app. right. by left.
      * split_and!; try done.
        -- by right.
        -- intros [?|[[=]|[]%elem_of_nil]%elem_of_cons]%elem_of_app. done.
      * split_and!; try done. by left.
      * split_and!; try done.
    + destruct (IH ss') as (Hrej & Hexit01 & Hhost' & Hclosed & _).
      assert (Hui' : useInquirer (launcher ss') = true).
      { destruct Hhost as (-> & _). done. }
      assert (Hnot : RlClose ∉ (run depth ss').1.2).
      { intros Hin. destruct (Hclosed Hin) as (? & _). congruence. }
      assert (Hend : sameHost (launcher ss) (launcher (run depth ss').2)).
      { by apply (sameHost_trans _ (launcher ss')). }
      rewrite Hbody. unfold prependR.
      destruct (run depth ss') as [[[[]|message|code|] evs] ss1]; simpl in *; try done.
      * pose proof Hend as (Hui1 & _). rewrite Hui1, Hui, app_nil_r.
        split_and!; try done. intros [?|?]%elem_of_app; done.
      * split_and!; try done. intros [?|?]%elem_of_app; done.
      * split_and!; try done. intros [?|?]%elem_of_app; done.
Qed.

End WholeRun.

(** ** The nesting of [run] *)

Section Nesting.

Lemma bindR_ext {A B} (m : R A) (f g : A -> R B) ss :
  (forall a evs ss1, m ss = (Ok a, evs, ss1) -> f a ss1 = g a ss1) ->
  bindR m f ss = bindR m g ss.
Proof.
  intros Hfg. unfold bindR.
  destruct (m ss) as [[[a|e|c|] evs] ss1]; try done. by rewrite (Hfg a evs ss1).
Qed.

Lemma liftR_confirms {A} (m : M A) ss r evs ss1 :
  liftR m ss = (r, evs, ss1) -> confirms ss1 = confirms ss.
Proof. unfold liftR. destruct (m (launcher ss)) as [[? ?] ?]. by intros [= _ _ <-]. Qed.

(** The [try] block reaches the nested [run()] only after two answers to
    [confirm] prompts. *)
Lemma runBody_ext again again' ss :
  (forall ss', (length (confirms ss') < length (confirms ss))%nat -> again ss' = again' ss') ->
  runBody again ss = runBody again' ss.
Proof.
  intros Hagain. unfold runBody.
  apply bindR_ext. intros ui ? ? [= <- <- <-].
  apply bindR_ext. intros [] ? ss0 H0.
  assert (ss0 = ss) as -> by (destruct (useInquirer (launcher ss)); by injection H0). clear H0.
  apply bindR_ext. intros [] ? ? [= <- <-].
  apply bindR_ext. intros [] ? ? [= <- <-].
  apply bindR_ext. intros avds ? ss1 H1%liftR_confirms.
  apply bindR_ext. intros [] ? ss2 H2%liftR_confirms.
  apply bindR_ext. intros [] ? ss3 H3%liftR_confirms.
  apply bindR_ext. intros mode ? ss4 H4%liftR_confirms.
  apply bindR_ext. intros confirmed ? ss5 H5.
  destruct (confirmLaunch_cases ss4) as (r & evs5 & ss5' & Hc & _ & _ & _ & _ & _ & Hlen & _).
  rewrite Hc in H5. injection H5 as ? ? ?. subst.
  destruct confirmed; [|done].
  apply bindR_ext. intros [] ? ? [= <- <-].
  apply bindR_ext. intros [] ? ss6 H6%liftR_confirms.
  apply bindR_ext. intros [] ? ? [= <- <-].
  apply bindR_ext. intros [] ? ? [= <- <-].
  apply bindR_ext. intros [] ? ? [= <- <-].
  apply bindR_ext. intros ui' ? ? [= <- <- <-].
  destruct (useInquirer (launcher ss6)); [|done].
  apply bindR_ext. intros more ? ss7 H7.
  destruct (inquirerConfirm_cases "Would you like to launch more AVDs?" ss6)
    as [(answer & rest & Hconfirms & Hrun)|[_ Hrun]]; rewrite Hrun in H7; [|done].
  injection H7 as ? ? ?. subst.
  destruct more; [|done].
  apply bindR_ext. intros [] ? ? [= <- <-].
  apply Hagain. simpl.
  assert (length (confirms ss6) <= length (confirms ss))%nat as Hle by congruence.
  rewrite Hconfirms in Hle. simpl in Hle. lia.
Qed.

Lemma runOnce_ext again again' ss :
  (forall ss', (length (confirms ss') < length (confirms ss))%nat -> again ss' = again' ss') ->
  runOnce again ss = runOnce again' ss.
Proof. intros Hagain. by rewrite !runOnce_cases, (runBody_ext again again'). Qed.

Lemma run_step depth : forall ss,
  (length (confirms ss) < depth)%nat -> run (S depth) ss = run depth ss.
Proof.
  induction depth as [|depth IH]; intros ss Hlen; [lia|].
  cbn [run]. apply runOnce_ext. intros ss' Hlen'. apply IH. lia.
Qed.

(** [run] nests no deeper than there are answers to [confirm] prompts:
    beyond that the depth allowed makes no difference. *)
Lemma run_depth depth ss :
  (length (confirms ss) < depth)%nat -> run depth ss = run (S (length (confirms ss))) ss.
Proof.
  intros Hlen. induction depth as [|depth IH]; [lia|].
  destruct (decide (depth = length (confirms ss))) as [->|Hne]; [done|].
  rewrite run_step by lia. apply IH. lia.
Qed.

End Nesting.

Section Outcomes.

Lemma listingMode_outcome s :
  match (listingMode s).1.1 with
  | Exited code => code = 0 \/ code = 1
  | Blocked => True
  | _ => False
  end.
Proof.
  unfold listingMode, printAVDs.
  destruct (getAVDList_any s) as (r & evs & Hget & _ & Hexit & _).
  unfold bind at 1, catch, bind at 1. rewrite Hget.
  destruct r as [avds|e|c|]; simpl; auto.
  match goal with |- context [bind ?m ?f ?s] =>
    assert (Hk : gentle (bind m f)) by (unfold forEach; settling);
    specialize (Hk s);
    destruct (bind m f s) as [[[[]|e|c|] evs'] s']; simpl in *; auto; try done
  end.
Qed.

Lemma catchR_resolved {A} (m : R A) handler ss :
  notRejected (m ss).1.1 -> catchR m handler ss = m ss.
Proof. unfold catchR. by destruct (m ss) as [[[a|e|c|] evs] ss1]. Qed.

End Outcomes.

(** X10: whatever the environment does, the program never ends with an
    unhandled rejection, and when it ends the process itself the exit
    status is 0 or 1; in listing mode it always ends the process or waits
    for ever on the discovery. *)
Theorem main_exit_status (list : bool) (ss : session) :
  notRejected (main list ss).1.1
  /\ exitsWith01 (main list ss).1.1
  /\ (list = true -> (main list ss).1.1 <> Ok tt).
Proof.
  unfold main, construct.
  rewrite (bindR_ok _ _ _ tt []
             {| launcher := set_selectedAVDs [] (set_avds [] (launcher ss));
                confirms := confirms ss |}) by done.
  set (ss0 := {| launcher := _; confirms := _ |}).
  change (prependR [] ?x).1.1 with x.1.1.
  destruct list.
  - pose proof (listingMode_outcome (launcher ss0)) as Hout.
    unfold liftR. destruct (listingMode (launcher ss0)) as [[[[]|e|c|] evs] s']; simpl in *; done.
  - destruct (run_invariant (S (length (confirms ss0))) ss0) as (Hrej & Hexit & _).
    rewrite catchR_resolved by done. done.
Qed.

(** X11: the rejection handler of the main program is never needed, and
    [run] nests no deeper than there are answers to its [confirm]
    prompts: the main program is the construction followed by [run], at
    any depth beyond the number of those answers. *)
Theorem main_is_run (ss : session) (depth : nat) :
  (length (confirms ss) < depth)%nat ->
  main false ss = bindR construct (fun _ => run depth) ss.
Proof.
  intros Hlen. unfold main. apply bindR_ext. intros [] evs ss0 Hconstruct.
  unfold construct in Hconstruct. apply liftR_confirms in Hconstruct.
  rewrite catchR_resolved by apply run_invariant.
  symmetry. apply run_depth. by rewrite Hconstruct.
Qed.

(** X12: [this.rl.close()] is called exactly when the built-in interface
    is in use and [run] resolves, and it is then the last thing [run]
    does; when the process is ended (a failed discovery, the quit key)
    or a prompt is never answered, readline is never closed, and with
    inquirer it never is. *)
Theorem run_closes_readline (depth : nat) (ss : session) :
  (RlClose ∈ (run depth ss).1.2
   <-> useInquirer (launcher ss) = false /\ (run depth ss).1.1 = Ok tt)
  /\ (useInquirer (launcher ss) = false /\ (run depth ss).1.1 = Ok tt ->
      last (run depth ss).1.2 = Some RlClose).
Proof.
  destruct (run_invariant depth ss) as (_ & _ & _ & Hclosed & Hcloses).
  split; [split|].
  - intros Hin. by destruct (Hclosed Hin) as (? & ? & _).
  - intros [Hui Hok]. by apply Hcloses.
  - intros [Hui Hok]. by destruct (Hclosed (Hcloses Hui Hok)) as (_ & _ & ?).
Qed.

(** X13: whatever the user and the environment do, the commands [run]
    spawns come round after round. Each round spawns the discovery
    command, then launch commands, for the platform, of devices picked
    from what the discovery of that very round reported (a subsequence
    of the report, in its order), up to some point. The reports of
    [exec] are read in order, one for each command: the inventory of a
    round is the first report that is left when the round starts, and
    the round leaves what follows the reports of its own commands. A run
    begins with such a round, whatever the answers to come. *)
Theorem run_spawns_reported (depth : nat) (ss : session) :
  rounds (platform (launcher ss)) (execs (launcher ss)) (spawnedR (run depth ss).1.2)
  /\ exists sel launched later,
       spawnedR (run (S depth) ss).1.2 = listCommand :: launched ++ later
       /\ sel `sublist_of` reported (execs (launcher ss))
       /\ launched `prefix_of` (getEmulatorCommand (platform (launcher ss)) <$> sel)
       /\ rounds (platform (launcher ss))
            (drop (S (length launched)) (execs (launcher ss))) later.
Proof.
  assert (Hall : forall depth ss,
             rounds (platform (launcher ss)) (execs (launcher ss))
               (spawnedR (run depth ss).1.2)).
  { clear depth ss. induction depth as [|depth IH]; intros ss; [constructor|].
    cbn [run]. rewrite spawnedR_runOnce.
    destruct (runBody_shape (run depth) ss)
      as [(Hround & _)|(_ & pre & ss' & -> & Hround & _ & Hhost & Hexecs)].
    - rewrite <- (app_nil_r (spawnedR _)). apply firstRound_rounds; [done|constructor].
    - unfold prependR. cbn [fst snd]. rewrite spawnedR_app. apply firstRound_rounds; [done|].
      destruct Hhost as (_ & Hplatform & _). rewrite <- Hplatform, <- Hexecs. apply IH. }
  split; [apply Hall|].
  cbn [run]. rewrite spawnedR_runOnce.
  destruct (runBody_shape (run depth) ss)
    as [((launched & Hspawned & (sel & Hsub & Hprefix) & _) & _)
       |(_ & pre & ss' & -> & (launched & Hspawned & (sel & Hsub & Hprefix) & _)
           & _ & Hhost & Hexecs)].
  - exists sel, launched, []. rewrite Hspawned, app_nil_r. split_and!; try done. constructor.
  - exists sel, launched, (spawnedR (run depth ss').1.2).
    unfold prependR. cbn [fst snd]. rewrite spawnedR_app, Hspawned. split_and!; try done.
    destruct Hhost as (_ & Hplatform & _). rewrite Hspawned in Hexecs. simpl in Hexecs.
    rewrite <- Hplatform, <- Hexecs. apply Hall.
Qed.

(** X14: with the built-in interface, or when the first answer to the
    confirmation of inquirer is not yes, [run] is a single round: it
    spawns the discovery command once, then the launch commands of
    devices picked from what that discovery reported (a subsequence of
    the report, in its order), up to some point, and nothing else. With inquirer and no yes to the confirmation nothing is
    launched at all. *)
Theorem run_first_round (depth : nat) (ss : session) :
  useInquirer (launcher ss) = false \/ head (confirms ss) <> Some true ->
  exists sel launched,
    spawnedR (run (S depth) ss).1.2 = listCommand :: launched
    /\ sel `sublist_of` reported (execs (launcher ss))
    /\ launched `prefix_of` (getEmulatorCommand (platform (launcher ss)) <$> sel)
    /\ (useInquirer (launcher ss) = true -> launched = []).
Proof.
  intros Hsingle. cbn [run]. rewrite spawnedR_runOnce.
  destruct (runBody_shape (run depth) ss)
    as [((launched & Hspawned & (sel & Hsub & Hprefix) & Hno) & _)|([Hui Hyes] & _)].
  - exists sel, launched. split_and!; try done.
    intros Hui. apply Hno; [done|]. by destruct Hsingle as [?|?]; [congruence|].
  - destruct Hsingle as [?|?]; congruence.
Qed.

(** X15: when the discovery fails, because the command reports an error
    or because it reports no device, [run] prints the message after ❌ An
    error occurred: and ends the process with status 1 in any interface;
    it has spawned the discovery command only, and it does not close
    readline. *)
Theorem run_discovery_failure (depth : nat) (ss : session) (r : exec_result)
    (rest : list (option exec_result)) (message : string) :
  execs (launcher ss) = Some r :: rest ->
  discoveryFailure r = Some message ->
  exists evs,
    run (S depth) ss
    = (Exited 1, evs ++ [errorLine message],
       {| launcher := set_execs rest (launcher ss); confirms := confirms ss |})
    /\ spawnedR evs = [listCommand]
    /\ RlClose ∉ evs.
Proof.
  intros Hexecs Hfail.
  assert (exists evs,
             getAVDList (launcher ss) = (Rejected message, evs, set_execs rest (launcher ss))
             /\ spawned evs = [listCommand]) as (evs & Hget & Hspawned).
  { rewrite (getAVDList_run _ _ _ Hexecs). unfold discoveryFailure in Hfail.
    destruct (callbackArgs r) as [[m|] stdout].
    - injection Hfail as ->. by eexists.
    - destruct (length (parseAVDs stdout) =? 0)%nat; [|done]. injection Hfail as <-.
      by eexists. }
  pose proof (liftR_run _ ss _ _ _ Hget) as Hlift.
  exists ((if useInquirer (launcher ss) then [] else [Core ConsoleClear])
          ++ [Core (ConsoleLog "🤖 Android AVD Multi-Launcher");
              Core (ConsoleLog ("==============================" +:+ nl))]
          ++ (Core <$> evs)).
  split_and!.
  - cbn [run]. rewrite runOnce_cases. unfold runBody, logR. rewrite bindR_getsR.
    destruct (useInquirer (launcher ss)); cbn [negb].
    + by rewrite bindR_retR, !bindR_emitR, (bindR_rejected _ _ _ _ _ _ Hlift).
    + by rewrite !bindR_emitR, (bindR_rejected _ _ _ _ _ _ Hlift).
  - rewrite !spawnedR_app, spawnedR_core, Hspawned. by destruct (useInquirer (launcher ss)).
  - rewrite !not_elem_of_app. split_and!.
    + destruct (useInquirer (launcher ss)); [apply not_elem_of_nil|unclosed].
    + unclosed.
    + apply not_close_core.
Qed.

(** X16: the selectors and the launch-mode prompt only talk to the user.
    Whatever is typed, [selectAVDs] spawns no process and leaves the
    reports to come, the interface, the platform and the terminal as
    they are; it ends the process only from the menu of the built-in
    interface (the quit keys) and then with status 0; it throws only
    from that menu too, and only what [setRawMode(true)] throws when
    standard input is not a terminal. The launch-mode prompt spawns
    nothing either, leaves the reports to come and the selection as they
    are, and neither throws nor ends the process. *)
Theorem prompts_spawn_nothing (s : state) :
  (spawned (selectAVDs s).1.2 = []
   /\ execs (selectAVDs s).2 = execs s
   /\ sameHost s (selectAVDs s).2
   /\ match (selectAVDs s).1.1 with
      | Ok _ | Blocked => True
      | Exited code => code = 0 /\ useInquirer s = false
      | Rejected message => useInquirer s = false /\ rawModeError s = Some message
      end)
  /\ (spawned (selectLaunchOptions s).1.2 = []
      /\ execs (selectLaunchOptions s).2 = execs s
      /\ sameJob s (selectLaunchOptions s).2
      /\ calm (selectLaunchOptions s).1.1).
Proof.
  split.
  - destruct (acts_selectAVDs s) as (Hrel & Hexecs & Hquiet & Hexit).
    specialize (Hquiet eq_refl). rewrite Hquiet in Hexecs. simpl in Hexecs.
    rewrite drop_0 in Hexecs. split_and!; try done.
    clear Hrel Hexecs Hquiet. revert Hexit. unfold selectAVDs. rewrite bind_gets.
    destruct (useInquirer s).
    + pose proof (gentle_selectAVDsInquirer s) as Hcalm.
      by destruct (selectAVDsInquirer s) as [[[] ?] ?].
    + pose proof (selectAVDsBuiltIn_rejects s) as Hthrown.
      destruct (selectAVDsBuiltIn s) as [[[[]|message|code|] ?] ?]; simpl in *; try done.
      intros _. split; [done|]. by apply Hthrown.
  - destruct (acts_selectLaunchOptions (rel := sameJob) s) as (Hrel & Hexecs & Hquiet & _).
    specialize (Hquiet eq_refl). rewrite Hquiet in Hexecs. simpl in Hexecs.
    rewrite drop_0 in Hexecs. split_and!; try done. apply gentle_selectLaunchOptions.
Qed.

(** X11 on the session of two rounds, at depth 5. *)
Lemma main_is_run_witness :
  (length (confirms Sessions.twoRounds) < 5)%nat
  /\ main false Sessions.twoRounds = bindR construct (fun _ => run 5) Sessions.twoRounds.
Proof. split; [simpl; lia|]. apply (main_is_run Sessions.twoRounds 5). simpl. lia. Defined.

(** X12 on the built-in sample: the run resolves and closes readline
    last. *)
Lemma run_closes_readline_witness :
  useInquirer (launcher Sessions.builtIn) = false
  /\ (run 1 Sessions.builtIn).1.1 = Ok tt
  /\ last (run 1 Sessions.builtIn).1.2 = Some RlClose.
Proof.
  assert (Hresolved : useInquirer (launcher Sessions.builtIn) = false
                      /\ (run 1 Sessions.builtIn).1.1 = Ok tt)
    by (split; vm_compute; reflexivity).
  destruct Hresolved as [Hui Hok]. split_and!; [exact Hui|exact Hok|].
  apply (run_closes_readline 1 Sessions.builtIn). by split.
Defined.

(** X13 on the session of two rounds: the discovery, one launch, and the
    discovery of the second round, which reads the third report. *)
Lemma run_spawns_reported_witness :
  spawnedR (run 3 Sessions.twoRounds).1.2
  = [listCommand; getEmulatorCommand "darwin" "Pixel_7"; listCommand]
  /\ rounds "darwin" (execs (launcher Sessions.twoRounds))
       (spawnedR (run 3 Sessions.twoRounds).1.2).
Proof.
  split; [vm_compute; reflexivity|].
  exact (proj1 (run_spawns_reported 3 Sessions.twoRounds)).
Defined.

(** X14 on the session where the user answers no, where the discovery is
    the only command spawned, and on the built-in session. *)
Lemma run_first_round_witness :
  head (confirms Sessions.declining) <> Some true
  /\ spawnedR (run 1 Sessions.declining).1.2 = [listCommand]
  /\ useInquirer (launcher Sessions.builtIn) = false
  /\ exists sel launched,
       spawnedR (run 1 Sessions.builtIn).1.2 = listCommand :: launched
       /\ sel `sublist_of` ["Pixel_5"; "Pixel_7"]
       /\ launched `prefix_of` (getEmulatorCommand "linux" <$> sel).
Proof.
  assert (Hno : head (confirms Sessions.declining) <> Some true) by discriminate.
  split; [exact Hno|]. split.
  - destruct (run_first_round 0 Sessions.declining (or_intror Hno))
      as (sel & launched & Hspawned & _ & _ & Hnone).
    rewrite Hspawned, (Hnone eq_refl). reflexivity.
  - split; [reflexivity|].
    destruct (run_first_round 0 Sessions.builtIn (or_introl eq_refl))
      as (sel & launched & Hspawned & Hsub & Hprefix & _).
    exists sel, launched. split; [exact Hspawned|]. split; [exact Hsub|exact Hprefix].
Defined.

(** X15 on the session where the discovery command cannot be run. *)
Lemma run_discovery_failure_witness :
  execs (launcher Sessions.failing)
  = [Some (Callback (Some "Command failed: emulator -list-avds") EmptyString)]
  /\ discoveryFailure (Callback (Some "Command failed: emulator -list-avds") EmptyString)
     = Some "Command failed: emulator -list-avds"
  /\ exists evs,
       run 1 Sessions.failing
       = (Exited 1, evs ++ [errorLine "Command failed: emulator -list-avds"],
          {| launcher := set_execs [] (launcher Sessions.failing);
             confirms := confirms Sessions.failing |})
       /\ spawnedR evs = [listCommand]
       /\ (RlClose ∉ evs).
Proof.
  split; [reflexivity|]. split; [reflexivity|].
  apply (run_discovery_failure 0 Sessions.failing _ [] _ eq_refl eq_refl).
Defined.

(** X16 on the built-in session when standard input is a pipe: the
    selector throws what [setRawMode] throws. *)
Lemma prompts_spawn_nothing_witness :
  (selectAVDs (launcher Sessions.piped)).1.1
  = Rejected "process.stdin.setRawMode is not a function"
  /\ useInquirer (launcher Sessions.piped) = false
  /\ rawModeError (launcher Sessions.piped)
     = Some "process.stdin.setRawMode is not a function"
  /\ spawned (selectAVDs (launcher Sessions.piped)).1.2 = [].
Proof.
  assert (Hthrown : (selectAVDs (launcher Sessions.piped)).1.1
                    = Rejected "process.stdin.setRawMode is not a function")
    by (vm_compute; reflexivity).
  destruct (prompts_spawn_nothing (launcher Sessions.piped))
    as [(Hquiet & _ & _ & Hout) _].
  rewrite Hthrown in Hout. destruct Hout as [Hui Htty].
  split; [exact Hthrown|]. split; [exact Hui|]. split; [exact Htty|exact Hquiet].
Defined.
